(** * Taskmaster: task prioritisation and notification scheduling

    A shallow embedding of [src/utils/smartSort.ts] (score functions and the
    memoised ranked view), of the notification service module
    (schedule / cancel of the reminder and deadline triggers), of the
    tasks slice of the store (its thunks and reducers), of the figures the
    screens derive ([TaskStats], [formatRelative], [getSubtaskProgress])
    and of the domain types of [src/types.ts].

    Numbers.  A JavaScript [number] is a binary64 floating-point value.
    It is modelled by the rational it denotes ([Q]), and every arithmetic
    operation rounds its exact result to the nearest binary64 value, ties
    to even ([Number.binary64]); [Number_agrees_with_binary64] compares
    the model with the binary64 operations of the kernel on sample
    computations.  Timestamps are Unix times in milliseconds, integers
    that a number holds exactly ([Z]).  The numbers computed from such
    timestamps stay within the normal range of binary64
    ([urgency_normal_range]), so that no overflow, underflow, infinity or
    NaN arises; the model leaves the exponent unbounded. *)

From Stdlib Require Import ZArith QArith Qround Qminmax Qpower Lqa Lia List.
From Stdlib Require Import Floats.
From Stdlib Require Import Sorting.Sorted Sorting.Permutation.
From stdpp Require Import gmap strings pretty.

Local Open Scope Z_scope.

(** ** Domain models ([src/types.ts]) *)

Inductive Priority := LOW | MEDIUM | HIGH.
Inductive TaskStatus := PENDING | COMPLETED.

Record Subtask := {
  subtask_id : string;
  subtask_title : string;
  isCompleted : bool
}.

Record Task := {
  id : string;
  title : string;
  description : string;
  priority : Priority;
  deadline : Z;
  status : TaskStatus;
  createdAt : Z;
  tags : list string;
  subtasks : list Subtask;
  completedAt : option Z
}.

(** [ScoredTask extends Task { score: number }]; built by the object spread
    [{ ...task, score }]. *)
Record ScoredTask := {
  task : Task;
  score : Q
}.

(** [User] and the state slices of the store. *)
Record User := {
  uid : string;
  email : string;
  displayName : option string
}.

(** A JavaScript array is an object: it has an identity, which [===]
    compares, next to its elements.  The store never mutates an array in
    place; a reducer that changes the collection installs a new array. *)
Record Array (A : Type) := {
  ref : positive;
  elements : list A
}.
Arguments ref {A} _.
Arguments elements {A} _.

Record AuthState := {
  user : option User;
  auth_loading : bool;
  auth_error : option string
}.

Module TasksState.
Record t := {
  tasks : Array Task;
  loading : bool;
  error : option string
}.
End TasksState.

Module RootState.
Record t := {
  auth : AuthState;
  tasks : TasksState.t
}.
End RootState.

Definition TaskStatus_eqb (s t : TaskStatus) : bool :=
  match s, t with
  | PENDING, PENDING | COMPLETED, COMPLETED => true
  | _, _ => false
  end.

(** ** The JavaScript built-ins the module relies on *)

Module JS.

(** [Math.round]: the nearest integer, halves going up. *)
Definition Math_round (x : Q) : Z := Qfloor (x + (1 # 2))%Q.

Definition Math_max (x y : Q) : Q := Qmax x y.
Definition Math_min (x y : Q) : Q := Qmin x y.

(** [Array.prototype.sort(compareFn)].  The language standard (since
    ECMAScript 2019) requires the sort to be stable; for a consistent
    comparator the outcome is then fixed ([Array_sort_unique] below), and
    is the one an insertion from the right computes: an element moves
    behind a later one only when [compareFn] is strictly positive on the
    pair. *)
Section Sort.
Context {A : Type} (compareFn : A -> A -> Q).

Fixpoint sort_insert (x : A) (l : list A) : list A :=
  match l with
  | [] => [x]
  | y :: l' =>
      if Qlt_le_dec 0 (compareFn x y)
      then y :: sort_insert x l'
      else x :: l
  end.

Fixpoint Array_sort (l : list A) : list A :=
  match l with
  | [] => []
  | x :: l' => sort_insert x (Array_sort l')
  end.
End Sort.

End JS.

(** ** Numbers

    The arithmetic of the type [number]: the exact result of an operation,
    rounded to the nearest binary64 value, ties going to the value with an
    even significand. *)

Module Number.

(** [2^e] *)
Definition pow2 (e : Z) : Q := (2 ^ e)%Q.

(** The integer nearest to [q]; of two nearest integers the even one. *)
Definition nearestEven (q : Q) : Z :=
  let f := Qfloor q in
  match (q - inject_Z f ?= 1 # 2)%Q with
  | Lt => f
  | Gt => f + 1
  | Eq => if Z.even f then f else f + 1
  end.

(** For [x > 0], the exponent [e] of the unit in the last place of [x]:
    [2^52 <= x / 2^e < 2^53]. *)
Definition exponent (x : Q) : Z :=
  let e := Z.log2 (Qnum x) - Z.log2 (Zpos (Qden x)) - 53 in
  if Qlt_le_dec x (pow2 (e + 53)) then e else e + 1.

(** For [x > 0], the nearest number with a significand of 53 bits. *)
Definition nearest (x : Q) : Q :=
  let e := exponent x in
  (inject_Z (nearestEven (x / pow2 e)) * pow2 e)%Q.

Definition binary64 (x : Q) : Q :=
  match (x ?= 0)%Q with
  | Eq => 0%Q
  | Gt => nearest x
  | Lt => (- nearest (- x))%Q
  end.

(** [a + b], [a - b], [a * b] and [a / b] on numbers. *)
Definition add (a b : Q) : Q := binary64 (a + b).
Definition sub (a b : Q) : Q := binary64 (a - b).
Definition mul (a b : Q) : Q := binary64 (a * b).
Definition div (a b : Q) : Q := binary64 (a / b).

End Number.

(** ** Score functions ([src/utils/smartSort.ts]) *)

Definition PRIORITY_WEIGHTS (p : Priority) : Q :=
  match p with
  | HIGH => 100
  | MEDIUM => 50
  | LOW => 10
  end.

Definition URGENCY_MULTIPLIER : Q := 50.
Definition MS_PER_HOUR : Z := 1000 * 60 * 60.

Definition computeScore (t : Task) (now : Z) : Q :=
  if TaskStatus_eqb (status t) COMPLETED then 0%Q else
  let priorityWeight := PRIORITY_WEIGHTS (priority t) in
  let msRemaining := Number.sub (inject_Z (deadline t)) (inject_Z now) in
  let hoursRemaining :=
    if Qlt_le_dec 0 msRemaining
    then Number.div msRemaining (inject_Z MS_PER_HOUR)
    else Number.binary64 (1 # 100) in
  let urgencyWeight :=
    Number.mul (Number.div 1 hoursRemaining) URGENCY_MULTIPLIER in
  Number.add priorityWeight urgencyWeight.

(** [tasks.filter(pred).length] *)
Definition count (pred : Task -> bool) (tasks : list Task) : nat :=
  length (List.filter pred tasks).

Definition inject_nat (n : nat) : Q := inject_Z (Z.of_nat n).

Definition isOnTime (t : Task) : bool :=
  TaskStatus_eqb (status t) COMPLETED &&
  match completedAt t with
  | Some c => c <=? deadline t
  | None => false
  end.

Definition isLate (t : Task) : bool :=
  TaskStatus_eqb (status t) COMPLETED &&
  match completedAt t with
  | Some c => deadline t <? c
  | None => true
  end.

Definition isOverdue (now : Z) (t : Task) : bool :=
  TaskStatus_eqb (status t) PENDING && (deadline t <? now).

Definition computeConsistencyScore (tasks : list Task) (now : Z) : Z :=
  let onTime := count isOnTime tasks in
  let late := count isLate tasks in
  let overdue := count (isOverdue now) tasks in
  let total := (onTime + late + overdue)%nat in
  if (total =? 0)%nat then 0 else
  JS.Math_round
    (Number.mul (Number.div (inject_nat onTime) (inject_nat total)) 100).

Definition computeTimeHealth (t : Task) (now : Z) : Z :=
  if TaskStatus_eqb (status t) COMPLETED then
    if match completedAt t with
       | Some c => c <=? deadline t
       | None => false
       end
    then 100 else 0
  else
  let total :=
    Number.sub (inject_Z (deadline t)) (inject_Z (createdAt t)) in
  if Qle_bool total 0 then 0 else
  let remaining := Number.sub (inject_Z (deadline t)) (inject_Z now) in
  JS.Math_round
    (JS.Math_max 0
       (JS.Math_min 100 (Number.mul (Number.div remaining total) 100))).

(** ** The JavaScript runtime seen by the selectors

    [Date.now()] reads a clock that advances on its own between calls, and
    every array literal, [map] or [filter] allocates an object with a fresh
    identity. *)

Record Runtime := {
  clock : Z;
  fresh : positive
}.

Definition Run (A : Type) : Type := Runtime -> A * Runtime.

Definition Date_now : Run Z := fun rt => (clock rt, rt).

Definition new_Array {A : Type} (l : list A) : Run (Array A) :=
  fun rt =>
    ({| ref := fresh rt; elements := l |},
     {| clock := clock rt; fresh := Pos.succ (fresh rt) |}).

(** The clock moves to [now] without any call of the program. *)
Definition tick (now : Z) (rt : Runtime) : Runtime :=
  {| clock := now; fresh := fresh rt |}.

(** ** [createSelector] (reselect, re-exported by the store toolkit)

    Modelled from the spec: the library is not part of the repository; the
    specification describes the projection as memoised against the
    identity of the collection, with a process-local cache keyed by it.

    A selector made from one input selector and a result function keeps
    results it has computed, filed under the identity ([===]) of the input
    value they were computed from.  A call looks the new input value up:
    when a result is kept for that object it is returned and the result
    function does not run; otherwise the result function runs, its result
    is kept, and [recomputations] goes up by one.

    Where results are kept is the selector's [memoize] option.  Two are in
    use: a single entry for the input seen last ([lruMemoize] of size one,
    the default of reselect 4), and a weak map from input objects to
    results ([weakMapMemoize], the default of reselect 5). *)

Module Reselect.

Class Memoize (M : Type -> Type) : Type := {
  memo_empty : forall {Out : Type}, M Out;
  memo_lookup : forall {Out : Type}, positive -> M Out -> option Out;
  memo_store : forall {Out : Type}, positive -> Out -> M Out -> M Out
}.

Class MemoizeLaws (M : Type -> Type) `{Memoize M} : Prop := {
  memo_lookup_empty :
    forall (Out : Type) (k : positive),
      memo_lookup k (memo_empty : M Out) = None;
  memo_lookup_store :
    forall (Out : Type) (k : positive) (v : Out) (m : M Out),
      memo_lookup k (memo_store k v m) = Some v;
  memo_lookup_kept :
    forall (Out : Type) (k k' : positive) (v o : Out) (m : M Out),
      memo_lookup k' (memo_store k v m) = Some o ->
      (k' = k /\ o = v) \/ memo_lookup k' m = Some o
}.

Definition Lru (Out : Type) : Type := option (positive * Out).

#[global] Instance lruMemoize : Memoize Lru := {
  memo_empty := fun Out => None;
  memo_lookup := fun Out k m =>
    match m with
    | Some (last, out) => if Pos.eqb k last then Some out else None
    | None => None
    end;
  memo_store := fun Out k v _ => Some (k, v)
}.

Definition WeakMap (Out : Type) : Type := gmap positive Out.

#[global] Instance weakMapMemoize : Memoize WeakMap := {
  memo_empty := fun Out => (∅ : gmap positive Out);
  memo_lookup := fun Out k (m : gmap positive Out) => m !! k;
  memo_store := fun Out k v (m : gmap positive Out) => <[k := v]> m
}.

Section Selector.
Context {M : Type -> Type} `{Memoize M}.

Record Cache (Out : Type) := {
  memo : M Out;
  recomputations : nat
}.
Arguments memo {Out} _.
Arguments recomputations {Out} _.

Definition empty {Out : Type} : Cache Out :=
  {| memo := memo_empty; recomputations := 0 |}.

(** The kept result for [input], if any. *)
Definition cached {In Out : Type} (identity : In -> positive)
    (input : In) (c : Cache Out) : option Out :=
  memo_lookup (identity input) (memo c).

Definition recompute {In Out : Type} (resultFunc : In -> Run Out)
    (key : positive) (input : In) (rt : Runtime) (c : Cache Out)
    : Out * Runtime * Cache Out :=
  let (out, rt') := resultFunc input rt in
  (out, rt',
   {| memo := memo_store key out (memo c);
      recomputations := S (recomputations c) |}).

Definition createSelector {In Out : Type} (identity : In -> positive)
    (resultFunc : In -> Run Out) (input : In) (rt : Runtime)
    (c : Cache Out) : Out * Runtime * Cache Out :=
  match cached identity input c with
  | Some out => (out, rt, c)
  | None => recompute resultFunc (identity input) input rt c
  end.
End Selector.

Arguments Cache M Out : clear implicits.
Arguments memo {M Out} _.
Arguments recomputations {M Out} _.

End Reselect.

(** ** Selectors ([src/utils/smartSort.ts]) *)

Definition selectTasks (state : RootState.t) : Array Task :=
  TasksState.tasks (RootState.tasks state).

Definition withScore (now : Z) (t : Task) : ScoredTask :=
  {| task := t; score := computeScore t now |}.

Definition byScoreDesc (a b : ScoredTask) : Q :=
  Number.sub (score b) (score a).

(** The result function of [selectSmartSortedTasks]: [map] allocates the
    array that [sort] then orders in place. *)
Definition smartSorted (tasks : Array Task) : Run (Array ScoredTask) :=
  fun rt =>
    let (now, rt) := Date_now rt in
    new_Array
      (JS.Array_sort byScoreDesc (map (withScore now) (elements tasks))) rt.

Definition hasStatus (s : TaskStatus) (t : ScoredTask) : bool :=
  TaskStatus_eqb (status (task t)) s.

Definition onlyStatus (s : TaskStatus) (tasks : Array ScoredTask)
    : Run (Array ScoredTask) :=
  new_Array (List.filter (hasStatus s) (elements tasks)).

Definition consistency (tasks : Array Task) : Run Z :=
  fun rt =>
    let (now, rt) := Date_now rt in
    (computeConsistencyScore (elements tasks) now, rt).

Section Selectors.
Context {M : Type -> Type} `{Reselect.Memoize M}.

Definition selectSmartSortedTasks (state : RootState.t) (rt : Runtime)
    (c : Reselect.Cache M (Array ScoredTask)) :=
  Reselect.createSelector ref smartSorted (selectTasks state) rt c.

Definition selectConsistencyScore (state : RootState.t) (rt : Runtime)
    (c : Reselect.Cache M Z) :=
  Reselect.createSelector ref consistency (selectTasks state) rt c.

(** The two convenience selectors take [selectSmartSortedTasks] as their
    input selector, so they share its cache. *)
Definition selectByStatus (s : TaskStatus) (state : RootState.t)
    (rt : Runtime)
    (c : Reselect.Cache M (Array ScoredTask) *
         Reselect.Cache M (Array ScoredTask)) :=
  let '(sorted, rt1, c1) := selectSmartSortedTasks state rt (fst c) in
  let '(out, rt2, c2) :=
    Reselect.createSelector ref (onlyStatus s) sorted rt1 (snd c) in
  (out, rt2, (c1, c2)).

Definition selectPendingTasks := selectByStatus PENDING.
Definition selectCompletedTasks := selectByStatus COMPLETED.
End Selectors.

(** ** The notification-delivery service (notifee)

    Modelled from the spec: the service is outside the repository.  Its
    interface is the one of the specification's External Interfaces:
    [requestPermission] answers with the grant status,
    [createTriggerNotification] stores the trigger under the
    notification's id, replacing an older one of that id, and
    [cancelTriggerNotification] removes the trigger of that id and does
    nothing when there is none.  Any call may also fail. *)

Module AndroidImportance.
Inductive t := NONE | MIN | LOW | DEFAULT | HIGH.
End AndroidImportance.

Module Notifee.

Inductive TriggerType := TIMESTAMP | INTERVAL.

Record AlarmManager := { allowWhileIdle : bool }.

Record TimestampTrigger := {
  type : TriggerType;
  timestamp : Z;
  alarmManager : option AlarmManager
}.

Record PressAction := { pressAction_id : string }.

Record NotificationAndroid := {
  channelId : string;
  importance : AndroidImportance.t;
  pressAction : PressAction;
  smallIcon : string
}.

Record Notification := {
  id : string;
  title : string;
  body : string;
  android : NotificationAndroid
}.

Record NotificationSettings := { authorizationStatus : Z }.

Inductive Request :=
| RequestPermission
| CreateTriggerNotification (n : Notification) (t : TimestampTrigger)
| CancelTriggerNotification (notificationId : string).

(** A settled promise. *)
Inductive Promise (A : Type) :=
| Resolved (a : A)
| Rejected (reason : string).
Arguments Resolved {A} _.
Arguments Rejected {A} _.

(** Modelled from the spec: the device as one call of the program sees
    it.  [clock] is what [Date.now()] returns during the call,
    [permission] the answer to a permission request, [failing] the calls
    the service rejects (with the reason), [triggers] the pending triggers
    by notification id, and [requests] the calls received so far, oldest
    first. *)
Record Device := {
  clock : Z;
  permission : Promise (option NotificationSettings);
  failing : Request -> option string;
  triggers : gmap string (Notification * TimestampTrigger);
  requests : list Request
}.

Definition logged (r : Request) (d : Device) : Device :=
  {| clock := clock d; permission := permission d; failing := failing d;
     triggers := triggers d; requests := requests d ++ [r] |}.

Definition with_triggers (m : gmap string (Notification * TimestampTrigger))
    (d : Device) : Device :=
  {| clock := clock d; permission := permission d; failing := failing d;
     triggers := m; requests := requests d |}.

(** Each call reaches the service at once and hands back its promise. *)
Definition Call (A : Type) : Type := Device -> Promise A * Device.

Definition requestPermission : Call (option NotificationSettings) :=
  fun d => (permission d, logged RequestPermission d).

Definition createTriggerNotification (n : Notification)
    (t : TimestampTrigger) : Call string :=
  fun d =>
    let d := logged (CreateTriggerNotification n t) d in
    match failing d (CreateTriggerNotification n t) with
    | Some reason => (Rejected reason, d)
    | None =>
        (Resolved (id n), with_triggers (<[id n := (n, t)]> (triggers d)) d)
    end.

Definition cancelTriggerNotification (notificationId : string) : Call unit :=
  fun d =>
    let d := logged (CancelTriggerNotification notificationId) d in
    match failing d (CancelTriggerNotification notificationId) with
    | Some reason => (Rejected reason, d)
    | None =>
        (Resolved tt, with_triggers (delete notificationId (triggers d)) d)
    end.

(** [Promise.all]: the values when every promise resolved, the first
    rejection otherwise. *)
Fixpoint Promise_all {A : Type} (ps : list (Promise A)) : Promise (list A) :=
  match ps with
  | [] => Resolved []
  | Rejected reason :: _ => Rejected reason
  | Resolved a :: ps' =>
      match Promise_all ps' with
      | Resolved l => Resolved (a :: l)
      | Rejected reason => Rejected reason
      end
  end.

(** An [async] function body: it runs on the device and settles its own
    promise; awaiting a rejected promise rejects it. *)
Definition Async (A : Type) : Type := Device -> Promise A * Device.

Definition ret {A : Type} (a : A) : Async A := fun d => (Resolved a, d).

Definition bind {A B : Type} (m : Async A) (k : A -> Async B) : Async B :=
  fun d =>
    match m d with
    | (Resolved a, d') => k a d'
    | (Rejected reason, d') => (Rejected reason, d')
    end.

(** Start a call without awaiting it. *)
Definition start {A : Type} (c : Call A) : Async (Promise A) :=
  fun d => let (p, d') := c d in (Resolved p, d').

Definition await {A : Type} (p : Promise A) : Async A := fun d => (p, d).

Definition Date_now : Async Z := fun d => (Resolved (clock d), d).

End Notifee.

Notation "'let*' x ':=' m 'in' k" := (Notifee.bind m (fun x => k))
  (at level 10, x name, m at level 100, k at level 200).

(** ** Notification scheduling (the notification service module) *)

Definition CHANNEL_ID : string := "task-reminders".
Definition ONE_HOUR_MS : Z := 60 * 60 * 1000.

Definition REMINDER_SUFFIX : string := "-reminder".
Definition DEADLINE_SUFFIX : string := "-deadline".

(** [s] between double quotes. *)
Definition quoted (s : string) : string :=
  String (Ascii.ascii_of_nat 34)
    (s ++ String (Ascii.ascii_of_nat 34) EmptyString).

Definition androidOptions : Notifee.NotificationAndroid :=
  {| Notifee.channelId := CHANNEL_ID;
     Notifee.importance := AndroidImportance.HIGH;
     Notifee.pressAction := {| Notifee.pressAction_id := "default" |};
     Notifee.smallIcon := "ic_launcher" |}.

Definition reminderNotification (t : Task) : Notifee.Notification :=
  {| Notifee.id := id t ++ REMINDER_SUFFIX;
     Notifee.title := "⏰ Task Due Soon";
     Notifee.body := quoted (title t) ++ " is due in 1 hour";
     Notifee.android := androidOptions |}.

Definition deadlineNotification (t : Task) : Notifee.Notification :=
  {| Notifee.id := id t ++ DEADLINE_SUFFIX;
     Notifee.title := "🔔 Task Deadline Reached";
     Notifee.body := quoted (title t) ++ " is due right now!";
     Notifee.android := androidOptions |}.

(** [!settings || settings.authorizationStatus < 1] *)
Definition denied (settings : option Notifee.NotificationSettings) : bool :=
  match settings with
  | None => true
  | Some s => Notifee.authorizationStatus s <? 1
  end.

Definition scheduleTaskNotifications (t : Task) : Notifee.Async unit :=
  let* permission := Notifee.start Notifee.requestPermission in
  let* settings := Notifee.await permission in
  if denied settings then Notifee.ret tt else
  let* now := Notifee.Date_now in
  let reminderTime := deadline t - ONE_HOUR_MS in
  let deadlineTime := deadline t in
  let promises : list (Notifee.Promise string) := [] in
  let* promises :=
    if now <? reminderTime then
      let reminderTrigger :=
        {| Notifee.type := Notifee.TIMESTAMP;
           Notifee.timestamp := reminderTime;
           Notifee.alarmManager := None |} in
      let* p := Notifee.start
                  (Notifee.createTriggerNotification
                     (reminderNotification t) reminderTrigger) in
      Notifee.ret (promises ++ [p])
    else Notifee.ret promises in
  let* promises :=
    if now <? deadlineTime then
      let deadlineTrigger :=
        {| Notifee.type := Notifee.TIMESTAMP;
           Notifee.timestamp := deadlineTime;
           Notifee.alarmManager :=
             Some {| Notifee.allowWhileIdle := true |} |} in
      let* p := Notifee.start
                  (Notifee.createTriggerNotification
                     (deadlineNotification t) deadlineTrigger) in
      Notifee.ret (promises ++ [p])
    else Notifee.ret promises in
  let* _ := Notifee.await (Notifee.Promise_all promises) in
  Notifee.ret tt.

Definition cancelTaskNotifications (taskId : string) : Notifee.Async unit :=
  let* p1 := Notifee.start
               (Notifee.cancelTriggerNotification (taskId ++ REMINDER_SUFFIX)) in
  let* p2 := Notifee.start
               (Notifee.cancelTriggerNotification (taskId ++ DEADLINE_SUFFIX)) in
  let* _ := Notifee.await (Notifee.Promise_all [p1; p2]) in
  Notifee.ret tt.

(** ** Array built-ins used by the store slice *)

Module Arr.

(** [Array.prototype.findIndex]: the index of the first element that
    satisfies [pred], [-1] when there is none. *)
Fixpoint findIndex {A : Type} (pred : A -> bool) (l : list A) : Z :=
  match l with
  | [] => -1
  | x :: l' =>
      if pred x then 0
      else let i := findIndex pred l' in
           if i =? -1 then -1 else i + 1
  end.

(** [Array.prototype.find]: the first element that satisfies [pred]. *)
Fixpoint find {A : Type} (pred : A -> bool) (l : list A) : option A :=
  match l with
  | [] => None
  | x :: l' => if pred x then Some x else find pred l'
  end.

(** An assignment to a field of the object [find] returned: that object
    is the array's first element satisfying [pred], so the array holds the
    changed element in its place. *)
Fixpoint assignFound {A : Type} (pred : A -> bool) (f : A -> A)
    (l : list A) : list A :=
  match l with
  | [] => []
  | x :: l' => if pred x then f x :: l' else x :: assignFound pred f l'
  end.

End Arr.

(** ** The tasks slice of the store (reducers)

    The case reducers of [createSlice] run on a draft of the state: a
    reducer that assigns to the draft yields a state in which every
    changed array is a new object, and the parts it did not touch are
    shared with the state it was given; a reducer that assigns nothing
    returns the state it was given.  [fresh] is the identity a new array
    gets. *)

Inductive TasksAction :=
| clearTasks
| clearTasksError
| setTasks (payload : Array Task)
| setTasksLoading (payload : bool)
| fetchTasks_pending
| fetchTasks_fulfilled (payload : Array Task)
| fetchTasks_rejected (payload : option string)
| addTask_pending
| addTask_fulfilled
| addTask_rejected (payload : option string)
| updateTask_fulfilled (payload : Task)
| updateTask_rejected (payload : option string)
| deleteTask_fulfilled (payload : string)
| deleteTask_rejected (payload : option string)
| toggleSubtask_fulfilled (taskId : string) (updatedSubtasks : list Subtask)
| toggleSubtask_rejected (payload : option string)
| toggleTaskStatus_fulfilled (payload : Task)
| toggleTaskStatus_rejected (payload : option string).

Definition initialState : TasksState.t :=
  {| TasksState.tasks := {| ref := 1%positive; elements := [] |};
     TasksState.loading := false;
     TasksState.error := None |}.

(** [t.id === i] *)
Definition hasId (i : string) (t : Task) : bool := String.eqb (id t) i.

(** [const idx = state.tasks.findIndex(t => t.id === payload.id);
    if (idx !== -1) state.tasks[idx] = payload;] *)
Definition replaceTask (fresh : positive) (payload : Task)
    (tasks : Array Task) : Array Task :=
  let idx := Arr.findIndex (hasId (id payload)) (elements tasks) in
  if idx =? -1 then tasks
  else {| ref := fresh;
          elements := <[Z.to_nat idx := payload]> (elements tasks) |}.

Definition withSubtasks (l : list Subtask) (t : Task) : Task :=
  {| id := id t; title := title t; description := description t;
     priority := priority t; deadline := deadline t; status := status t;
     createdAt := createdAt t; tags := tags t; subtasks := l;
     completedAt := completedAt t |}.

(** [const task = state.tasks.find(t => t.id === taskId);
    if (task) task.subtasks = updatedSubtasks;] *)
Definition setSubtasks (fresh : positive) (taskId : string)
    (updatedSubtasks : list Subtask) (tasks : Array Task) : Array Task :=
  match Arr.find (hasId taskId) (elements tasks) with
  | Some _ =>
      {| ref := fresh;
         elements :=
           Arr.assignFound (hasId taskId) (withSubtasks updatedSubtasks)
             (elements tasks) |}
  | None => tasks
  end.

(** [action.payload ?? fallback] *)
Definition orElse (payload : option string) (fallback : string) : string :=
  match payload with
  | Some message => message
  | None => fallback
  end.

Definition tasksReducer (fresh : positive) (state : TasksState.t)
    (action : TasksAction) : TasksState.t :=
  let tasks := TasksState.tasks state in
  let loading := TasksState.loading state in
  let error := TasksState.error state in
  match action with
  | clearTasks =>
      {| TasksState.tasks := {| ref := fresh; elements := [] |};
         TasksState.loading := loading; TasksState.error := error |}
  | clearTasksError =>
      {| TasksState.tasks := tasks; TasksState.loading := loading;
         TasksState.error := None |}
  | setTasks payload =>
      {| TasksState.tasks := payload; TasksState.loading := false;
         TasksState.error := error |}
  | setTasksLoading payload =>
      {| TasksState.tasks := tasks; TasksState.loading := payload;
         TasksState.error := error |}
  | fetchTasks_pending =>
      {| TasksState.tasks := tasks; TasksState.loading := true;
         TasksState.error := None |}
  | fetchTasks_fulfilled payload =>
      {| TasksState.tasks := payload; TasksState.loading := false;
         TasksState.error := error |}
  | fetchTasks_rejected payload =>
      {| TasksState.tasks := tasks; TasksState.loading := false;
         TasksState.error := Some (orElse payload "Fetch failed.") |}
  | addTask_pending =>
      {| TasksState.tasks := tasks; TasksState.loading := loading;
         TasksState.error := None |}
  | addTask_fulfilled =>
      {| TasksState.tasks := tasks; TasksState.loading := false;
         TasksState.error := error |}
  | addTask_rejected payload =>
      {| TasksState.tasks := tasks; TasksState.loading := false;
         TasksState.error := Some (orElse payload "Add failed.") |}
  | updateTask_fulfilled payload =>
      {| TasksState.tasks := replaceTask fresh payload tasks;
         TasksState.loading := loading; TasksState.error := error |}
  | updateTask_rejected payload =>
      {| TasksState.tasks := tasks; TasksState.loading := loading;
         TasksState.error := Some (orElse payload "Update failed.") |}
  | deleteTask_fulfilled payload =>
      {| TasksState.tasks :=
           {| ref := fresh;
              elements :=
                List.filter (fun t => negb (hasId payload t))
                  (elements tasks) |};
         TasksState.loading := loading; TasksState.error := error |}
  | deleteTask_rejected payload =>
      {| TasksState.tasks := tasks; TasksState.loading := loading;
         TasksState.error := Some (orElse payload "Delete failed.") |}
  | toggleSubtask_fulfilled taskId updatedSubtasks =>
      {| TasksState.tasks := setSubtasks fresh taskId updatedSubtasks tasks;
         TasksState.loading := loading; TasksState.error := error |}
  | toggleSubtask_rejected payload =>
      {| TasksState.tasks := tasks; TasksState.loading := loading;
         TasksState.error := Some (orElse payload "Subtask toggle failed.") |}
  | toggleTaskStatus_fulfilled payload =>
      {| TasksState.tasks := replaceTask fresh payload tasks;
         TasksState.loading := loading; TasksState.error := error |}
  | toggleTaskStatus_rejected payload =>
      {| TasksState.tasks := tasks; TasksState.loading := loading;
         TasksState.error := Some (orElse payload "Toggle failed.") |}
  end.

(** The root reducer hands the [tasks] slice to [tasksReducer] and leaves
    the [auth] slice to its own reducer. *)
Definition dispatchTasks (fresh : positive) (state : RootState.t)
    (action : TasksAction) : RootState.t :=
  {| RootState.auth := RootState.auth state;
     RootState.tasks := tasksReducer fresh (RootState.tasks state) action |}.

(** ** The task thunks of the slice

    The thunks write to the document store and then start the
    notification calls without awaiting them ([.catch(() => null)]): what
    those calls settle to is dropped.  The document store is outside the
    repository; a write either resolves or throws, an [Error] object or
    some other value. *)

Module Firestore.

Inductive Thrown :=
| ErrorObject (message : string)
| OtherValue.

(** [Omit<Task, 'id'>] *)
Record TaskData := {
  title : string;
  description : string;
  priority : Priority;
  deadline : Z;
  status : TaskStatus;
  createdAt : Z;
  tags : list string;
  subtasks : list Subtask;
  completedAt : option Z
}.

Inductive Fields :=
| TaskFields (data : TaskData)
| SubtasksField (subtasks : list Subtask)
| StatusFields (status : TaskStatus) (completedAt : option Z).

Inductive Write :=
| AddDoc (uid : string) (data : TaskData)
| UpdateDoc (uid taskId : string) (fields : Fields)
| DeleteDoc (uid taskId : string).

End Firestore.

(** [const { id, ...data } = task] *)
Definition dataOf (t : Task) : Firestore.TaskData :=
  {| Firestore.title := title t; Firestore.description := description t;
     Firestore.priority := priority t; Firestore.deadline := deadline t;
     Firestore.status := status t; Firestore.createdAt := createdAt t;
     Firestore.tags := tags t; Firestore.subtasks := subtasks t;
     Firestore.completedAt := completedAt t |}.

(** [{ id, ...task }] *)
Definition withId (i : string) (d : Firestore.TaskData) : Task :=
  {| id := i; title := Firestore.title d;
     description := Firestore.description d;
     priority := Firestore.priority d; deadline := Firestore.deadline d;
     status := Firestore.status d; createdAt := Firestore.createdAt d;
     tags := Firestore.tags d; subtasks := Firestore.subtasks d;
     completedAt := Firestore.completedAt d |}.

(** What one call of a thunk runs in: the device of the notification
    service, the writes the document store received so far (oldest
    first), the writes it rejects, and the id it gives the document the
    call adds. *)
Record World := {
  device : Notifee.Device;
  writes : list Firestore.Write;
  rejecting : Firestore.Write -> option Firestore.Thrown;
  nextId : string
}.

(** What a thunk's payload creator returns: the payload of the fulfilled
    action, or the value of [rejectWithValue]. *)
Inductive Settled (A : Type) :=
| Fulfilled (payload : A)
| RejectedWithValue (message : string).
Arguments Fulfilled {A} _.
Arguments RejectedWithValue {A} _.

(** [await addDoc / updateDoc / deleteDoc]: [Some err] when it throws. *)
Definition write (wr : Firestore.Write) (w : World)
    : option Firestore.Thrown * World :=
  (rejecting w wr,
   {| device := device w; writes := writes w ++ [wr];
      rejecting := rejecting w; nextId := nextId w |}).

(** [call.catch(() => null)], not awaited. *)
Definition detached (call : Notifee.Async unit) (w : World) : World :=
  {| device := snd (call (device w)); writes := writes w;
     rejecting := rejecting w; nextId := nextId w |}.

(** [err instanceof Error ? err.message : fallback] *)
Definition messageOf (err : Firestore.Thrown) (fallback : string) : string :=
  match err with
  | Firestore.ErrorObject message => message
  | Firestore.OtherValue => fallback
  end.

Definition addTask (uid : string) (task : Firestore.TaskData) (w : World)
    : Settled Task * World :=
  match write (Firestore.AddDoc uid task) w with
  | (Some err, w) =>
      (RejectedWithValue (messageOf err "Failed to add task."), w)
  | (None, w) =>
      let saved := withId (nextId w) task in
      let w := detached (scheduleTaskNotifications saved) w in
      (Fulfilled saved, w)
  end.

Definition updateTask (uid : string) (task : Task) (w : World)
    : Settled Task * World :=
  let data := dataOf task in
  match
    write (Firestore.UpdateDoc uid (id task) (Firestore.TaskFields data)) w
  with
  | (Some err, w) =>
      (RejectedWithValue (messageOf err "Failed to update task."), w)
  | (None, w) =>
      let w := detached (cancelTaskNotifications (id task)) w in
      let w := detached (scheduleTaskNotifications task) w in
      (Fulfilled task, w)
  end.

Definition deleteTask (uid taskId : string) (w : World)
    : Settled string * World :=
  match write (Firestore.DeleteDoc uid taskId) w with
  | (Some err, w) =>
      (RejectedWithValue (messageOf err "Failed to delete task."), w)
  | (None, w) =>
      let w := detached (cancelTaskNotifications taskId) w in
      (Fulfilled taskId, w)
  end.

(** [s.id === subtaskId ? { ...s, isCompleted: !s.isCompleted } : s] *)
Definition toggled (subtaskId : string) (s : Subtask) : Subtask :=
  if String.eqb (subtask_id s) subtaskId
  then {| subtask_id := subtask_id s; subtask_title := subtask_title s;
          isCompleted := negb (isCompleted s) |}
  else s.

Definition toggleSubtask (uid taskId subtaskId : string)
    (subtasks : list Subtask) (w : World)
    : Settled (string * list Subtask) * World :=
  let updatedSubtasks := map (toggled subtaskId) subtasks in
  match
    write (Firestore.UpdateDoc uid taskId
             (Firestore.SubtasksField updatedSubtasks)) w
  with
  | (Some err, w) =>
      (RejectedWithValue (messageOf err "Failed to toggle subtask."), w)
  | (None, w) => (Fulfilled (taskId, updatedSubtasks), w)
  end.

Definition toggleTaskStatus (uid : string) (task : Task) (w : World)
    : Settled Task * World :=
  let newStatus :=
    if TaskStatus_eqb (status task) PENDING then COMPLETED else PENDING in
  let completedAt :=
    if TaskStatus_eqb newStatus COMPLETED
    then Some (Notifee.clock (device w)) else None in
  match
    write (Firestore.UpdateDoc uid (id task)
             (Firestore.StatusFields newStatus completedAt)) w
  with
  | (Some err, w) =>
      (RejectedWithValue (messageOf err "Failed to toggle status."), w)
  | (None, w) =>
      let updated :=
        {| id := id task; title := title task;
           description := description task; priority := priority task;
           deadline := deadline task; status := newStatus;
           createdAt := createdAt task; tags := tags task;
           subtasks := subtasks task; completedAt := completedAt |} in
      let w :=
        if TaskStatus_eqb newStatus COMPLETED
        then detached (cancelTaskNotifications (id task)) w
        else detached (scheduleTaskNotifications updated) w in
      (Fulfilled updated, w)
  end.

(** ** Figures the screens derive *)


(** [formatRelative] (the task detail screen) *)
Definition formatRelative (ts now : Z) : string :=
  let diff := ts - now in
  let absDiff := Z.abs diff in
  let hours := absDiff / (1000 * 60 * 60) in
  let days := hours / 24 in
  if diff <? 0 then
    if 0 <? days then pretty days ++ "d overdue"
    else if 0 <? hours then pretty hours ++ "h overdue"
    else "Just overdue"
  else
    if 0 <? days then "in " ++ pretty days ++ "d"
    else if 0 <? hours then "in " ++ pretty hours ++ "h"
    else "Due soon".

(** The figures of the [TaskStats] tiles, from the lists of
    [selectPendingTasks] and [selectCompletedTasks], the value of
    [selectConsistencyScore] and the [now] of the tick. *)
Record Stats := {
  pendingCount : nat;
  doneCount : nat;
  highCount : nat;
  overdueCount : nat;
  scoreLabel : string
}.

Definition isHigh (t : ScoredTask) : bool :=
  match priority (task t) with
  | HIGH => true
  | _ => false
  end.

Definition TaskStats (pending completed : list ScoredTask)
    (consistencyScore now : Z) : Stats :=
  {| pendingCount := length pending;
     doneCount := length completed;
     highCount := length (List.filter isHigh pending);
     overdueCount :=
       length (List.filter (fun t => deadline (task t) <? now) pending);
     scoreLabel :=
       if 80 <=? consistencyScore then "On Track"
       else if 50 <=? consistencyScore then "Needs Attention"
       else "At Risk" |}.

(** ** The claims' vocabulary

    The score functions in the words of the specification, and the
    predicates the theorems are stated with. *)

Definition spec_priorityWeight (p : Priority) : Q :=
  match p with
  | HIGH => 100
  | MEDIUM => 50
  | LOW => 10
  end.

(** [(deadline − now) / 3600000] when that quantity is positive, the floor
    of 0.01 hours otherwise, in the arithmetic of numbers. *)
Definition spec_hoursRemaining (t : Task) (now : Z) : Q :=
  let h :=
    Number.div (Number.sub (inject_Z (deadline t)) (inject_Z now)) 3600000 in
  if Qlt_le_dec 0 h then h else Number.binary64 (1 # 100).

(** [priorityWeight + (1 / hoursRemaining) * 50], in the arithmetic of
    numbers. *)
Definition spec_computeScore (t : Task) (now : Z) : Q :=
  match status t with
  | COMPLETED => 0%Q
  | PENDING =>
      Number.add (spec_priorityWeight (priority t))
        (Number.mul (Number.div 1 (spec_hoursRemaining t now)) 50)
  end.

(** The same formula on exact rationals, without rounding. *)
Definition exact_hoursRemaining (t : Task) (now : Z) : Q :=
  let h := (inject_Z (deadline t - now) / 3600000)%Q in
  if Qlt_le_dec 0 h then h else (1 # 100)%Q.

Definition exact_computeScore (t : Task) (now : Z) : Q :=
  match status t with
  | COMPLETED => 0
  | PENDING =>
      spec_priorityWeight (priority t) + (1 / exact_hoursRemaining t now) * 50
  end%Q.

(** The urgency weight the code computes for a task with [ms > 0]
    milliseconds left, and for a task at or past its deadline. *)
Definition urgencyDue (ms : Z) : Q :=
  Number.mul
    (Number.div 1 (Number.div (Number.binary64 (inject_Z ms)) 3600000)) 50.

Definition urgencyOverdue : Q :=
  Number.mul (Number.div 1 (Number.binary64 (1 # 100))) 50.

(** [n / d * 100] as the code computes it, and on exact rationals. *)
Definition percent (n d : Q) : Q := Number.mul (Number.div n d) 100.

Definition exactPercent (n d : Z) : Q := (inject_Z n / inject_Z d * 100)%Q.

(** [x] lies exactly halfway between two integers. *)
Definition halfway (x : Q) : Prop :=
  (inject_Z (Qfloor (x + (1 # 2))) == x + (1 # 2))%Q.

(** The value of a binary64 number of the kernel, when it is finite. *)
Definition Q_of_float (f : float) : option Q :=
  match Prim2SF f with
  | SpecFloat.S754_zero _ => Some 0%Q
  | SpecFloat.S754_finite s m e =>
      Some ((if s then - inject_Z (Zpos m) else inject_Z (Zpos m)) *
            Number.pow2 e)%Q
  | _ => None
  end.

(** The number [q] of the model is the value of the binary64 number [f]. *)
Definition sameNumber (f : float) (q : Q) : bool :=
  match Q_of_float f with
  | Some v => Qeq_bool v q
  | None => false
  end.

(** The three classes of the consistency score. *)
Definition onTimeCompleted (t : Task) : Prop :=
  status t = COMPLETED /\ exists c, completedAt t = Some c /\ c <= deadline t.

Definition lateCompleted (t : Task) : Prop :=
  status t = COMPLETED /\
  (completedAt t = None \/ exists c, completedAt t = Some c /\ deadline t < c).

Definition overduePending (now : Z) (t : Task) : Prop :=
  status t = PENDING /\ deadline t < now.

(** [round(clamp(x, 0, 100))], rounding halves up. *)
Definition spec_clamp (x lo hi : Q) : Q :=
  if Qlt_le_dec x lo then lo else if Qlt_le_dec hi x then hi else x.

Definition spec_round (x : Q) : Z := Qfloor (x + (1 # 2))%Q.

(** [onTime + late + overdue], and [onTime / (onTime + late + overdue) ×
    100] on exact rationals. *)
Definition tracked (tasks : list Task) (now : Z) : nat :=
  (count isOnTime tasks + count isLate tasks + count (isOverdue now) tasks)%nat.

Definition spec_consistency (tasks : list Task) (now : Z) : Q :=
  exactPercent (Z.of_nat (count isOnTime tasks)) (Z.of_nat (tracked tasks now)).

(** [(deadline − now) / (deadline − createdAt) × 100] on exact rationals. *)
Definition remainingShare (t : Task) (now : Z) : Q :=
  exactPercent (deadline t - now) (deadline t - createdAt t).

(** The requests a call made: those logged on [d'] beyond the log of [d]. *)
Definition requestsSince (d d' : Notifee.Device) : list Notifee.Request :=
  drop (length (Notifee.requests d)) (Notifee.requests d').

(** A delivery request under the notification id [i] is among [rs]. *)
Definition submits (rs : list Notifee.Request) (i : string) : Prop :=
  exists n tr,
    In (Notifee.CreateTriggerNotification n tr) rs /\ Notifee.id n = i.

(** Permission was granted: the service answered with settings whose
    authorization status is at least 1 (AUTHORIZED). *)
Definition permissionGranted (d : Notifee.Device) : Prop :=
  exists s,
    Notifee.permission d = Notifee.Resolved (Some s) /\
    1 <= Notifee.authorizationStatus s.

(** The service answered, and did not grant. *)
Definition permissionDenied (d : Notifee.Device) : Prop :=
  exists o,
    Notifee.permission d = Notifee.Resolved o /\
    forall s, o = Some s -> Notifee.authorizationStatus s < 1.

Definition grantedb (d : Notifee.Device) : bool :=
  match Notifee.permission d with
  | Notifee.Resolved o => negb (denied o)
  | Notifee.Rejected _ => false
  end.

Definition reminderRequest (t : Task) : Notifee.Request :=
  Notifee.CreateTriggerNotification (reminderNotification t)
    {| Notifee.type := Notifee.TIMESTAMP;
       Notifee.timestamp := deadline t - 3600000;
       Notifee.alarmManager := None |}.

Definition deadlineRequest (t : Task) : Notifee.Request :=
  Notifee.CreateTriggerNotification (deadlineNotification t)
    {| Notifee.type := Notifee.TIMESTAMP;
       Notifee.timestamp := deadline t;
       Notifee.alarmManager := Some {| Notifee.allowWhileIdle := true |} |}.

(** Two versions of a task that agree on what the score reads. *)
Definition sameScoreInputs (a b : Task) : Prop :=
  priority a = priority b /\ deadline a = deadline b /\ status a = status b.

(** [b] is [a] after an edit of its title, description, tags, subtasks,
    [createdAt] or [completedAt]. *)
Definition editOf (a b : Task) : Prop :=
  id a = id b /\ sameScoreInputs a b.

(** Two entries of ranked views for the same task with the same score. *)
Definition sameRank (x y : ScoredTask) : Prop :=
  id (task x) = id (task y) /\ score x = score y.

(** The ranked list of a collection at the instant [now]. *)
Definition ranked (now : Z) (tasks : list Task) : list ScoredTask :=
  JS.Array_sort byScoreDesc (map (withScore now) tasks).

(** Among the arrays [U] that exist, the identity tells the elements: two
    arrays are the same object or differ in their reference. *)
Definition identityDetermines {A : Type} (U : Array A -> Prop) : Prop :=
  forall a b, U a -> U b -> ref a = ref b -> elements a = elements b.

(** Every list the cache keeps for a collection of [U] is the ranked list
    of that collection at some instant. *)
Definition soundCache {M : Type -> Type} `{Reselect.Memoize M}
    (U : Array Task -> Prop) (c : Reselect.Cache M (Array ScoredTask))
    : Prop :=
  forall a out,
    U a -> Reselect.cached ref a c = Some out ->
    exists now, elements out = ranked now (elements a).

(** The caches of a status selector agree with the runtime: every ranked
    array the first cache keeps was allocated before ([ref] below the next
    identity the runtime hands out), two kept arrays of one identity have
    the same elements, and every array the second cache keeps is filed
    under an identity allocated before and holds the tasks of status [s]
    of any kept ranked array of that identity. *)
Definition viewsAgree {M : Type -> Type} `{Reselect.Memoize M}
    (s : TaskStatus) (rt : Runtime)
    (c : Reselect.Cache M (Array ScoredTask) *
         Reselect.Cache M (Array ScoredTask)) : Prop :=
  (forall k a,
     Reselect.memo_lookup k (Reselect.memo (fst c)) = Some a ->
     (ref a < fresh rt)%positive) /\
  (forall k k' a a',
     Reselect.memo_lookup k (Reselect.memo (fst c)) = Some a ->
     Reselect.memo_lookup k' (Reselect.memo (fst c)) = Some a' ->
     ref a = ref a' -> elements a = elements a') /\
  (forall k out,
     Reselect.memo_lookup k (Reselect.memo (snd c)) = Some out ->
     (k < fresh rt)%positive /\
     forall k' a,
       Reselect.memo_lookup k' (Reselect.memo (fst c)) = Some a ->
       ref a = k ->
       elements out = List.filter (hasStatus s) (elements a)).

(** Descending by score: [a] may stand before [b]. *)
Definition scoreDesc (a b : ScoredTask) : Prop := (score b <= score a)%Q.

(** ** Vocabulary of the further properties *)

(** Every entry carries the score of its task at [now]. *)
Definition scoredAt (now : Z) (l : list ScoredTask) : Prop :=
  Forall (fun a => score a = computeScore (task a) now) l.

(** [t.status === s] on a task. *)
Definition statusIs (s : TaskStatus) (t : Task) : bool :=
  TaskStatus_eqb (status t) s.

(** A task that the consistency score counts at [now]: completed, or
    pending past its deadline. *)
Definition classified (now : Z) (t : Task) : bool :=
  isOnTime t || isLate t || isOverdue now t.

(** The entries the trigger store keeps for the two timers of a task. *)
Definition reminderEntry (t : Task)
    : Notifee.Notification * Notifee.TimestampTrigger :=
  (reminderNotification t,
   {| Notifee.type := Notifee.TIMESTAMP;
      Notifee.timestamp := deadline t - 3600000;
      Notifee.alarmManager := None |}).

Definition deadlineEntry (t : Task)
    : Notifee.Notification * Notifee.TimestampTrigger :=
  (deadlineNotification t,
   {| Notifee.type := Notifee.TIMESTAMP;
      Notifee.timestamp := deadline t;
      Notifee.alarmManager := Some {| Notifee.allowWhileIdle := true |} |}).

(** The trigger store [m] after the service accepted the delivery requests
    of a task [t], submitted at [now] with or without permission. *)
Definition scheduled (granted : bool) (now : Z) (t : Task)
    (m : gmap string (Notifee.Notification * Notifee.TimestampTrigger))
    : gmap string (Notifee.Notification * Notifee.TimestampTrigger) :=
  let m :=
    if granted && (now <? deadline t - 3600000)
    then <[(id t ++ REMINDER_SUFFIX)%string := reminderEntry t]> m else m in
  if granted && (now <? deadline t)
  then <[(id t ++ DEADLINE_SUFFIX)%string := deadlineEntry t]> m else m.

(** The trigger store [m] without the two timers of the task [taskId]. *)
Definition cancelled (taskId : string)
    (m : gmap string (Notifee.Notification * Notifee.TimestampTrigger))
    : gmap string (Notifee.Notification * Notifee.TimestampTrigger) :=
  delete (taskId ++ DEADLINE_SUFFIX)%string
    (delete (taskId ++ REMINDER_SUFFIX)%string m).

(** The service accepts every call. *)
Definition reliable (d : Notifee.Device) : Prop :=
  forall r, Notifee.failing d r = None.

(** [k] is one of the two notification ids of the task [taskId]. *)
Definition timerOf (taskId k : string) : Prop :=
  k = (taskId ++ REMINDER_SUFFIX)%string \/
  k = (taskId ++ DEADLINE_SUFFIX)%string.

(** [{ ...task, status, completedAt }] *)
Definition withStatus (s : TaskStatus) (c : option Z) (t : Task) : Task :=
  {| id := id t; title := title t; description := description t;
     priority := priority t; deadline := deadline t; status := s;
     createdAt := createdAt t; tags := tags t; subtasks := subtasks t;
     completedAt := c |}.

(** The actions whose case reducer assigns to [loading] or [error] only. *)
Definition keepsCollection (a : TasksAction) : bool :=
  match a with
  | clearTasksError | setTasksLoading _
  | fetchTasks_pending | fetchTasks_rejected _
  | addTask_pending | addTask_fulfilled | addTask_rejected _
  | updateTask_rejected _ | deleteTask_rejected _
  | toggleSubtask_rejected _ | toggleTaskStatus_rejected _ => true
  | clearTasks | setTasks _ | fetchTasks_fulfilled _
  | updateTask_fulfilled _ | deleteTask_fulfilled _
  | toggleSubtask_fulfilled _ _ | toggleTaskStatus_fulfilled _ => false
  end.

(** No task of [l] has the id [i]. *)
Definition absent (i : string) (l : list Task) : Prop :=
  Forall (fun t => id t <> i) l.

(** ** Sample data *)

Definition mkTask (i : string) (p : Priority) (d : Z) (s : TaskStatus)
    (c : Z) (fin : option Z) : Task :=
  {| id := i; title := EmptyString; description := EmptyString;
     priority := p; deadline := d; status := s; createdAt := c;
     tags := []; subtasks := []; completedAt := fin |}.

(** Forty completed tasks with deadline 100: 23 completed on time, 17
    late. *)
Definition sampleHistory : list Task :=
  repeat (mkTask "on" LOW 100 COMPLETED 0 (Some 90)) 23 ++
  repeat (mkTask "late" LOW 100 COMPLETED 0 (Some 101)) 17.

(** A store with four tasks: A and B (LOW, due in 75 minutes at time 0,
    score 50), C (MEDIUM, same deadline, score 90) and a COMPLETED task D. *)
Definition sampleTasks : Array Task :=
  {| ref := 1%positive;
     elements := [mkTask "A" LOW 4500000 PENDING 0 None;
                  mkTask "D" HIGH 4500000 COMPLETED 0 (Some 10);
                  mkTask "B" LOW 4500000 PENDING 0 None;
                  mkTask "C" MEDIUM 4500000 PENDING 0 None] |}.

Definition sampleState : RootState.t :=
  {| RootState.auth :=
       {| user := None; auth_loading := false; auth_error := None |};
     RootState.tasks :=
       {| TasksState.tasks := sampleTasks; TasksState.loading := false;
          TasksState.error := None |} |}.

Definition startRuntime : Runtime := {| clock := 0; fresh := 2%positive |}.

(** The first call of [selectSmartSortedTasks] on that store, with a
    single-entry cache, when the clock shows [now]. *)
Definition firstCall (now : Z) :=
  selectSmartSortedTasks (M := Reselect.Lru) sampleState
    (tick now startRuntime) Reselect.empty.

(** A device that shows the time [now], answers permission requests with
    the authorization status [auth], fails no call and holds no trigger. *)
Definition sampleDevice (now auth : Z) : Notifee.Device :=
  {| Notifee.clock := now;
     Notifee.permission :=
       Notifee.Resolved (Some {| Notifee.authorizationStatus := auth |});
     Notifee.failing := fun _ => None;
     Notifee.triggers := ∅;
     Notifee.requests := [] |}.

(** A pending task due at 5000000 ms, and the same task after an edit of
    its title, description, tags, subtasks and creation time. *)
Definition sampleTask : Task := mkTask "t1" HIGH 5000000 PENDING 0 None.

Definition editedTask : Task :=
  {| id := "t1"; title := "Buy milk"; description := "2 litres";
     priority := HIGH; deadline := 5000000; status := PENDING;
     createdAt := 77; tags := ["home"];
     subtasks := [{| subtask_id := "s1"; subtask_title := "go out";
                     isCompleted := true |}];
     completedAt := None |}.

(** A world whose document store accepts every write. *)
Definition sampleWorld (d : Notifee.Device) : World :=
  {| device := d; writes := []; rejecting := fun _ => None; nextId := "n1" |}.

(** * Theorems *)

(** ** Rounding to binary64 *)

Lemma pow2_pos (e : Z) : (0 < Number.pow2 e)%Q.
Proof. apply Qpower_0_lt. reflexivity. Qed.

Lemma pow2_add (a b : Z) :
  (Number.pow2 (a + b) == Number.pow2 a * Number.pow2 b)%Q.
Proof. apply Qpower_plus. discriminate. Qed.

Lemma pow2_succ (e : Z) : (Number.pow2 (e + 1) == 2 * Number.pow2 e)%Q.
Proof. rewrite pow2_add. change (Number.pow2 1) with 2%Q. ring. Qed.

Lemma pow2_mono (a b : Z) : a <= b -> (Number.pow2 a <= Number.pow2 b)%Q.
Proof. intros H. apply Qpower_le_compat_l; [exact H | discriminate]. Qed.

Lemma pow2_Z (e : Z) : 0 <= e -> (Number.pow2 e == inject_Z (2 ^ e))%Q.
Proof. intros H. symmetry. apply (Zpower_Qpower 2 e H). Qed.

Lemma Qfloor_bounds (q : Q) :
  (inject_Z (Qfloor q) <= q)%Q /\ (q < inject_Z (Qfloor q) + 1)%Q.
Proof.
  split; [apply Qfloor_le |].
  pose proof (Qlt_floor q) as H. rewrite inject_Z_plus in H. exact H.
Qed.

Lemma nearestEven_cases (q : Q) :
  Number.nearestEven q = Qfloor q /\ (q - inject_Z (Qfloor q) <= 1 # 2)%Q \/
  Number.nearestEven q = Qfloor q + 1 /\ (1 # 2 <= q - inject_Z (Qfloor q))%Q.
Proof.
  unfold Number.nearestEven. cbv zeta.
  destruct (Qcompare_spec (q - inject_Z (Qfloor q)) (1 # 2)) as [E | L | G].
  - destruct (Z.even (Qfloor q)); [left | right]; split; try reflexivity;
      rewrite E; apply Qle_refl.
  - left. split; [reflexivity | apply Qlt_le_weak; exact L].
  - right. split; [reflexivity | apply Qlt_le_weak; exact G].
Qed.

Lemma nearestEven_near (q : Q) :
  (q - (1 # 2) <= inject_Z (Number.nearestEven q))%Q /\
  (inject_Z (Number.nearestEven q) <= q + (1 # 2))%Q.
Proof.
  destruct (Qfloor_bounds q) as [Hlo Hhi].
  destruct (nearestEven_cases q) as [[-> H] | [-> H]].
  - split; lra.
  - rewrite inject_Z_plus. change (inject_Z 1) with 1%Q. split; lra.
Qed.

Lemma nearestEven_mono (q q' : Q) :
  (q <= q')%Q -> Number.nearestEven q <= Number.nearestEven q'.
Proof.
  intros Hle.
  pose proof (Qfloor_resp_le _ _ Hle) as Hf.
  destruct (Qfloor_bounds q) as [Hlo Hhi], (Qfloor_bounds q') as [Hlo' Hhi'].
  destruct (Z.eq_dec (Qfloor q) (Qfloor q')) as [E | N].
  - unfold Number.nearestEven. cbv zeta. rewrite <- E.
    destruct (Qcompare_spec (q - inject_Z (Qfloor q)) (1 # 2)) as [H | H | H],
             (Qcompare_spec (q' - inject_Z (Qfloor q)) (1 # 2)) as [H' | H' | H'];
      try lia; try lra; destruct (Z.even (Qfloor q)); lia.
  - assert (Hlt : Qfloor q + 1 <= Qfloor q') by lia.
    destruct (nearestEven_cases q) as [[-> _] | [-> _]],
             (nearestEven_cases q') as [[-> _] | [-> _]]; lia.
Qed.

Lemma nearestEven_Z (z : Z) : Number.nearestEven (inject_Z z) = z.
Proof.
  unfold Number.nearestEven. cbv zeta. rewrite Qfloor_Z.
  destruct (Qcompare_spec (inject_Z z - inject_Z z) (1 # 2)) as [H | H | H];
    try reflexivity; lra.
Qed.

Lemma nearestEven_comp (q q' : Q) :
  (q == q')%Q -> Number.nearestEven q = Number.nearestEven q'.
Proof.
  intros E.
  assert (H1 : (q <= q')%Q) by (rewrite E; apply Qle_refl).
  assert (H2 : (q' <= q)%Q) by (rewrite E; apply Qle_refl).
  pose proof (nearestEven_mono _ _ H1). pose proof (nearestEven_mono _ _ H2).
  lia.
Qed.

Lemma log2_bounds (n : Z) :
  0 < n ->
  (Number.pow2 (Z.log2 n) <= inject_Z n)%Q /\
  (inject_Z n < Number.pow2 (Z.log2 n + 1))%Q.
Proof.
  intros Hn. destruct (Z.log2_spec n Hn) as [Hlo Hhi].
  pose proof (Z.log2_nonneg n).
  rewrite !pow2_Z by lia. rewrite <- Zle_Qle, <- Zlt_Qlt.
  split; [exact Hlo | exact Hhi].
Qed.

Lemma Qmake_pos (n : Z) (d : positive) : (0 < n # d)%Q -> 0 < n.
Proof. unfold Qlt. cbn. lia. Qed.

Lemma exponent_coarse (x : Q) :
  (0 < x)%Q ->
  (Number.pow2 (Z.log2 (Qnum x) - Z.log2 (Zpos (Qden x)) - 1) < x)%Q /\
  (x < Number.pow2 (Z.log2 (Qnum x) - Z.log2 (Zpos (Qden x)) + 1))%Q.
Proof.
  intros Hx. destruct x as [n d]. cbn [Qnum Qden].
  pose proof (Qmake_pos n d Hx) as Hn.
  destruct (log2_bounds n Hn) as [Hnlo Hnhi].
  destruct (log2_bounds (Zpos d) ltac:(lia)) as [Hdlo Hdhi].
  set (a := Z.log2 n) in *. set (b := Z.log2 (Zpos d)) in *.
  assert (HD : (0 < inject_Z (Zpos d))%Q) by reflexivity.
  assert (Ex : ((n # d) * inject_Z (Zpos d) == inject_Z n)%Q).
  { rewrite (Qmake_Qdiv n d). field. lra. }
  assert (E1 : (Number.pow2 (a - b - 1) * Number.pow2 (b + 1) ==
                Number.pow2 a)%Q).
  { rewrite <- pow2_add. replace (a - b - 1 + (b + 1)) with a by lia.
    reflexivity. }
  assert (E2 : (Number.pow2 (a - b + 1) * Number.pow2 b ==
                Number.pow2 (a + 1))%Q).
  { rewrite <- pow2_add. replace (a - b + 1 + b) with (a + 1) by lia.
    reflexivity. }
  pose proof (pow2_pos (a - b - 1)). pose proof (pow2_pos (a - b + 1)).
  pose proof (pow2_pos b). pose proof (pow2_pos (b + 1)).
  split.
  - apply Qnot_le_lt. intros Hc.
    assert ((n # d) * inject_Z (Zpos d) <=
            Number.pow2 (a - b - 1) * inject_Z (Zpos d))%Q
      by (apply Qmult_le_compat_r; lra).
    assert (Number.pow2 (a - b - 1) * inject_Z (Zpos d) <
            Number.pow2 (a - b - 1) * Number.pow2 (b + 1))%Q
      by (apply Qmult_lt_l; lra).
    lra.
  - apply Qnot_le_lt. intros Hc.
    assert (Number.pow2 (a - b + 1) * inject_Z (Zpos d) <=
            (n # d) * inject_Z (Zpos d))%Q
      by (apply Qmult_le_compat_r; lra).
    assert (Number.pow2 (a - b + 1) * Number.pow2 b <=
            Number.pow2 (a - b + 1) * inject_Z (Zpos d))%Q
      by (apply Qmult_le_l; lra).
    lra.
Qed.

(** The binade of a positive number. *)
Lemma exponent_spec (x : Q) :
  (0 < x)%Q ->
  (Number.pow2 (Number.exponent x + 52) <= x)%Q /\
  (x < Number.pow2 (Number.exponent x + 53))%Q.
Proof.
  intros Hx. destruct (exponent_coarse x Hx) as [Hlo Hhi].
  unfold Number.exponent. cbv zeta.
  set (e := Z.log2 (Qnum x) - Z.log2 (Zpos (Qden x)) - 53) in *.
  replace (Z.log2 (Qnum x) - Z.log2 (Zpos (Qden x)) - 1) with (e + 52)
    in Hlo by lia.
  replace (Z.log2 (Qnum x) - Z.log2 (Zpos (Qden x)) + 1) with (e + 1 + 53)
    in Hhi by lia.
  destruct (Qlt_le_dec x (Number.pow2 (e + 53))) as [H | H].
  - split; [apply Qlt_le_weak; exact Hlo | exact H].
  - replace (e + 1 + 52) with (e + 53) by lia. split; [exact H | exact Hhi].
Qed.

(** The significand of a positive number lies between [2^52] and [2^53]. *)
Lemma significand_range (x : Q) :
  (0 < x)%Q ->
  (Number.pow2 52 <= x / Number.pow2 (Number.exponent x))%Q /\
  (x / Number.pow2 (Number.exponent x) < Number.pow2 53)%Q.
Proof.
  intros Hx. destruct (exponent_spec x Hx) as [Hlo Hhi].
  pose proof (pow2_pos (Number.exponent x)) as Hp.
  rewrite (Z.add_comm _ 52), pow2_add in Hlo.
  rewrite (Z.add_comm _ 53), pow2_add in Hhi.
  split.
  - apply Qle_shift_div_l; [exact Hp | exact Hlo].
  - apply Qlt_shift_div_r; [exact Hp | exact Hhi].
Qed.

Lemma nearest_range (x : Q) :
  (0 < x)%Q ->
  (Number.pow2 (Number.exponent x + 52) <= Number.nearest x)%Q /\
  (Number.nearest x <= Number.pow2 (Number.exponent x + 53))%Q.
Proof.
  intros Hx. destruct (significand_range x Hx) as [Hlo Hhi].
  pose proof (pow2_pos (Number.exponent x)) as Hp.
  unfold Number.nearest. cbv zeta.
  set (q := (x / Number.pow2 (Number.exponent x))%Q) in *.
  assert (H52 : 2 ^ 52 <= Number.nearestEven q).
  { rewrite <- (nearestEven_Z (2 ^ 52)). apply nearestEven_mono.
    rewrite <- pow2_Z by lia. exact Hlo. }
  assert (H53 : Number.nearestEven q <= 2 ^ 53).
  { rewrite <- (nearestEven_Z (2 ^ 53)). apply nearestEven_mono.
    rewrite <- pow2_Z by lia. apply Qlt_le_weak. exact Hhi. }
  rewrite (Z.add_comm _ 52), (Z.add_comm _ 53), !pow2_add.
  rewrite (pow2_Z 52), (pow2_Z 53) by lia.
  split; apply Qmult_le_compat_r; try lra; rewrite <- Zle_Qle; assumption.
Qed.

Lemma nearest_mono (x y : Q) :
  (0 < x)%Q -> (x <= y)%Q -> (Number.nearest x <= Number.nearest y)%Q.
Proof.
  intros Hx Hxy. assert (Hy : (0 < y)%Q) by lra.
  destruct (exponent_spec x Hx) as [Hxlo Hxhi].
  destruct (exponent_spec y Hy) as [Hylo Hyhi].
  destruct (nearest_range x Hx) as [_ Hnx], (nearest_range y Hy) as [Hny _].
  destruct (Z.compare_spec (Number.exponent x) (Number.exponent y))
    as [E | L | G].
  - unfold Number.nearest. cbv zeta. rewrite <- E.
    pose proof (pow2_pos (Number.exponent x)) as Hp.
    apply Qmult_le_compat_r; [| lra].
    rewrite <- Zle_Qle. apply nearestEven_mono.
    apply Qmult_le_compat_r; [exact Hxy |].
    apply Qlt_le_weak, Qinv_lt_0_compat. exact Hp.
  - pose proof (pow2_mono (Number.exponent x + 53) (Number.exponent y + 52)
                  ltac:(lia)).
    lra.
  - pose proof (pow2_mono (Number.exponent y + 53) (Number.exponent x + 52)
                  ltac:(lia)).
    lra.
Qed.

Lemma nearest_pos (x : Q) : (0 < x)%Q -> (0 < Number.nearest x)%Q.
Proof.
  intros Hx. destruct (nearest_range x Hx) as [H _].
  pose proof (pow2_pos (Number.exponent x + 52)). lra.
Qed.

Lemma binary64_pos (x : Q) :
  (0 < x)%Q -> Number.binary64 x = Number.nearest x.
Proof.
  intros Hx. unfold Number.binary64.
  rewrite (proj1 (Qgt_alt x 0) Hx). reflexivity.
Qed.

Lemma binary64_neg (x : Q) :
  (x < 0)%Q -> Number.binary64 x = (- Number.nearest (- x))%Q.
Proof.
  intros Hx. unfold Number.binary64.
  rewrite (proj1 (Qlt_alt x 0) Hx). reflexivity.
Qed.

Lemma binary64_zero (x : Q) : (x == 0)%Q -> Number.binary64 x = 0%Q.
Proof.
  intros Hx. unfold Number.binary64.
  rewrite (proj1 (Qeq_alt x 0) Hx). reflexivity.
Qed.

Lemma binary64_sign (x : Q) :
  ((0 < x)%Q -> (0 < Number.binary64 x)%Q) /\
  ((x < 0)%Q -> (Number.binary64 x < 0)%Q) /\
  ((x == 0)%Q -> (Number.binary64 x == 0)%Q).
Proof.
  split; [| split]; intros Hx.
  - rewrite binary64_pos by exact Hx. apply nearest_pos. exact Hx.
  - rewrite binary64_neg by exact Hx.
    pose proof (nearest_pos (- x) ltac:(lra)). lra.
  - rewrite binary64_zero by exact Hx. reflexivity.
Qed.

Lemma binary64_mono (x y : Q) :
  (x <= y)%Q -> (Number.binary64 x <= Number.binary64 y)%Q.
Proof.
  intros Hxy.
  destruct (Qcompare_spec x 0) as [Ex | Lx | Gx];
    destruct (Qcompare_spec y 0) as [Ey | Ly | Gy]; try lra.
  - rewrite (binary64_zero x Ex), (binary64_zero y Ey). apply Qle_refl.
  - rewrite (binary64_zero x Ex), (binary64_pos y Gy).
    apply Qlt_le_weak, nearest_pos. exact Gy.
  - rewrite (binary64_neg x Lx), (binary64_zero y Ey).
    pose proof (nearest_pos (- x) ltac:(lra)). lra.
  - rewrite (binary64_neg x Lx), (binary64_neg y Ly).
    pose proof (nearest_mono (- y) (- x) ltac:(lra) ltac:(lra)). lra.
  - rewrite (binary64_neg x Lx), (binary64_pos y Gy).
    pose proof (nearest_pos (- x) ltac:(lra)).
    pose proof (nearest_pos y Gy). lra.
  - rewrite (binary64_pos x Gx), (binary64_pos y Gy).
    apply nearest_mono; assumption.
Qed.

Lemma binary64_comp (x y : Q) :
  (x == y)%Q -> (Number.binary64 x == Number.binary64 y)%Q.
Proof.
  intros E. apply Qle_antisym; apply binary64_mono; rewrite E; apply Qle_refl.
Qed.

#[global] Instance binary64_proper : Proper (Qeq ==> Qeq) Number.binary64.
Proof. intros x y E. apply binary64_comp. exact E. Qed.

Lemma nearest_near (x : Q) :
  (0 < x)%Q ->
  (x - Number.pow2 (Number.exponent x) * (1 # 2) <= Number.nearest x)%Q /\
  (Number.nearest x <= x + Number.pow2 (Number.exponent x) * (1 # 2))%Q.
Proof.
  intros Hx. pose proof (pow2_pos (Number.exponent x)) as Hp.
  unfold Number.nearest. cbv zeta.
  set (p := Number.pow2 (Number.exponent x)) in *.
  destruct (nearestEven_near (x / p)) as [Hlo Hhi].
  assert (E : (x / p * p == x)%Q) by (field; lra).
  assert (H1 : ((x / p - (1 # 2)) * p <=
                inject_Z (Number.nearestEven (x / p)) * p)%Q)
    by (apply Qmult_le_compat_r; lra).
  assert (H2 : (inject_Z (Number.nearestEven (x / p)) * p <=
                (x / p + (1 # 2)) * p)%Q)
    by (apply Qmult_le_compat_r; lra).
  split; lra.
Qed.

(** The relative error of rounding is at most [2^-53]. *)
Lemma binary64_error (x : Q) :
  (0 <= x)%Q ->
  (x * (1 - Number.pow2 (-53)) <= Number.binary64 x)%Q /\
  (Number.binary64 x <= x * (1 + Number.pow2 (-53)))%Q.
Proof.
  intros Hx. destruct (Qle_lt_or_eq _ _ Hx) as [Hpos | Hzero].
  - rewrite binary64_pos by exact Hpos.
    destruct (nearest_near x Hpos) as [Hlo Hhi].
    destruct (exponent_spec x Hpos) as [Hb _].
    assert (E : (Number.pow2 (Number.exponent x) ==
                 Number.pow2 (Number.exponent x + 52) * 2 * Number.pow2 (-53))%Q).
    { pose proof (pow2_add (Number.exponent x + 52) (-52)) as E1.
      replace (Number.exponent x + 52 + -52) with (Number.exponent x)
        in E1 by lia.
      pose proof (pow2_succ (-53)) as E2. change (-53 + 1) with (-52) in E2.
      rewrite E1, E2. ring. }
    pose proof (pow2_pos (-53)) as Hu.
    assert (Hle : (Number.pow2 (Number.exponent x + 52) * Number.pow2 (-53) <=
                   x * Number.pow2 (-53))%Q)
      by (apply Qmult_le_compat_r; lra).
    rewrite E in Hlo, Hhi. split; lra.
  - rewrite binary64_zero by (symmetry; exact Hzero). rewrite <- Hzero.
    split; lra.
Qed.

#[global] Instance add_proper : Proper (Qeq ==> Qeq ==> Qeq) Number.add.
Proof. intros a a' Ea b b' Eb. unfold Number.add. rewrite Ea, Eb. reflexivity. Qed.

#[global] Instance sub_proper : Proper (Qeq ==> Qeq ==> Qeq) Number.sub.
Proof. intros a a' Ea b b' Eb. unfold Number.sub. rewrite Ea, Eb. reflexivity. Qed.

#[global] Instance mul_proper : Proper (Qeq ==> Qeq ==> Qeq) Number.mul.
Proof. intros a a' Ea b b' Eb. unfold Number.mul. rewrite Ea, Eb. reflexivity. Qed.

#[global] Instance div_proper : Proper (Qeq ==> Qeq ==> Qeq) Number.div.
Proof. intros a a' Ea b b' Eb. unfold Number.div. rewrite Ea, Eb. reflexivity. Qed.

(** An integer of magnitude up to [2^53] is a number. *)
Lemma binary64_nat (z : Z) :
  0 < z <= 2 ^ 53 -> (Number.binary64 (inject_Z z) == inject_Z z)%Q.
Proof.
  intros [Hpos Hle].
  assert (Hx : (0 < inject_Z z)%Q)
    by (change 0%Q with (inject_Z 0); rewrite <- Zlt_Qlt; exact Hpos).
  rewrite binary64_pos by exact Hx.
  destruct (Z.eq_dec z (2 ^ 53)) as [-> | Hne]; [vm_compute; reflexivity |].
  destruct (exponent_spec _ Hx) as [Hlo _].
  set (e := Number.exponent (inject_Z z)) in *.
  assert (He : e <= 0).
  { assert (Hlt : (Number.pow2 (e + 52) < Number.pow2 53)%Q).
    { eapply Qle_lt_trans; [exact Hlo |].
      rewrite (pow2_Z 53) by lia. rewrite <- Zlt_Qlt. lia. }
    apply Qpower_lt_compat_l_inv in Hlt; [lia | reflexivity]. }
  unfold Number.nearest. cbv zeta. fold e.
  pose proof (pow2_pos e) as Hp.
  assert (Einv : (Number.pow2 e * Number.pow2 (- e) == 1)%Q).
  { rewrite <- pow2_add. replace (e + - e) with 0 by lia. reflexivity. }
  assert (Eq : (inject_Z z / Number.pow2 e == inject_Z (z * 2 ^ (- e)))%Q).
  { rewrite inject_Z_mult, <- (pow2_Z (- e)) by lia.
    apply Qmult_inj_r with (z := Number.pow2 e); [lra |].
    transitivity (inject_Z z); [field; lra |].
    rewrite <- Qmult_assoc, (Qmult_comm (Number.pow2 (- e))), Einv. ring. }
  rewrite (nearestEven_comp _ _ Eq), nearestEven_Z.
  rewrite inject_Z_mult, <- (pow2_Z (- e)) by lia.
  rewrite <- Qmult_assoc, (Qmult_comm (Number.pow2 (- e))), Einv. ring.
Qed.

Lemma binary64_Z (z : Z) :
  - 2 ^ 53 <= z <= 2 ^ 53 -> (Number.binary64 (inject_Z z) == inject_Z z)%Q.
Proof.
  intros Hz. destruct (Z.compare_spec z 0) as [-> | Hneg | Hpos].
  - reflexivity.
  - assert (Hx : (inject_Z z < 0)%Q)
      by (change 0%Q with (inject_Z 0); rewrite <- Zlt_Qlt; exact Hneg).
    rewrite binary64_neg by exact Hx.
    assert (E : (- inject_Z z == inject_Z (- z))%Q)
      by (rewrite inject_Z_opp; reflexivity).
    pose proof (binary64_nat (- z) ltac:(lia)) as H.
    rewrite binary64_pos in H
      by (change 0%Q with (inject_Z 0); rewrite <- Zlt_Qlt; lia).
    assert (En : (Number.nearest (- inject_Z z) ==
                  Number.nearest (inject_Z (- z)))%Q).
    { pose proof (binary64_comp _ _ E) as Hc.
      rewrite !binary64_pos in Hc
        by (try rewrite <- E; lra). exact Hc. }
    rewrite En, H, inject_Z_opp. ring.
  - apply binary64_nat. lia.
Qed.

(** The operations are monotone. *)
Lemma add_mono (a b a' b' : Q) :
  (a <= a')%Q -> (b <= b')%Q -> (Number.add a b <= Number.add a' b')%Q.
Proof. intros Ha Hb. apply binary64_mono. lra. Qed.

Lemma mul_mono_l (a a' c : Q) :
  (0 <= c)%Q -> (a <= a')%Q -> (Number.mul a c <= Number.mul a' c)%Q.
Proof.
  intros Hc Ha. apply binary64_mono. apply Qmult_le_compat_r; assumption.
Qed.

Lemma div_mono_l (a a' c : Q) :
  (0 < c)%Q -> (a <= a')%Q -> (Number.div a c <= Number.div a' c)%Q.
Proof.
  intros Hc Ha. apply binary64_mono. unfold Qdiv.
  apply Qmult_le_compat_r; [exact Ha |].
  apply Qlt_le_weak, Qinv_lt_0_compat. exact Hc.
Qed.

Lemma Qinv_antitone (x y : Q) : (0 < x)%Q -> (x <= y)%Q -> (/ y <= / x)%Q.
Proof.
  intros Hx Hxy. destruct (Qle_lt_or_eq _ _ Hxy) as [Hlt | Heq].
  - apply Qlt_le_weak. apply -> Qinv_lt_contravar; lra.
  - rewrite Heq. apply Qle_refl.
Qed.

Lemma div_antitone_r (c x y : Q) :
  (0 <= c)%Q -> (0 < x)%Q -> (x <= y)%Q ->
  (Number.div c y <= Number.div c x)%Q.
Proof.
  intros Hc Hx Hxy. apply binary64_mono. unfold Qdiv.
  rewrite !(Qmult_comm c). apply Qmult_le_compat_r; [| exact Hc].
  apply Qinv_antitone; assumption.
Qed.

Lemma div_pos (a b : Q) : (0 < a)%Q -> (0 < b)%Q -> (0 < Number.div a b)%Q.
Proof.
  intros Ha Hb. apply binary64_sign. apply Qlt_shift_div_l; lra.
Qed.

(** The model against the binary64 arithmetic of the kernel, on the
    computations of the examples of this file.  The literal [0.01] stands
    for the binary64 number nearest to 1/100. *)
#[local] Set Warnings "-inexact-float".

Lemma Number_agrees_with_binary64 :
  sameNumber 0.01%float (Number.binary64 (1 # 100)) = true /\
  sameNumber (23 / 40)%float (Number.div 23 40) = true /\
  sameNumber (23 / 40 * 100)%float (percent 23 40) = true /\
  sameNumber (82800000 / 144000000 * 100)%float (percent 82800000 144000000)
  = true /\
  sameNumber (3 / 4 * 100)%float (percent 3 4) = true /\
  sameNumber (1 / 0.01 * 50)%float urgencyOverdue = true /\
  sameNumber (1 / (10800000 / 3600000) * 50)%float (urgencyDue 10800000)
  = true /\
  sameNumber (100 + 1 / (10800000 / 3600000) * 50)%float
    (Number.add 100 (urgencyDue 10800000)) = true /\
  sameNumber (10 + 1 / (1 / 3600000) * 50)%float
    (Number.add 10 (urgencyDue 1)) = true /\
  sameNumber (100 + 1 / (118767479591 / 3600000) * 50)%float
    (Number.add 100 (urgencyDue 118767479591)) = true /\
  sameNumber (100 + 1 / (118767479592 / 3600000) * 50)%float
    (Number.add 100 (urgencyDue 118767479592)) = true /\
  sameNumber (50 + 1 / (4500000 / 3600000) * 50)%float
    (Number.add 50 (urgencyDue 4500000)) = true /\
  sameNumber (9007199254740992 + 3)%float
    (Number.add 9007199254740992 3) = true /\
  sameNumber (9007199254740992 - 9007199254740989)%float
    (Number.sub 9007199254740992 9007199254740989) = true.
Proof. vm_compute. repeat split. Qed.

(** ** Facts about the score *)

Lemma msRemaining_value (d now : Z) :
  (Number.sub (inject_Z d) (inject_Z now) ==
   Number.binary64 (inject_Z (d - now)))%Q.
Proof.
  unfold Number.sub. apply binary64_comp.
  unfold Z.sub. rewrite inject_Z_plus, inject_Z_opp. reflexivity.
Qed.

Lemma msRemaining_pos (d now : Z) :
  (0 < Number.sub (inject_Z d) (inject_Z now))%Q <-> 0 < d - now.
Proof.
  rewrite msRemaining_value. split.
  - intros H. destruct (Z_lt_le_dec 0 (d - now)) as [Hz | Hz]; [exact Hz |].
    assert (Hq : (inject_Z (d - now) <= 0)%Q)
      by (change 0%Q with (inject_Z 0); rewrite <- Zle_Qle; exact Hz).
    pose proof (binary64_mono _ _ Hq) as Hm.
    rewrite (binary64_zero 0) in Hm by reflexivity. lra.
  - intros Hz. apply binary64_sign.
    change 0%Q with (inject_Z 0). rewrite <- Zlt_Qlt. exact Hz.
Qed.

Lemma hours_pos (ms : Q) : (0 < Number.div ms 3600000)%Q <-> (0 < ms)%Q.
Proof.
  split.
  - intros H. apply Qnot_le_lt. intros Hle.
    assert (Hq : (ms / 3600000 <= 0)%Q) by (apply Qle_shift_div_r; lra).
    pose proof (binary64_mono _ _ Hq) as Hm.
    rewrite (binary64_zero 0) in Hm by reflexivity.
    unfold Number.div in H. lra.
  - intros H. apply div_pos; [exact H | reflexivity].
Qed.

Lemma computeScore_completed (t : Task) (now : Z) :
  status t = COMPLETED -> computeScore t now = 0%Q.
Proof. intros Hs. unfold computeScore. rewrite Hs. reflexivity. Qed.

Lemma computeScore_refines (t : Task) (now : Z) :
  computeScore t now = spec_computeScore t now.
Proof.
  unfold spec_computeScore, computeScore.
  destruct (status t); [| reflexivity]. cbn [TaskStatus_eqb]. cbv zeta.
  unfold spec_hoursRemaining. cbv zeta.
  change (inject_Z MS_PER_HOUR) with 3600000%Q.
  change URGENCY_MULTIPLIER with 50%Q.
  set (ms := Number.sub (inject_Z (deadline t)) (inject_Z now)).
  pose proof (hours_pos ms) as Hh.
  destruct (Qlt_le_dec 0 ms) as [Hm | Hm],
           (Qlt_le_dec 0 (Number.div ms 3600000)) as [Hd | Hd];
    try (destruct (priority t); reflexivity).
  - apply Hh in Hm. lra.
  - apply Hh in Hd. lra.
Qed.

Lemma computeScore_pending (t : Task) (now : Z) :
  status t = PENDING ->
  computeScore t now =
  Number.add (spec_priorityWeight (priority t))
    (Number.mul (Number.div 1 (spec_hoursRemaining t now)) 50).
Proof.
  intros Hs. rewrite computeScore_refines. unfold spec_computeScore.
  rewrite Hs. reflexivity.
Qed.

Lemma spec_hoursRemaining_due (t : Task) (now : Z) :
  0 < deadline t - now ->
  (spec_hoursRemaining t now ==
   Number.div (Number.binary64 (inject_Z (deadline t - now))) 3600000)%Q.
Proof.
  intros H. unfold spec_hoursRemaining. cbv zeta.
  destruct (Qlt_le_dec 0 _) as [Hp | Hn].
  - rewrite msRemaining_value. reflexivity.
  - apply (proj2 (msRemaining_pos _ _)), (proj2 (hours_pos _)) in H. lra.
Qed.

Lemma spec_hoursRemaining_overdue (t : Task) (now : Z) :
  deadline t - now <= 0 ->
  spec_hoursRemaining t now = Number.binary64 (1 # 100).
Proof.
  intros H. unfold spec_hoursRemaining. cbv zeta.
  destruct (Qlt_le_dec 0 _) as [Hp | Hn]; [| reflexivity].
  apply hours_pos, msRemaining_pos in Hp. lia.
Qed.

Lemma urgencyOverdue_value : (urgencyOverdue == 5000)%Q.
Proof. vm_compute. reflexivity. Qed.

Lemma computeScore_overdue (t : Task) (now : Z) :
  status t = PENDING -> deadline t - now <= 0 ->
  (computeScore t now == spec_priorityWeight (priority t) + 5000)%Q.
Proof.
  intros Hs Hd. rewrite computeScore_pending by assumption.
  rewrite spec_hoursRemaining_overdue by assumption.
  destruct (priority t); vm_compute; reflexivity.
Qed.

Lemma computeScore_due (t : Task) (now : Z) :
  status t = PENDING -> 0 < deadline t - now ->
  (computeScore t now ==
   Number.add (spec_priorityWeight (priority t))
     (urgencyDue (deadline t - now)))%Q.
Proof.
  intros Hs Hd. rewrite computeScore_pending by assumption.
  rewrite spec_hoursRemaining_due by assumption. reflexivity.
Qed.

Lemma hoursDue_pos (ms : Z) :
  0 < ms ->
  (0 < Number.div (Number.binary64 (inject_Z ms)) 3600000)%Q.
Proof.
  intros H. apply hours_pos, binary64_sign.
  change 0%Q with (inject_Z 0). rewrite <- Zlt_Qlt. exact H.
Qed.

(** The urgency weight does not grow with the time left. *)
Lemma urgencyDue_antitone (a b : Z) :
  0 < a -> a <= b -> (urgencyDue b <= urgencyDue a)%Q.
Proof.
  intros Ha Hab. unfold urgencyDue.
  apply mul_mono_l; [discriminate |].
  apply div_antitone_r; [discriminate | apply hoursDue_pos; exact Ha |].
  apply div_mono_l; [reflexivity |].
  apply binary64_mono. rewrite <- Zle_Qle. exact Hab.
Qed.

Lemma urgencyDue_pos (ms : Z) : 0 < ms -> (0 < urgencyDue ms)%Q.
Proof.
  intros H. unfold urgencyDue. apply binary64_sign.
  apply Qmult_lt_0_compat; [| reflexivity].
  apply div_pos; [reflexivity | apply hoursDue_pos; exact H].
Qed.

Lemma score_mono (w u u' : Q) :
  (u <= u')%Q -> (Number.add w u <= Number.add w u')%Q.
Proof. intros H. apply add_mono; [apply Qle_refl | exact H]. Qed.

(** For a deadline up to [2^53] ms ahead every number on the way to the
    score lies well inside the normal range of binary64: the hours
    remaining in [2^-22, 2^32], their reciprocal in [2^-32, 2^22], the
    urgency weight in [2^-26, 2^28]. *)
Lemma urgency_normal_range (ms : Z) :
  0 < ms <= 2 ^ 53 ->
  (Number.pow2 (-22) <=
   Number.div (Number.binary64 (inject_Z ms)) 3600000)%Q /\
  (Number.div (Number.binary64 (inject_Z ms)) 3600000 <= Number.pow2 32)%Q /\
  (Number.pow2 (-32) <=
   Number.div 1 (Number.div (Number.binary64 (inject_Z ms)) 3600000))%Q /\
  (Number.div 1 (Number.div (Number.binary64 (inject_Z ms)) 3600000) <=
   Number.pow2 22)%Q /\
  (Number.pow2 (-26) <= urgencyDue ms)%Q /\
  (urgencyDue ms <= Number.pow2 28)%Q.
Proof.
  intros [Hpos Hmax].
  assert (Hlo : (Number.div (Number.binary64 (inject_Z 1)) 3600000 <=
                 Number.div (Number.binary64 (inject_Z ms)) 3600000)%Q).
  { apply div_mono_l; [reflexivity |].
    apply binary64_mono. rewrite <- Zle_Qle. lia. }
  assert (Hup : (Number.div (Number.binary64 (inject_Z ms)) 3600000 <=
                 Number.div (Number.binary64 (inject_Z (2 ^ 53))) 3600000)%Q).
  { apply div_mono_l; [reflexivity |].
    apply binary64_mono. rewrite <- Zle_Qle. exact Hmax. }
  assert (Hilo : (Number.div 1
                    (Number.div (Number.binary64 (inject_Z (2 ^ 53))) 3600000)
                  <= Number.div 1
                       (Number.div (Number.binary64 (inject_Z ms)) 3600000))%Q).
  { apply div_antitone_r;
      [discriminate | apply hoursDue_pos; exact Hpos | exact Hup]. }
  assert (Hiup : (Number.div 1
                    (Number.div (Number.binary64 (inject_Z ms)) 3600000)
                  <= Number.div 1
                       (Number.div (Number.binary64 (inject_Z 1)) 3600000))%Q).
  { apply div_antitone_r;
      [discriminate | apply hoursDue_pos; lia | exact Hlo]. }
  pose proof (urgencyDue_antitone ms (2 ^ 53) Hpos Hmax) as Hulo.
  pose proof (urgencyDue_antitone 1 ms ltac:(lia) ltac:(lia)) as Huup.
  split; [| split; [| split; [| split; [| split]]]].
  - eapply Qle_trans; [| exact Hlo]. vm_compute. discriminate.
  - eapply Qle_trans; [exact Hup |]. vm_compute. discriminate.
  - eapply Qle_trans; [| exact Hilo]. vm_compute. discriminate.
  - eapply Qle_trans; [exact Hiup |]. vm_compute. discriminate.
  - eapply Qle_trans; [| exact Hulo]. vm_compute. discriminate.
  - eapply Qle_trans; [exact Huup |]. vm_compute. discriminate.
Qed.

(** The score of a task due within [2^36] ms (about 2.2 years) falls
    strictly with every further millisecond: there the steps of the exact
    formula exceed the rounding errors. *)
Lemma urgency_lower (a : Z) :
  0 < a <= 2 ^ 53 ->
  (180000000 * (1 - Number.pow2 (-53)) * (1 - Number.pow2 (-53)) /
   (1 + Number.pow2 (-53)) <= urgencyDue a * inject_Z a)%Q.
Proof.
  intros [Ha Hmax].
  set (e := Number.pow2 (-53)).
  assert (He : (0 < e)%Q) by apply pow2_pos.
  assert (He1 : (e < 1)%Q) by (vm_compute; reflexivity).
  assert (HA : (0 < inject_Z a)%Q)
    by (change 0%Q with (inject_Z 0); rewrite <- Zlt_Qlt; exact Ha).
  unfold urgencyDue. rewrite (binary64_Z a) by lia.
  set (A := inject_Z a) in *.
  set (h := Number.div A 3600000).
  set (i := Number.div 1 h).
  assert (Hh0 : (0 < h)%Q) by (apply hours_pos; exact HA).
  assert (Hh : (h <= A / 3600000 * (1 + e))%Q).
  { apply binary64_error. apply Qle_shift_div_l; lra. }
  assert (Hi0 : (0 <= 1 / h)%Q) by (apply Qle_shift_div_l; lra).
  assert (Hi : (1 / h * (1 - e) <= i)%Q) by (apply binary64_error; exact Hi0).
  assert (Hi1 : (0 <= i)%Q).
  { eapply Qle_trans; [| exact Hi]. apply Qmult_le_0_compat; lra. }
  assert (Hu : (i * 50 * (1 - e) <= Number.mul i 50)%Q)
    by (apply binary64_error; lra).
  set (H := (A / 3600000 * (1 + e))%Q) in *.
  assert (HH : (0 < H)%Q).
  { unfold H. apply Qmult_lt_0_compat; [| lra].
    apply Qlt_shift_div_l; lra. }
  assert (Hinv : (/ H <= / h)%Q) by (apply Qinv_antitone; assumption).
  assert (E1 : (1 / h == / h)%Q) by (field; lra).
  assert (Hchain : (/ H * (1 - e) * 50 * (1 - e) <= Number.mul i 50)%Q).
  { eapply Qle_trans; [| exact Hu].
    apply Qmult_le_compat_r; [| lra]. apply Qmult_le_compat_r; [| lra].
    eapply Qle_trans; [| exact Hi]. rewrite E1.
    apply Qmult_le_compat_r; [exact Hinv | lra]. }
  assert (E2 : (/ H * (1 - e) * 50 * (1 - e) * A ==
                180000000 * (1 - e) * (1 - e) / (1 + e))%Q).
  { unfold H. field. split; lra. }
  rewrite <- E2. apply Qmult_le_compat_r; [exact Hchain | lra].
Qed.

Lemma urgency_upper (b : Z) :
  0 < b <= 2 ^ 53 ->
  (urgencyDue b * inject_Z b <=
   180000000 * (1 + Number.pow2 (-53)) * (1 + Number.pow2 (-53)) /
   (1 - Number.pow2 (-53)))%Q.
Proof.
  intros [Hb Hmax].
  set (e := Number.pow2 (-53)).
  assert (He : (0 < e)%Q) by apply pow2_pos.
  assert (He1 : (e < 1)%Q) by (vm_compute; reflexivity).
  assert (HB : (0 < inject_Z b)%Q)
    by (change 0%Q with (inject_Z 0); rewrite <- Zlt_Qlt; exact Hb).
  unfold urgencyDue. rewrite (binary64_Z b) by lia.
  set (B := inject_Z b) in *.
  set (h := Number.div B 3600000).
  set (i := Number.div 1 h).
  assert (Hh0 : (0 < h)%Q) by (apply hours_pos; exact HB).
  assert (Hh : (B / 3600000 * (1 - e) <= h)%Q).
  { apply binary64_error. apply Qle_shift_div_l; lra. }
  assert (Hi0 : (0 <= 1 / h)%Q) by (apply Qle_shift_div_l; lra).
  assert (Hi : (i <= 1 / h * (1 + e))%Q) by (apply binary64_error; exact Hi0).
  assert (Hi1 : (0 <= i)%Q).
  { apply Qlt_le_weak, div_pos; [reflexivity | exact Hh0]. }
  assert (Hu : (Number.mul i 50 <= i * 50 * (1 + e))%Q)
    by (apply binary64_error; lra).
  set (H := (B / 3600000 * (1 - e))%Q) in *.
  assert (HH : (0 < H)%Q).
  { unfold H. apply Qmult_lt_0_compat; [| lra].
    apply Qlt_shift_div_l; lra. }
  assert (Hinv : (/ h <= / H)%Q) by (apply Qinv_antitone; assumption).
  assert (E1 : (1 / h == / h)%Q) by (field; lra).
  assert (Hchain : (Number.mul i 50 <= / H * (1 + e) * 50 * (1 + e))%Q).
  { eapply Qle_trans; [exact Hu |].
    apply Qmult_le_compat_r; [| lra]. apply Qmult_le_compat_r; [| lra].
    eapply Qle_trans; [exact Hi |]. rewrite E1.
    apply Qmult_le_compat_r; [exact Hinv | lra]. }
  assert (E2 : (/ H * (1 + e) * 50 * (1 + e) * B ==
                180000000 * (1 + e) * (1 + e) / (1 - e))%Q).
  { unfold H. field. split; lra. }
  rewrite <- E2. apply Qmult_le_compat_r; [exact Hchain | lra].
Qed.

Lemma score_strict_step (w : Q) (a : Z) :
  (0 <= w)%Q -> (w <= 100)%Q -> 0 < a <= 2 ^ 36 ->
  (Number.add w (urgencyDue (a + 1)) < Number.add w (urgencyDue a))%Q.
Proof.
  intros Hw0 Hw [Ha Hmax].
  pose proof (urgency_lower a ltac:(lia)) as Hlo.
  pose proof (urgency_upper (a + 1) ltac:(lia)) as Hup.
  pose proof (urgencyDue_pos a Ha) as Hua.
  pose proof (urgencyDue_pos (a + 1) ltac:(lia)) as Hub.
  set (ua := urgencyDue a) in *. set (ub := urgencyDue (a + 1)) in *.
  set (e := Number.pow2 (-53)) in *.
  assert (He : (0 < e)%Q) by apply pow2_pos.
  assert (He1 : (e < 1)%Q) by (vm_compute; reflexivity).
  assert (HA : (1 <= inject_Z a)%Q)
    by (change 1%Q with (inject_Z 1); rewrite <- Zle_Qle; lia).
  assert (HAmax : (inject_Z a <= inject_Z (2 ^ 36))%Q)
    by (rewrite <- Zle_Qle; exact Hmax).
  rewrite inject_Z_plus in Hup. change (inject_Z 1) with 1%Q in Hup.
  set (A := inject_Z a) in *.
  assert (Hsa : ((w + ua) * (1 - e) <= Number.add w ua)%Q)
    by (apply binary64_error; lra).
  assert (Hsb : (Number.add w ub <= (w + ub) * (1 + e))%Q)
    by (apply binary64_error; lra).
  eapply Qle_lt_trans; [exact Hsb |].
  eapply Qlt_le_trans; [| exact Hsa].
  set (C1 := (180000000 * (1 + e) * (1 + e) / (1 - e))%Q) in *.
  set (C2 := (180000000 * (1 - e) * (1 - e) / (1 + e))%Q) in *.
  assert (HAB : (0 < A * (A + 1))%Q) by (apply Qmult_lt_0_compat; lra).
  apply (Qmult_lt_r _ _ (A * (A + 1)) HAB).
  assert (Hnum : (2 * e * 100 * (inject_Z (2 ^ 36) * (inject_Z (2 ^ 36) + 1)) +
                  (C1 * (1 + e) - C2 * (1 - e)) * inject_Z (2 ^ 36) <
                  C2 * (1 - e))%Q)
    by (vm_compute; reflexivity).
  assert (HD1 : (0 <= C1 * (1 + e) - C2 * (1 - e))%Q)
    by (vm_compute; discriminate).
  assert (HC2 : (0 <= C2)%Q) by (vm_compute; discriminate).
  assert (HC1 : (0 <= C1)%Q) by (vm_compute; discriminate).
  assert (Hsq : (A * (A + 1) <=
                 inject_Z (2 ^ 36) * (inject_Z (2 ^ 36) + 1))%Q).
  { apply Qle_trans with (A * (inject_Z (2 ^ 36) + 1))%Q.
    - rewrite !(Qmult_comm A). apply Qmult_le_compat_r; lra.
    - apply Qmult_le_compat_r; [lra |].
      change (0 <= inject_Z (2 ^ 36) + 1)%Q. vm_compute. discriminate. }
  assert (Hlin : ((C1 * (1 + e) - C2 * (1 - e)) * A <=
                  (C1 * (1 + e) - C2 * (1 - e)) * inject_Z (2 ^ 36))%Q).
  { rewrite !(Qmult_comm (C1 * (1 + e) - C2 * (1 - e))).
    apply Qmult_le_compat_r; assumption. }
  assert (Hwsq : (2 * e * w * (A * (A + 1)) <=
                  2 * e * 100 *
                  (inject_Z (2 ^ 36) * (inject_Z (2 ^ 36) + 1)))%Q).
  { apply Qle_trans with (2 * e * 100 * (A * (A + 1)))%Q.
    - apply Qmult_le_compat_r; [| lra].
      rewrite !(Qmult_comm (2 * e)). apply Qmult_le_compat_r; lra.
    - rewrite !(Qmult_comm (2 * e * 100)).
      apply Qmult_le_compat_r; [exact Hsq |].
      apply Qmult_le_0_compat; lra. }
  assert (Hb' : (ub * (A + 1) * (A * (1 + e)) <= C1 * (A * (1 + e)))%Q).
  { apply Qmult_le_compat_r; [exact Hup |].
    apply Qmult_le_0_compat; lra. }
  assert (Ha' : (C2 * ((A + 1) * (1 - e)) <= ua * A * ((A + 1) * (1 - e)))%Q).
  { apply Qmult_le_compat_r; [exact Hlo |].
    apply Qmult_le_0_compat; lra. }
  assert (E1 : ((w + ub) * (1 + e) * (A * (A + 1)) ==
                w * (1 + e) * (A * (A + 1)) +
                ub * (A + 1) * (A * (1 + e)))%Q) by ring.
  assert (E2 : ((w + ua) * (1 - e) * (A * (A + 1)) ==
                w * (1 - e) * (A * (A + 1)) +
                ua * A * ((A + 1) * (1 - e)))%Q) by ring.
  rewrite E1, E2.
  assert (E3 : (w * (1 + e) * (A * (A + 1)) ==
                w * (1 - e) * (A * (A + 1)) + 2 * e * w * (A * (A + 1)))%Q)
    by ring.
  assert (E4 : (C1 * (A * (1 + e)) ==
                C2 * ((A + 1) * (1 - e)) - C2 * (1 - e) +
                (C1 * (1 + e) - C2 * (1 - e)) * A)%Q) by ring.
  lra.
Qed.

Lemma exact_hoursRemaining_due (t : Task) (now : Z) :
  0 < deadline t - now ->
  exact_hoursRemaining t now = (inject_Z (deadline t - now) / 3600000)%Q.
Proof.
  intros H. unfold exact_hoursRemaining. cbv zeta.
  destruct (Qlt_le_dec 0 _) as [Hp | Hn]; [reflexivity |].
  assert (Hq : (0 < inject_Z (deadline t - now))%Q)
    by (change 0%Q with (inject_Z 0); rewrite <- Zlt_Qlt; exact H).
  assert (0 < inject_Z (deadline t - now) / 3600000)%Q
    by (apply Qlt_shift_div_l; lra).
  lra.
Qed.

Lemma exact_hoursRemaining_overdue (t : Task) (now : Z) :
  deadline t - now <= 0 -> exact_hoursRemaining t now = (1 # 100)%Q.
Proof.
  intros H. unfold exact_hoursRemaining. cbv zeta.
  destruct (Qlt_le_dec 0 _) as [Hp | Hn]; [| reflexivity].
  assert (Hq : (inject_Z (deadline t - now) <= 0)%Q)
    by (change 0%Q with (inject_Z 0); rewrite <- Zle_Qle; exact H).
  assert (inject_Z (deadline t - now) / 3600000 <= 0)%Q
    by (apply Qle_shift_div_r; lra).
  lra.
Qed.

(** The score the code computes lies within a relative error of [2^-50]
    of the exact value of the formula. *)
Lemma computeScore_near_exact (t : Task) (now : Z) :
  status t = PENDING -> deadline t - now <= 2 ^ 53 ->
  (exact_computeScore t now * (1 - Number.pow2 (-50)) <= computeScore t now)%Q
  /\
  (computeScore t now <= exact_computeScore t now * (1 + Number.pow2 (-50)))%Q.
Proof.
  intros Hs Hmax. unfold exact_computeScore. rewrite Hs.
  destruct (Z_lt_le_dec 0 (deadline t - now)) as [Hd | Hd].
  - rewrite exact_hoursRemaining_due by exact Hd.
    rewrite (computeScore_due t now Hs Hd).
    pose proof (urgency_lower _ (conj Hd Hmax)) as Hlo.
    pose proof (urgency_upper _ (conj Hd Hmax)) as Hup.
    pose proof (urgencyDue_pos _ Hd) as Hu.
    set (u := urgencyDue (deadline t - now)) in *.
    assert (HA : (0 < inject_Z (deadline t - now))%Q)
      by (change 0%Q with (inject_Z 0); rewrite <- Zlt_Qlt; exact Hd).
    set (A := inject_Z (deadline t - now)) in *.
    set (w := spec_priorityWeight (priority t)).
    assert (Hw : (0 <= w)%Q) by (unfold w; destruct (priority t); discriminate).
    set (e := Number.pow2 (-53)) in *.
    assert (He : (0 < e)%Q) by apply pow2_pos.
    assert (He1 : (e < 1)%Q) by (vm_compute; reflexivity).
    destruct (binary64_error (w + u) ltac:(lra)) as [Hslo Hsup].
    fold e in Hslo, Hsup. fold (Number.add w u) in Hslo, Hsup.
    assert (Ex : (1 / (A / 3600000) * 50 == 180000000 / A)%Q)
      by (field; lra).
    rewrite Ex.
    set (x := (180000000 / A)%Q).
    assert (Hx : (0 < x)%Q) by (apply Qlt_shift_div_l; lra).
    assert (ExA : (x * A == 180000000)%Q) by (unfold x; field; lra).
    assert (Hulo : (x * ((1 - e) * (1 - e) / (1 + e)) <= u)%Q).
    { apply Qmult_le_r with (z := A); [exact HA |].
      eapply Qle_trans; [| exact Hlo].
      assert (E : (x * ((1 - e) * (1 - e) / (1 + e)) * A ==
                   x * A * ((1 - e) * (1 - e) / (1 + e)))%Q) by ring.
      rewrite E, ExA. apply Qle_lteq. right. field. lra. }
    assert (Huup : (u <= x * ((1 + e) * (1 + e) / (1 - e)))%Q).
    { apply Qmult_le_r with (z := A); [exact HA |].
      eapply Qle_trans; [exact Hup |].
      assert (E : (x * ((1 + e) * (1 + e) / (1 - e)) * A ==
                   x * A * ((1 + e) * (1 + e) / (1 - e)))%Q) by ring.
      rewrite E, ExA. apply Qle_lteq. right. field. lra. }
    assert (Hk1 : (1 - Number.pow2 (-50) <=
                   (1 - e) * (1 - e) / (1 + e) * (1 - e))%Q)
      by (vm_compute; discriminate).
    assert (Hk2 : ((1 + e) * (1 + e) / (1 - e) * (1 + e) <=
                   1 + Number.pow2 (-50))%Q)
      by (vm_compute; discriminate).
    assert (Hk3 : ((1 - e) * (1 - e) / (1 + e) <= 1)%Q)
      by (vm_compute; discriminate).
    assert (Hk4 : (1 <= (1 + e) * (1 + e) / (1 - e))%Q)
      by (vm_compute; discriminate).
    set (lo := ((1 - e) * (1 - e) / (1 + e))%Q) in *.
    set (hi := ((1 + e) * (1 + e) / (1 - e))%Q) in *.
    assert (Hlo0 : (0 <= lo)%Q) by (vm_compute; discriminate).
    assert (H50 : (0 < Number.pow2 (-50))%Q) by apply pow2_pos.
    split.
    + eapply Qle_trans; [| exact Hslo].
      apply Qle_trans with ((w + x) * (lo * (1 - e)))%Q.
      * rewrite !(Qmult_comm (w + x)). apply Qmult_le_compat_r; lra.
      * assert (E : ((w + x) * (lo * (1 - e)) ==
                     (w * lo + x * lo) * (1 - e))%Q) by ring.
        rewrite E. apply Qmult_le_compat_r; [| lra].
        assert (w * lo <= w * 1)%Q
          by (rewrite !(Qmult_comm w); apply Qmult_le_compat_r; lra).
        lra.
    + eapply Qle_trans; [exact Hsup |].
      apply Qle_trans with ((w + x) * (hi * (1 + e)))%Q.
      * assert (E : ((w + x) * (hi * (1 + e)) ==
                     (w * hi + x * hi) * (1 + e))%Q) by ring.
        rewrite E. apply Qmult_le_compat_r; [| lra].
        assert (w * 1 <= w * hi)%Q
          by (rewrite !(Qmult_comm w); apply Qmult_le_compat_r; lra).
        lra.
      * rewrite !(Qmult_comm (w + x)). apply Qmult_le_compat_r; lra.
  - rewrite exact_hoursRemaining_overdue by exact Hd.
    rewrite (computeScore_overdue t now Hs Hd).
    assert (H50 : (0 < Number.pow2 (-50))%Q) by apply pow2_pos.
    assert (E : (spec_priorityWeight (priority t) + 1 / (1 # 100) * 50 ==
                 spec_priorityWeight (priority t) + 5000)%Q) by field.
    rewrite E.
    assert (Hw : (0 <= spec_priorityWeight (priority t))%Q)
      by (destruct (priority t); discriminate).
    set (s := (spec_priorityWeight (priority t) + 5000)%Q).
    assert (Hs0 : (0 <= s)%Q) by (unfold s; lra).
    assert (0 <= s * Number.pow2 (-50))%Q
      by (apply Qmult_le_0_compat; lra).
    split; lra.
Qed.

(** C1.  [computeScore] is 0 for a COMPLETED task and otherwise
    [priorityWeight + (1 / hoursRemaining) * 50], with the weights 100, 50
    and 10 and with [hoursRemaining] the remaining time in hours when it is
    positive and 0.01 otherwise, each operation being the one of numbers;
    for deadlines up to [2^53] ms ahead the result is within a relative
    error of [2^-50] of the value of the formula on exact rationals.
    Hence a LOW task one hour overdue scores 5010, which is above the
    score of a HIGH task due in three hours, a number between 116.6 and
    116.7. *)
Theorem computeScore_formula (t lo hi : Task) (now : Z)
    (Hlo : status lo = PENDING /\ priority lo = LOW /\
           deadline lo = now - 3600000)
    (Hhi : status hi = PENDING /\ priority hi = HIGH /\
           deadline hi = now + 3 * 3600000) :
  computeScore t now = spec_computeScore t now /\
  (status t = COMPLETED -> computeScore t now = 0%Q) /\
  (status t = PENDING -> deadline t - now <= 2 ^ 53 ->
   (exact_computeScore t now * (1 - Number.pow2 (-50)) <= computeScore t now)%Q
   /\
   (computeScore t now <= exact_computeScore t now * (1 + Number.pow2 (-50)))%Q)
  /\
  (computeScore lo now == 5010)%Q /\
  (1166 # 10 < computeScore hi now)%Q /\
  (computeScore hi now < 1167 # 10)%Q /\
  (computeScore hi now < computeScore lo now)%Q.
Proof.
  destruct Hlo as (Hls & Hlp & Hld), Hhi as (Hhs & Hhp & Hhd).
  assert (Elo : (computeScore lo now == 5010)%Q).
  { rewrite computeScore_overdue by (try assumption; lia).
    rewrite Hlp. reflexivity. }
  assert (Ehi : (computeScore hi now == Number.add 100 (urgencyDue 10800000))%Q).
  { rewrite computeScore_due by (try assumption; lia).
    rewrite Hhp. replace (deadline hi - now) with 10800000 by lia.
    reflexivity. }
  split; [apply computeScore_refines |].
  split; [apply computeScore_completed |].
  split; [apply computeScore_near_exact |].
  rewrite Elo, Ehi. repeat split; vm_compute; reflexivity.
Qed.

Lemma computeScore_formula_witness :
  (computeScore (mkTask "low" LOW 6400000 PENDING 0 None) 10000000
   == 5010)%Q /\
  (computeScore (mkTask "high" HIGH 20800000 PENDING 0 None) 10000000
   < 1167 # 10)%Q.
Proof.
  pose proof (computeScore_formula
                (mkTask "done" MEDIUM 0 COMPLETED 0 (Some 0))
                (mkTask "low" LOW 6400000 PENDING 0 None)
                (mkTask "high" HIGH 20800000 PENDING 0 None)
                10000000) as H.
  destruct H as (_ & _ & _ & Hl & _ & Hh & _).
  - repeat split; reflexivity.
  - repeat split; reflexivity.
  - split; assumption.
Defined.

(** Two numbers at least 2 apart, below [2^53], have two integers between
    them, so that rounding keeps them apart. *)
Lemma binary64_separated (x y : Q) :
  (0 <= x)%Q -> (x + 2 <= y)%Q -> (y <= inject_Z (2 ^ 53))%Q ->
  (Number.binary64 x < Number.binary64 y)%Q.
Proof.
  intros Hx Hxy Hy.
  destruct (Qfloor_bounds x) as [Hlo Hhi].
  set (n := Qfloor x + 1).
  assert (Hn : (inject_Z n == inject_Z (Qfloor x) + 1)%Q)
    by (unfold n; rewrite inject_Z_plus; reflexivity).
  assert (Hn1 : (inject_Z (n + 1) == inject_Z (Qfloor x) + 2)%Q).
  { rewrite inject_Z_plus, Hn. change (inject_Z 1) with 1%Q. ring. }
  assert (H0 : 0 <= Qfloor x).
  { rewrite <- (Qfloor_Z 0). apply Qfloor_resp_le. exact Hx. }
  assert (Hmax : n + 1 <= 2 ^ 53) by (rewrite Zle_Qle; lra).
  pose proof (binary64_mono x (inject_Z n) ltac:(lra)) as H1.
  pose proof (binary64_mono (inject_Z (n + 1)) y ltac:(lra)) as H2.
  rewrite (binary64_Z n) in H1 by (unfold n; lia).
  rewrite (binary64_Z (n + 1)) in H2 by (unfold n in *; lia).
  lra.
Qed.

Lemma spec_urgency_range (t : Task) (now : Z) :
  (0 <= Number.mul (Number.div 1 (spec_hoursRemaining t now)) 50)%Q /\
  (Number.mul (Number.div 1 (spec_hoursRemaining t now)) 50 <= 180000001)%Q.
Proof.
  destruct (Z_lt_le_dec 0 (deadline t - now)) as [Hd | Hd].
  - rewrite spec_hoursRemaining_due by exact Hd.
    fold (urgencyDue (deadline t - now)).
    pose proof (urgencyDue_pos _ Hd).
    pose proof (urgencyDue_antitone 1 (deadline t - now) ltac:(lia) ltac:(lia)).
    assert (urgencyDue 1 <= 180000001)%Q by (vm_compute; discriminate).
    split; lra.
  - rewrite spec_hoursRemaining_overdue by exact Hd.
    fold urgencyOverdue. rewrite urgencyOverdue_value. split; discriminate.
Qed.

Lemma weights_apart (u : Q) :
  (0 <= u)%Q -> (u <= 180000001)%Q ->
  (Number.add 10 u < Number.add 50 u)%Q /\
  (Number.add 50 u < Number.add 100 u)%Q.
Proof.
  intros H0 Hmax.
  assert (Hbig : (180000101 <= inject_Z (2 ^ 53))%Q) by (vm_compute; discriminate).
  split; apply binary64_separated; lra.
Qed.

(** C3, as stated, fails: two PENDING tasks of priority HIGH, one two
    hours and one one hour overdue, differ in [deadline − now] and get the
    same score; so do two PENDING tasks of priority HIGH whose deadlines
    are 118767479591 ms and 118767479592 ms ahead, through rounding. *)
Lemma computeScore_not_strictly_decreasing :
  status (mkTask "a" HIGH 2800000 PENDING 0 None) = PENDING /\
  status (mkTask "b" HIGH 6400000 PENDING 0 None) = PENDING /\
  priority (mkTask "a" HIGH 2800000 PENDING 0 None) =
  priority (mkTask "b" HIGH 6400000 PENDING 0 None) /\
  deadline (mkTask "a" HIGH 2800000 PENDING 0 None) - 10000000 <
  deadline (mkTask "b" HIGH 6400000 PENDING 0 None) - 10000000 /\
  ~ (computeScore (mkTask "b" HIGH 6400000 PENDING 0 None) 10000000 <
     computeScore (mkTask "a" HIGH 2800000 PENDING 0 None) 10000000)%Q /\
  deadline (mkTask "c" HIGH 118767479591 PENDING 0 None) - 0 <
  deadline (mkTask "d" HIGH 118767479592 PENDING 0 None) - 0 /\
  ~ (computeScore (mkTask "d" HIGH 118767479592 PENDING 0 None) 0 <
     computeScore (mkTask "c" HIGH 118767479591 PENDING 0 None) 0)%Q.
Proof.
  repeat split; try reflexivity.
  - vm_compute. discriminate.
  - vm_compute. discriminate.
Qed.

(** C3, amended.  For two non-COMPLETED tasks of one priority, the task
    with the larger [deadline − now] never has the larger score when the
    smaller [deadline − now] is positive or the larger one is at least
    36000 ms (the 0.01 h floor).  Its score is strictly smaller when the
    smaller [deadline − now] is positive and at most [2^36] ms (about 2.2
    years), or when the smaller is zero or negative and the larger
    exceeds 36000 ms; two tasks whose deadline is reached or passed have
    equal scores.  Whenever [hoursRemaining] is equal, a HIGH task scores
    strictly above a MEDIUM one, and a MEDIUM one strictly above a LOW
    one. *)
Theorem computeScore_monotone (a b : Task) (now : Z)
    (Ha : status a <> COMPLETED) (Hb : status b <> COMPLETED) :
  (priority a = priority b ->
   deadline a - now <= deadline b - now ->
   0 < deadline a - now \/ 36000 <= deadline b - now ->
   (computeScore b now <= computeScore a now)%Q) /\
  (priority a = priority b ->
   deadline a - now < deadline b - now ->
   0 < deadline a - now <= 2 ^ 36 \/
   (deadline a - now <= 0 /\ 36000 < deadline b - now) ->
   (computeScore b now < computeScore a now)%Q) /\
  (priority a = priority b ->
   deadline a - now <= 0 -> deadline b - now <= 0 ->
   (computeScore a now == computeScore b now)%Q) /\
  ((spec_hoursRemaining a now == spec_hoursRemaining b now)%Q ->
   (priority a = HIGH -> priority b = MEDIUM ->
    (computeScore b now < computeScore a now)%Q) /\
   (priority a = MEDIUM -> priority b = LOW ->
    (computeScore b now < computeScore a now)%Q)).
Proof.
  assert (Hsa : status a = PENDING) by (destruct (status a); congruence).
  assert (Hsb : status b = PENDING) by (destruct (status b); congruence).
  assert (Hw : (0 <= spec_priorityWeight (priority b))%Q /\
               (spec_priorityWeight (priority b) <= 100)%Q)
    by (destruct (priority b); split; discriminate).
  split; [| split; [| split]].
  - intros Hp Hle Hcase.
    destruct (Z_lt_le_dec 0 (deadline a - now)) as [H0 | H0].
    + rewrite (computeScore_due a) by assumption.
      rewrite (computeScore_due b) by (try assumption; lia).
      rewrite Hp. apply score_mono, urgencyDue_antitone; assumption.
    + destruct Hcase as [Hc | Hc]; [lia |].
      rewrite (computeScore_overdue a) by assumption.
      rewrite (computeScore_due b) by (try assumption; lia).
      rewrite Hp.
      eapply Qle_trans;
        [apply score_mono, (urgencyDue_antitone 36000); lia |].
      destruct (priority b); vm_compute; discriminate.
  - intros Hp Hlt Hcase. destruct Hcase as [[H0 Hmax] | [H0 Hfar]].
    + rewrite (computeScore_due a) by assumption.
      rewrite (computeScore_due b) by (try assumption; lia).
      rewrite Hp.
      eapply Qle_lt_trans;
        [apply score_mono,
           (urgencyDue_antitone (deadline a - now + 1)); lia |].
      apply score_strict_step; [apply Hw | apply Hw | lia].
    + rewrite (computeScore_overdue a) by assumption.
      rewrite (computeScore_due b) by (try assumption; lia).
      rewrite Hp.
      eapply Qle_lt_trans;
        [apply score_mono, (urgencyDue_antitone 36001); lia |].
      destruct (priority b); vm_compute; reflexivity.
  - intros Hp Hda Hdb.
    rewrite (computeScore_overdue a), (computeScore_overdue b) by assumption.
    rewrite Hp. reflexivity.
  - intros Hh.
    rewrite (computeScore_pending a), (computeScore_pending b) by assumption.
    rewrite Hh.
    destruct (spec_urgency_range b now) as [Hu0 Hu1].
    destruct (weights_apart _ Hu0 Hu1) as [H1 H2].
    split; intros Hpa Hpb; rewrite Hpa, Hpb; cbn [PRIORITY_WEIGHTS];
      [exact H2 | exact H1].
Qed.

Lemma computeScore_monotone_witness :
  (computeScore (mkTask "b" HIGH 20800000 PENDING 0 None) 10000000 <
   computeScore (mkTask "a" HIGH 13600000 PENDING 0 None) 10000000)%Q.
Proof.
  refine (proj1 (proj2 (computeScore_monotone
                          (mkTask "a" HIGH 13600000 PENDING 0 None)
                          (mkTask "b" HIGH 20800000 PENDING 0 None)
                          10000000 _ _)) _ _ _).
  - discriminate.
  - discriminate.
  - reflexivity.
  - cbn. lia.
  - left. cbn. lia.
Defined.

(** ** Rounding *)

Lemma Math_round_mono (x y : Q) :
  (x <= y)%Q -> JS.Math_round x <= JS.Math_round y.
Proof.
  intros H. unfold JS.Math_round. apply Qfloor_resp_le. lra.
Qed.

Lemma Math_round_Z (z : Z) : JS.Math_round (inject_Z z) = z.
Proof.
  unfold JS.Math_round.
  assert (Hlo : z <= Qfloor (inject_Z z + (1 # 2))).
  { rewrite <- (Qfloor_Z z) at 1. apply Qfloor_resp_le. lra. }
  assert (Hhi : Qfloor (inject_Z z + (1 # 2)) < z + 1).
  { pose proof (Qfloor_le (inject_Z z + (1 # 2))) as Hf.
    rewrite Zlt_Qlt, inject_Z_plus. change (inject_Z 1) with 1%Q. lra. }
  lia.
Qed.

Lemma Math_round_percent (x : Q) :
  (0 <= x)%Q -> (x <= 100)%Q -> 0 <= JS.Math_round x <= 100.
Proof.
  intros H0 H100. split.
  - rewrite <- (Math_round_Z 0). apply Math_round_mono. exact H0.
  - rewrite <- (Math_round_Z 100). apply Math_round_mono. exact H100.
Qed.

Lemma Math_round_comp (x y : Q) :
  (x == y)%Q -> JS.Math_round x = JS.Math_round y.
Proof.
  intros H. unfold JS.Math_round. apply Qfloor_comp. rewrite H. reflexivity.
Qed.

Lemma Qfloor_unique (q : Q) (k : Z) :
  (inject_Z k <= q)%Q -> (q < inject_Z k + 1)%Q -> Qfloor q = k.
Proof.
  intros Hlo Hhi. destruct (Qfloor_bounds q) as [Hf Hg].
  assert (H1 : k <= Qfloor q).
  { rewrite <- (Qfloor_Z k). apply Qfloor_resp_le. exact Hlo. }
  assert (H2 : Qfloor q < k + 1).
  { rewrite Zlt_Qlt, inject_Z_plus. change (inject_Z 1) with 1%Q. lra. }
  lia.
Qed.

(** ** Percentages *)

Lemma percent_mono (n n' d : Q) :
  (0 < d)%Q -> (n <= n')%Q -> (percent n d <= percent n' d)%Q.
Proof.
  intros Hd Hn. unfold percent. apply mul_mono_l; [discriminate |].
  apply div_mono_l; assumption.
Qed.

Lemma percent_antitone (n d d' : Q) :
  (0 <= n)%Q -> (0 < d)%Q -> (d <= d')%Q ->
  (percent n d' <= percent n d)%Q.
Proof.
  intros Hn Hd Hdd. unfold percent. apply mul_mono_l; [discriminate |].
  apply div_antitone_r; assumption.
Qed.

Lemma percent_zero (n d : Q) : (n == 0)%Q -> (percent n d == 0)%Q.
Proof.
  intros Hn. unfold percent, Number.mul, Number.div.
  assert (E : (n / d == 0)%Q) by (rewrite Hn; unfold Qdiv; ring).
  rewrite (binary64_zero _ E). reflexivity.
Qed.

Lemma percent_full (n d : Q) :
  (0 < d)%Q -> (n == d)%Q -> (percent n d == 100)%Q.
Proof.
  intros Hd Hn. unfold percent, Number.mul, Number.div.
  assert (E : (n / d == 1)%Q) by (rewrite Hn; field; lra).
  rewrite E. vm_compute. reflexivity.
Qed.

Lemma percent_nonpos (n d : Q) :
  (0 < d)%Q -> (n <= 0)%Q -> (percent n d <= 0)%Q.
Proof.
  intros Hd Hn. rewrite <- (percent_zero 0 d) by reflexivity.
  apply percent_mono; assumption.
Qed.

Lemma percent_nonneg (n d : Q) :
  (0 < d)%Q -> (0 <= n)%Q -> (0 <= percent n d)%Q.
Proof.
  intros Hd Hn. rewrite <- (percent_zero 0 d) by reflexivity.
  apply percent_mono; assumption.
Qed.

Lemma percent_over (n d : Q) :
  (0 < d)%Q -> (d <= n)%Q -> (100 <= percent n d)%Q.
Proof.
  intros Hd Hn. rewrite <- (percent_full d d) by (try reflexivity; exact Hd).
  apply percent_mono; assumption.
Qed.

Lemma percent_under (n d : Q) :
  (0 < d)%Q -> (n <= d)%Q -> (percent n d <= 100)%Q.
Proof.
  intros Hd Hn. rewrite <- (percent_full d d) by (try reflexivity; exact Hd).
  apply percent_mono; assumption.
Qed.

(** The percentage the code computes is within [2^-45] of the exact
    one. *)
Lemma percent_error (n d : Z) :
  0 <= n <= d -> 0 < d ->
  (exactPercent n d - Number.pow2 (-45) <=
   percent (inject_Z n) (inject_Z d))%Q /\
  (percent (inject_Z n) (inject_Z d) <=
   exactPercent n d + Number.pow2 (-45))%Q.
Proof.
  intros [Hn0 Hnd] Hd.
  assert (HD : (0 < inject_Z d)%Q)
    by (change 0%Q with (inject_Z 0); rewrite <- Zlt_Qlt; exact Hd).
  assert (HN : (0 <= inject_Z n)%Q)
    by (change 0%Q with (inject_Z 0); rewrite <- Zle_Qle; exact Hn0).
  assert (HND : (inject_Z n <= inject_Z d)%Q)
    by (rewrite <- Zle_Qle; exact Hnd).
  unfold percent, exactPercent, Number.mul, Number.div.
  set (x := (inject_Z n / inject_Z d)%Q).
  assert (Hx0 : (0 <= x)%Q) by (apply Qle_shift_div_l; lra).
  assert (Hx1 : (x <= 1)%Q) by (apply Qle_shift_div_r; lra).
  set (e := Number.pow2 (-53)).
  assert (He : (0 < e)%Q) by apply pow2_pos.
  assert (He1 : (e < 1)%Q) by (vm_compute; reflexivity).
  destruct (binary64_error x Hx0) as [Hrlo Hrup]. fold e in Hrlo, Hrup.
  set (r := Number.binary64 x) in *.
  assert (Hr0 : (0 <= r)%Q).
  { eapply Qle_trans; [| exact Hrlo]. apply Qmult_le_0_compat; lra. }
  destruct (binary64_error (r * 100) ltac:(lra)) as [Hplo Hpup].
  fold e in Hplo, Hpup.
  assert (Hxe : (x * e <= e)%Q).
  { rewrite <- (Qmult_1_l e) at 2. apply Qmult_le_compat_r; lra. }
  assert (Hre : (r * e <= (1 + e) * e)%Q).
  { apply Qmult_le_compat_r; lra. }
  assert (Hk : (100 * (e + (1 + e) * e) <= Number.pow2 (-45))%Q)
    by (vm_compute; discriminate).
  split; lra.
Qed.

Lemma exactPercent_half (n d : Z) :
  0 < d ->
  (exactPercent n d + (1 # 2) ==
   inject_Z (200 * n + d) / inject_Z (2 * d))%Q.
Proof.
  intros Hd.
  assert (HD : (0 < inject_Z d)%Q)
    by (change 0%Q with (inject_Z 0); rewrite <- Zlt_Qlt; exact Hd).
  unfold exactPercent. rewrite inject_Z_plus, !inject_Z_mult.
  change (inject_Z 200) with 200%Q. change (inject_Z 2) with 2%Q.
  field. lra.
Qed.

(** A fraction with denominator [D] that is no integer is at least [1/D]
    away from the integers. *)
Lemma fraction_between (N D : Z) :
  0 < D ->
  (inject_Z (N / D) <= inject_Z N / inject_Z D)%Q /\
  (N mod D = 0 -> (inject_Z N / inject_Z D == inject_Z (N / D))%Q) /\
  (N mod D <> 0 ->
   (inject_Z (N / D) + 1 / inject_Z D <= inject_Z N / inject_Z D)%Q /\
   (inject_Z N / inject_Z D <= inject_Z (N / D) + 1 - 1 / inject_Z D)%Q).
Proof.
  intros HD.
  assert (Hq : (0 < inject_Z D)%Q)
    by (change 0%Q with (inject_Z 0); rewrite <- Zlt_Qlt; exact HD).
  pose proof (Z.div_mod N D ltac:(lia)) as Hdm.
  pose proof (Z.mod_pos_bound N D HD) as Hr.
  assert (E : (inject_Z N / inject_Z D ==
               inject_Z (N / D) + inject_Z (N mod D) / inject_Z D)%Q).
  { rewrite Hdm at 1. rewrite inject_Z_plus, inject_Z_mult. field. lra. }
  assert (H0 : (0 <= inject_Z (N mod D))%Q)
    by (change 0%Q with (inject_Z 0); rewrite <- Zle_Qle; lia).
  split; [| split].
  - rewrite E.
    assert (0 <= inject_Z (N mod D) / inject_Z D)%Q
      by (apply Qle_shift_div_l; lra).
    lra.
  - intros Hz. rewrite E, Hz. unfold Qdiv. ring.
  - intros Hnz. rewrite E.
    assert (H1 : (1 <= inject_Z (N mod D))%Q)
      by (change 1%Q with (inject_Z 1); rewrite <- Zle_Qle; lia).
    assert (H2' : (inject_Z (N mod D) + 1 <= inject_Z D)%Q).
    { change 1%Q with (inject_Z 1).
      rewrite <- inject_Z_plus, <- Zle_Qle. lia. }
    assert (H2 : (inject_Z (N mod D) <= inject_Z D - 1)%Q) by lra.
    assert (Hinv : (0 < / inject_Z D)%Q) by (apply Qinv_lt_0_compat; exact Hq).
    assert (Ha : (1 / inject_Z D <= inject_Z (N mod D) / inject_Z D)%Q).
    { unfold Qdiv. apply Qmult_le_compat_r; lra. }
    assert (Hb : (inject_Z (N mod D) / inject_Z D <=
                  (inject_Z D - 1) / inject_Z D)%Q).
    { unfold Qdiv. apply Qmult_le_compat_r; lra. }
    assert (Ec : ((inject_Z D - 1) / inject_Z D == 1 - 1 / inject_Z D)%Q)
      by (field; lra).
    split; lra.
Qed.

(** For fewer than [2^44] parts in the whole, the rounded percentage the
    code computes is the exact percentage rounded half up, unless the
    exact percentage lies halfway between two integers: then it is that
    or one less. *)
Lemma percent_round (n d : Z) :
  0 <= n <= d -> 0 < d < 2 ^ 44 ->
  (~ halfway (exactPercent n d) ->
   JS.Math_round (percent (inject_Z n) (inject_Z d)) =
   spec_round (exactPercent n d)) /\
  (halfway (exactPercent n d) ->
   JS.Math_round (percent (inject_Z n) (inject_Z d)) =
   spec_round (exactPercent n d) \/
   JS.Math_round (percent (inject_Z n) (inject_Z d)) =
   spec_round (exactPercent n d) - 1).
Proof.
  intros Hn [Hd Hmax].
  destruct (percent_error n d Hn Hd) as [Hlo Hup].
  pose proof (exactPercent_half n d Hd) as Ehalf.
  destruct (fraction_between (200 * n + d) (2 * d) ltac:(lia))
    as (Hk & Htie & Hoff).
  set (x := exactPercent n d) in *.
  set (x' := percent (inject_Z n) (inject_Z d)) in *.
  set (k := (200 * n + d) / (2 * d)) in *.
  rewrite <- Ehalf in Hk, Htie, Hoff.
  assert (Heta : (Number.pow2 (-45) < 1 / inject_Z (2 * d))%Q).
  { assert (Hq : (0 < inject_Z (2 * d))%Q)
      by (change 0%Q with (inject_Z 0); rewrite <- Zlt_Qlt; lia).
    apply Qlt_shift_div_l; [exact Hq |].
    assert (Hle : (inject_Z (2 * d) <= inject_Z (2 ^ 45 - 1))%Q)
      by (rewrite <- Zle_Qle; lia).
    assert (Hp : (0 < Number.pow2 (-45))%Q) by apply pow2_pos.
    assert (Number.pow2 (-45) * inject_Z (2 * d) <=
            Number.pow2 (-45) * inject_Z (2 ^ 45 - 1))%Q
      by (apply Qmult_le_l; assumption).
    assert (Number.pow2 (-45) * inject_Z (2 ^ 45 - 1) < 1)%Q
      by (vm_compute; reflexivity).
    lra. }
  assert (Hp : (0 < Number.pow2 (-45))%Q) by apply pow2_pos.
  assert (Hp1 : (Number.pow2 (-45) < 1)%Q) by (vm_compute; reflexivity).
  destruct (Z.eq_dec ((200 * n + d) mod (2 * d)) 0) as [Hz | Hnz].
  - specialize (Htie Hz).
    assert (Hsr : spec_round x = k).
    { unfold spec_round. apply Qfloor_unique; lra. }
    split.
    + intros Hnot. exfalso. apply Hnot. unfold halfway.
      fold (spec_round x). rewrite Hsr. symmetry. exact Htie.
    + intros _. rewrite Hsr.
      destruct (Qlt_le_dec (x' + (1 # 2)) (inject_Z k)) as [Hbelow | Habove].
      * right. unfold JS.Math_round.
        assert (Ek : (inject_Z (k - 1) == inject_Z k - 1)%Q).
        { unfold Z.sub. rewrite inject_Z_plus, inject_Z_opp. reflexivity. }
        apply Qfloor_unique; lra.
      * left. unfold JS.Math_round. apply Qfloor_unique; lra.
  - destruct (Hoff Hnz) as [Hofflo Hoffup].
    assert (Hsr : spec_round x = k).
    { unfold spec_round. apply Qfloor_unique; lra. }
    split.
    + intros _. rewrite Hsr. unfold JS.Math_round.
      apply Qfloor_unique; lra.
    + intros Hhalf. exfalso. unfold halfway in Hhalf.
      fold (spec_round x) in Hhalf. rewrite Hsr in Hhalf. lra.
Qed.

(** ** The consistency score *)

Lemma isOnTime_spec (t : Task) : isOnTime t = true <-> onTimeCompleted t.
Proof.
  unfold isOnTime, onTimeCompleted. rewrite andb_true_iff. split.
  - intros [Hs Hc]. destruct (status t); [discriminate Hs |].
    split; [reflexivity |].
    destruct (completedAt t) as [c |]; [| discriminate Hc].
    exists c. split; [reflexivity | apply Z.leb_le; exact Hc].
  - intros [Hs (c & Hc & Hle)]. rewrite Hs, Hc.
    split; [reflexivity | apply Z.leb_le; exact Hle].
Qed.

Lemma isLate_spec (t : Task) : isLate t = true <-> lateCompleted t.
Proof.
  unfold isLate, lateCompleted. rewrite andb_true_iff. split.
  - intros [Hs Hc]. destruct (status t); [discriminate Hs |].
    split; [reflexivity |].
    destruct (completedAt t) as [c |]; [right | left; reflexivity].
    exists c. split; [reflexivity | apply Z.ltb_lt; exact Hc].
  - intros [Hs [Hc | (c & Hc & Hlt)]]; rewrite Hs, Hc.
    + split; reflexivity.
    + split; [reflexivity | apply Z.ltb_lt; exact Hlt].
Qed.

Lemma isOverdue_spec (now : Z) (t : Task) :
  isOverdue now t = true <-> overduePending now t.
Proof.
  unfold isOverdue, overduePending. rewrite andb_true_iff, Z.ltb_lt.
  destruct (status t); cbn; intuition congruence.
Qed.

Lemma classes_exclusive (now : Z) (t : Task) :
  ~ (onTimeCompleted t /\ lateCompleted t) /\
  ~ (onTimeCompleted t /\ overduePending now t) /\
  ~ (lateCompleted t /\ overduePending now t).
Proof.
  unfold onTimeCompleted, lateCompleted, overduePending.
  repeat split.
  - intros [[_ (c & Hc & Hle)] [_ [Hn | (c' & Hc' & Hlt)]]]; [congruence |].
    assert (c = c') by congruence. lia.
  - intros [[Hs _] [Hp _]]. congruence.
  - intros [[Hs _] [Hp _]]. congruence.
Qed.

Lemma inject_nat_pos (n : nat) : (0 < n)%nat -> (0 < inject_nat n)%Q.
Proof.
  intros H. unfold inject_nat. change 0%Q with (inject_Z 0).
  rewrite <- Zlt_Qlt. lia.
Qed.

Lemma inject_nat_le (n m : nat) :
  (n <= m)%nat -> (inject_nat n <= inject_nat m)%Q.
Proof. intros H. unfold inject_nat. rewrite <- Zle_Qle. lia. Qed.

Lemma consistency_percent_bounds (n t : nat) :
  (n <= t)%nat -> (0 < t)%nat ->
  (0 <= percent (inject_nat n) (inject_nat t))%Q /\
  (percent (inject_nat n) (inject_nat t) <= 100)%Q.
Proof.
  intros Hnt Ht. pose proof (inject_nat_pos t Ht) as Hq. split.
  - apply percent_nonneg; [exact Hq |]. apply (inject_nat_le 0). lia.
  - apply percent_under; [exact Hq |]. apply inject_nat_le. exact Hnt.
Qed.

Lemma computeConsistencyScore_unfold (tasks : list Task) (now : Z) :
  computeConsistencyScore tasks now =
  if (tracked tasks now =? 0)%nat
  then 0
  else JS.Math_round
         (percent (inject_nat (count isOnTime tasks))
                  (inject_nat (tracked tasks now))).
Proof. reflexivity. Qed.

Lemma computeConsistencyScore_range (tasks : list Task) (now : Z) :
  0 <= computeConsistencyScore tasks now <= 100.
Proof.
  rewrite computeConsistencyScore_unfold.
  destruct (_ =? 0)%nat eqn:E; [lia |].
  apply Nat.eqb_neq in E. unfold tracked in *.
  apply Math_round_percent; apply consistency_percent_bounds; lia.
Qed.

(** C4, the claim as written fails.  Of forty tasks, 23 completed on time
    and 17 completed late: the code divides 23 by 40, multiplies the
    rounded quotient by 100, which gives 57.49999999999999, and returns 57,
    whereas [round(23 / 40 × 100)] is the rounding of 57.5, which is 58. *)
Lemma computeConsistencyScore_rounds_down :
  count isOnTime sampleHistory = 23%nat /\
  count isLate sampleHistory = 17%nat /\
  count (isOverdue 50) sampleHistory = 0%nat /\
  computeConsistencyScore sampleHistory 50 = 57 /\
  spec_round (spec_consistency sampleHistory 50) = 58.
Proof. vm_compute. repeat split. Qed.

(** C4, amended.  The three filters of [computeConsistencyScore] are the
    three classes of on-time-completed, late-completed and overdue-pending
    tasks, of which a task belongs to at most one; the result is 0 when
    the denominator [onTime + late + overdue] is 0 (so for the empty
    list).  Otherwise, for fewer than [2^44] classified tasks, it is
    [round(onTime / (onTime + late + overdue) × 100)] whenever that exact
    percentage does not lie halfway between two integers, and that
    rounding or one less when it does.  The result is an integer between
    0 and 100, and three on-time-completed tasks with one late-completed
    task give 75. *)
Theorem computeConsistencyScore_spec (tasks : list Task) (now : Z) :
  (forall t,
     (isOnTime t = true <-> onTimeCompleted t) /\
     (isLate t = true <-> lateCompleted t) /\
     (isOverdue now t = true <-> overduePending now t)) /\
  (forall t,
     ~ (onTimeCompleted t /\ lateCompleted t) /\
     ~ (onTimeCompleted t /\ overduePending now t) /\
     ~ (lateCompleted t /\ overduePending now t)) /\
  (tracked tasks now = 0%nat -> computeConsistencyScore tasks now = 0) /\
  computeConsistencyScore [] now = 0 /\
  (tracked tasks now <> 0%nat -> Z.of_nat (tracked tasks now) < 2 ^ 44 ->
   (~ halfway (spec_consistency tasks now) ->
    computeConsistencyScore tasks now =
    spec_round (spec_consistency tasks now)) /\
   (halfway (spec_consistency tasks now) ->
    computeConsistencyScore tasks now =
    spec_round (spec_consistency tasks now) \/
    computeConsistencyScore tasks now =
    spec_round (spec_consistency tasks now) - 1)) /\
  0 <= computeConsistencyScore tasks now <= 100 /\
  (count isOnTime tasks = 3%nat -> count isLate tasks = 1%nat ->
   count (isOverdue now) tasks = 0%nat ->
   computeConsistencyScore tasks now = 75).
Proof.
  split; [| split; [| split; [| split; [| split; [| split]]]]].
  - intros t. split; [apply isOnTime_spec |].
    split; [apply isLate_spec | apply isOverdue_spec].
  - intros t. apply classes_exclusive.
  - intros H0. rewrite computeConsistencyScore_unfold, H0. reflexivity.
  - reflexivity.
  - intros Hne Hmax. rewrite computeConsistencyScore_unfold.
    apply Nat.eqb_neq in Hne. rewrite Hne. apply Nat.eqb_neq in Hne.
    unfold spec_consistency, inject_nat.
    apply percent_round; [unfold tracked in *; lia | lia].
  - apply computeConsistencyScore_range.
  - intros H3 H1 H0.
    rewrite computeConsistencyScore_unfold. unfold tracked.
    rewrite H3, H1, H0. vm_compute. reflexivity.
Qed.

Lemma computeConsistencyScore_witness :
  computeConsistencyScore
    [mkTask "a" LOW 100 COMPLETED 0 (Some 90);
     mkTask "b" HIGH 100 COMPLETED 0 (Some 100);
     mkTask "c" MEDIUM 100 COMPLETED 0 (Some 10);
     mkTask "d" LOW 100 COMPLETED 0 (Some 101);
     mkTask "e" LOW 100 PENDING 0 None] 50 = 75.
Proof.
  pose proof (computeConsistencyScore_spec
                [mkTask "a" LOW 100 COMPLETED 0 (Some 90);
                 mkTask "b" HIGH 100 COMPLETED 0 (Some 100);
                 mkTask "c" MEDIUM 100 COMPLETED 0 (Some 10);
                 mkTask "d" LOW 100 COMPLETED 0 (Some 101);
                 mkTask "e" LOW 100 PENDING 0 None] 50)
    as (_ & _ & _ & _ & _ & _ & Hex).
  apply Hex; reflexivity.
Defined.

(** ** Time health *)

Lemma clamp_agree (x : Q) :
  (JS.Math_max 0 (JS.Math_min 100 x) == spec_clamp x 0 100)%Q.
Proof.
  unfold JS.Math_max, JS.Math_min, spec_clamp.
  destruct (Q.min_spec 100 x) as [[Hlt Hmin] | [Hle Hmin]];
    destruct (Q.max_spec 0 (Qmin 100 x)) as [[Hlt' Hmax] | [Hle' Hmax]];
    rewrite Hmax; try rewrite Hmin; rewrite Hmin in *;
    destruct (Qlt_le_dec x 0); try destruct (Qlt_le_dec 100 x);
    try reflexivity; lra.
Qed.

Lemma clamp_bounds (x : Q) :
  (0 <= spec_clamp x 0 100)%Q /\ (spec_clamp x 0 100 <= 100)%Q.
Proof.
  unfold spec_clamp.
  destruct (Qlt_le_dec x 0); [split; lra |].
  destruct (Qlt_le_dec 100 x); split; lra.
Qed.

Lemma spec_clamp_mono (x y : Q) :
  (x <= y)%Q -> (spec_clamp x 0 100 <= spec_clamp y 0 100)%Q.
Proof.
  intros H. unfold spec_clamp.
  destruct (Qlt_le_dec x 0); destruct (Qlt_le_dec y 0);
    try destruct (Qlt_le_dec 100 x); try destruct (Qlt_le_dec 100 y); lra.
Qed.

Lemma spec_clamp_low (x : Q) : (x <= 0)%Q -> (spec_clamp x 0 100 == 0)%Q.
Proof.
  intros H. unfold spec_clamp.
  destruct (Qlt_le_dec x 0); [reflexivity |].
  destruct (Qlt_le_dec 100 x); lra.
Qed.

Lemma spec_clamp_high (x : Q) : (100 <= x)%Q -> (spec_clamp x 0 100 == 100)%Q.
Proof.
  intros H. unfold spec_clamp.
  destruct (Qlt_le_dec x 0); [lra |].
  destruct (Qlt_le_dec 100 x); lra.
Qed.

Lemma spec_clamp_mid (x : Q) :
  (0 <= x)%Q -> (x <= 100)%Q -> (spec_clamp x 0 100 == x)%Q.
Proof.
  intros H0 H1. unfold spec_clamp.
  destruct (Qlt_le_dec x 0); [lra |].
  destruct (Qlt_le_dec 100 x); lra.
Qed.

Lemma spec_round_comp (x y : Q) : (x == y)%Q -> spec_round x = spec_round y.
Proof.
  intros H. unfold spec_round. apply Qfloor_comp. rewrite H. reflexivity.
Qed.

Lemma spec_round_eq (x : Q) : spec_round x = JS.Math_round x.
Proof. reflexivity. Qed.

Lemma spec_round_Z (z : Z) : spec_round (inject_Z z) = z.
Proof. exact (eq_trans (spec_round_eq _) (Math_round_Z z)). Qed.

Lemma Math_round_is (x : Q) (z : Z) :
  (x == inject_Z z)%Q -> JS.Math_round x = z.
Proof.
  intros H. rewrite (Math_round_comp _ _ H). apply Math_round_Z.
Qed.

Lemma spec_clamp_comp (x y : Q) :
  (x == y)%Q -> (spec_clamp x 0 100 == spec_clamp y 0 100)%Q.
Proof.
  intros H. unfold spec_clamp.
  destruct (Qlt_le_dec x 0); destruct (Qlt_le_dec y 0);
    try destruct (Qlt_le_dec 100 x); try destruct (Qlt_le_dec 100 y);
    try reflexivity; lra.
Qed.

Lemma spec_round_is (x : Q) (z : Z) :
  (x == inject_Z z)%Q -> spec_round x = z.
Proof.
  intros H. rewrite (spec_round_comp _ _ H). apply spec_round_Z.
Qed.

#[global] Instance percent_proper : Proper (Qeq ==> Qeq ==> Qeq) percent.
Proof. intros a a' Ha b b' Hb. unfold percent. rewrite Ha, Hb. reflexivity. Qed.

Lemma span_pos (d c : Z) :
  c < d -> (0 < Number.sub (inject_Z d) (inject_Z c))%Q.
Proof. intros H. apply msRemaining_pos. lia. Qed.

Lemma sub_antitone_r (d a b : Z) :
  a <= b ->
  (Number.sub (inject_Z d) (inject_Z b) <=
   Number.sub (inject_Z d) (inject_Z a))%Q.
Proof.
  intros H. unfold Number.sub. apply binary64_mono.
  rewrite Zle_Qle in H. lra.
Qed.

Lemma sub_Z (a b : Z) :
  - 2 ^ 53 <= a - b <= 2 ^ 53 ->
  (Number.sub (inject_Z a) (inject_Z b) == inject_Z (a - b))%Q.
Proof.
  intros H. rewrite msRemaining_value. apply binary64_Z. exact H.
Qed.

Lemma computeTimeHealth_completed (t : Task) (now : Z) :
  status t = COMPLETED ->
  computeTimeHealth t now = if isOnTime t then 100 else 0.
Proof.
  intros Hs. unfold computeTimeHealth, isOnTime. rewrite Hs. reflexivity.
Qed.

Lemma computeTimeHealth_degenerate (t : Task) (now : Z) :
  status t = PENDING -> deadline t <= createdAt t ->
  computeTimeHealth t now = 0.
Proof.
  intros Hs Hle. unfold computeTimeHealth. rewrite Hs. cbn [TaskStatus_eqb].
  cbv zeta.
  destruct (Qle_bool _ 0) eqn:E; [reflexivity |].
  exfalso. apply not_true_iff_false in E. apply E. apply Qle_bool_iff.
  apply Qnot_lt_le. intros Hpos. apply msRemaining_pos in Hpos. lia.
Qed.

Lemma computeTimeHealth_pending (t : Task) (now : Z) :
  status t = PENDING -> createdAt t < deadline t ->
  computeTimeHealth t now =
  JS.Math_round
    (spec_clamp
       (percent (Number.sub (inject_Z (deadline t)) (inject_Z now))
                (Number.sub (inject_Z (deadline t)) (inject_Z (createdAt t))))
       0 100).
Proof.
  intros Hs Hlt. unfold computeTimeHealth. rewrite Hs. cbn [TaskStatus_eqb].
  cbv zeta.
  destruct (Qle_bool _ 0) eqn:E.
  - apply Qle_bool_iff in E. pose proof (span_pos _ _ Hlt). lra.
  - apply Math_round_comp. apply clamp_agree.
Qed.

Lemma computeTimeHealth_range (t : Task) (now : Z) :
  0 <= computeTimeHealth t now <= 100.
Proof.
  destruct (status t) eqn:Hs.
  - destruct (Z_lt_le_dec (createdAt t) (deadline t)) as [Hlt | Hle].
    + rewrite computeTimeHealth_pending by assumption.
      apply Math_round_percent; apply clamp_bounds.
    + rewrite computeTimeHealth_degenerate by assumption. lia.
  - rewrite computeTimeHealth_completed by assumption.
    destruct (isOnTime t); lia.
Qed.

Lemma computeTimeHealth_expired (t : Task) (now : Z) :
  status t = PENDING -> createdAt t < deadline t -> deadline t <= now ->
  computeTimeHealth t now = 0.
Proof.
  intros Hs Hlt Hnow. rewrite computeTimeHealth_pending by assumption.
  apply Math_round_is. change (inject_Z 0) with 0%Q.
  apply spec_clamp_low. apply percent_nonpos; [apply span_pos; exact Hlt |].
  apply Qnot_lt_le. intros Hpos. apply msRemaining_pos in Hpos. lia.
Qed.

Lemma computeTimeHealth_fresh (t : Task) (now : Z) :
  status t = PENDING -> createdAt t < deadline t -> now <= createdAt t ->
  computeTimeHealth t now = 100.
Proof.
  intros Hs Hlt Hnow. rewrite computeTimeHealth_pending by assumption.
  apply Math_round_is. change (inject_Z 100) with 100%Q.
  apply spec_clamp_high. apply percent_over; [apply span_pos; exact Hlt |].
  apply sub_antitone_r. exact Hnow.
Qed.

Lemma remainingShare_bounds (t : Task) (now : Z) :
  createdAt t < deadline t ->
  (deadline t <= now -> (remainingShare t now <= 0)%Q) /\
  (now <= createdAt t -> (100 <= remainingShare t now)%Q) /\
  (createdAt t <= now <= deadline t ->
   (0 <= remainingShare t now)%Q /\ (remainingShare t now <= 100)%Q).
Proof.
  intros Hlt. unfold remainingShare, exactPercent.
  set (d := deadline t - createdAt t). set (n := deadline t - now).
  assert (Hd : (0 < inject_Z d)%Q)
    by (change 0%Q with (inject_Z 0); rewrite <- Zlt_Qlt; unfold d; lia).
  assert (Hinv : (0 < / inject_Z d)%Q) by (apply Qinv_lt_0_compat; exact Hd).
  assert (E1 : (inject_Z d / inject_Z d == 1)%Q) by (field; lra).
  split; [| split].
  - intros H. assert (Hn : (inject_Z n <= 0)%Q)
      by (change 0%Q with (inject_Z 0); rewrite <- Zle_Qle; unfold n; lia).
    assert (inject_Z n / inject_Z d <= 0)%Q.
    { unfold Qdiv. rewrite <- (Qmult_0_l (/ inject_Z d)).
      apply Qmult_le_compat_r; lra. }
    lra.
  - intros H. assert (Hn : (inject_Z d <= inject_Z n)%Q)
      by (rewrite <- Zle_Qle; unfold n, d; lia).
    assert (inject_Z d / inject_Z d <= inject_Z n / inject_Z d)%Q.
    { unfold Qdiv. apply Qmult_le_compat_r; lra. }
    lra.
  - intros [H1 H2].
    assert (Hn0 : (0 <= inject_Z n)%Q)
      by (change 0%Q with (inject_Z 0); rewrite <- Zle_Qle; unfold n; lia).
    assert (Hn1 : (inject_Z n <= inject_Z d)%Q)
      by (rewrite <- Zle_Qle; unfold n, d; lia).
    assert (0 <= inject_Z n / inject_Z d)%Q by (apply Qle_shift_div_l; lra).
    assert (inject_Z n / inject_Z d <= 1)%Q by (apply Qle_shift_div_r; lra).
    split; lra.
Qed.

(** Doubling a number doubles its rounding. *)
Lemma exponent_unique (x : Q) (e : Z) :
  (Number.pow2 (e + 52) <= x)%Q -> (x < Number.pow2 (e + 53))%Q ->
  Number.exponent x = e.
Proof.
  intros Hlo Hup.
  assert (Hx : (0 < x)%Q) by (pose proof (pow2_pos (e + 52)); lra).
  destruct (exponent_spec x Hx) as [Hlo' Hup'].
  destruct (Z.lt_trichotomy (Number.exponent x) e) as [H | [H | H]].
  - pose proof (pow2_mono (Number.exponent x + 53) (e + 52) ltac:(lia)). lra.
  - exact H.
  - pose proof (pow2_mono (e + 53) (Number.exponent x + 52) ltac:(lia)). lra.
Qed.

Lemma binary64_double (x : Q) :
  (0 < x)%Q -> (Number.binary64 (2 * x) == 2 * Number.binary64 x)%Q.
Proof.
  intros Hx. rewrite !binary64_pos by lra.
  destruct (exponent_spec x Hx) as [Hlo Hup].
  assert (He : Number.exponent (2 * x) = Number.exponent x + 1).
  { apply exponent_unique.
    - replace (Number.exponent x + 1 + 52) with (Number.exponent x + 52 + 1)
        by lia.
      rewrite pow2_succ. lra.
    - replace (Number.exponent x + 1 + 53) with (Number.exponent x + 53 + 1)
        by lia.
      rewrite pow2_succ. lra. }
  unfold Number.nearest. rewrite He.
  pose proof (pow2_pos (Number.exponent x)) as Hp.
  pose proof (pow2_succ (Number.exponent x)) as Es.
  assert (Eq : (2 * x / Number.pow2 (Number.exponent x + 1) ==
                x / Number.pow2 (Number.exponent x))%Q).
  { rewrite Es. field. lra. }
  rewrite (nearestEven_comp _ _ Eq), Es. ring.
Qed.

Lemma percent_half (r : Z) :
  0 < r ->
  (percent (Number.binary64 (inject_Z r)) (Number.binary64 (inject_Z (2 * r)))
   == 50)%Q.
Proof.
  intros Hr.
  assert (Hq : (0 < inject_Z r)%Q)
    by (change 0%Q with (inject_Z 0); rewrite <- Zlt_Qlt; exact Hr).
  assert (Hb : (0 < Number.binary64 (inject_Z r))%Q)
    by (apply binary64_sign; exact Hq).
  assert (E2 : (Number.binary64 (inject_Z (2 * r)) ==
                2 * Number.binary64 (inject_Z r))%Q).
  { rewrite inject_Z_mult. change (inject_Z 2) with 2%Q.
    apply binary64_double. exact Hq. }
  unfold percent, Number.mul, Number.div.
  assert (E : (Number.binary64 (inject_Z r) /
               Number.binary64 (inject_Z (2 * r)) == 1 # 2)%Q).
  { rewrite E2. field. lra. }
  rewrite E. vm_compute. reflexivity.
Qed.

(** C5, the claim as written fails.  A pending task created at 0 and due
    at 144000000, asked about at 61200000: the exact percentage
    [82800000 / 144000000 × 100] is 57.5, whose rounding is 58; the code
    divides, multiplies the rounded quotient by 100, which gives
    57.49999999999999, and returns 57. *)
Lemma computeTimeHealth_rounds_down :
  computeTimeHealth (mkTask "t" LOW 144000000 PENDING 0 None) 61200000 = 57 /\
  spec_round
    (spec_clamp
       (remainingShare (mkTask "t" LOW 144000000 PENDING 0 None) 61200000)
       0 100) = 58.
Proof. vm_compute. repeat split. Qed.

(** C5, amended.  For a COMPLETED task [computeTimeHealth] is 100 when it
    was completed on or before the deadline and 0 otherwise.  For a
    PENDING task it is 0 when [deadline <= createdAt]; otherwise it is 0
    once the deadline is reached, 100 up to the creation instant, and, for
    a span [deadline − createdAt] below [2^44] ms,
    [round(clamp((deadline − now) / (deadline − createdAt) × 100, 0, 100))]
    whenever the exact percentage does not lie halfway between two
    integers, and that rounding or one less when it does.  The result
    lies between 0 and 100.  Completion exactly at the deadline gives 100,
    one millisecond later 0, and a pending task queried halfway between
    creation and deadline gives 50. *)
Theorem computeTimeHealth_spec (t : Task) (now : Z) :
  (status t = COMPLETED -> onTimeCompleted t -> computeTimeHealth t now = 100) /\
  (status t = COMPLETED -> ~ onTimeCompleted t -> computeTimeHealth t now = 0) /\
  (status t = PENDING -> deadline t <= createdAt t ->
   computeTimeHealth t now = 0) /\
  (status t = PENDING -> createdAt t < deadline t -> deadline t <= now ->
   computeTimeHealth t now = 0) /\
  (status t = PENDING -> createdAt t < deadline t -> now <= createdAt t ->
   computeTimeHealth t now = 100) /\
  (status t = PENDING -> createdAt t < deadline t ->
   deadline t - createdAt t < 2 ^ 44 ->
   (~ halfway (remainingShare t now) ->
    computeTimeHealth t now =
    spec_round (spec_clamp (remainingShare t now) 0 100)) /\
   (halfway (remainingShare t now) ->
    computeTimeHealth t now =
    spec_round (spec_clamp (remainingShare t now) 0 100) \/
    computeTimeHealth t now =
    spec_round (spec_clamp (remainingShare t now) 0 100) - 1)) /\
  0 <= computeTimeHealth t now <= 100 /\
  (status t = COMPLETED -> completedAt t = Some (deadline t) ->
   computeTimeHealth t now = 100) /\
  (status t = COMPLETED -> completedAt t = Some (deadline t + 1) ->
   computeTimeHealth t now = 0) /\
  (status t = PENDING -> createdAt t < deadline t ->
   now - createdAt t = deadline t - now ->
   computeTimeHealth t now = 50).
Proof.
  assert (Hdone : status t = COMPLETED -> onTimeCompleted t ->
                  computeTimeHealth t now = 100).
  { intros Hs Hon. rewrite computeTimeHealth_completed by assumption.
    apply isOnTime_spec in Hon. rewrite Hon. reflexivity. }
  assert (Hlate : status t = COMPLETED -> ~ onTimeCompleted t ->
                  computeTimeHealth t now = 0).
  { intros Hs Hon. rewrite computeTimeHealth_completed by assumption.
    destruct (isOnTime t) eqn:E; [| reflexivity].
    apply isOnTime_spec in E. contradiction. }
  split; [exact Hdone |]. split; [exact Hlate |].
  split; [apply computeTimeHealth_degenerate |].
  split; [apply computeTimeHealth_expired |].
  split; [apply computeTimeHealth_fresh |].
  split; [| split; [| split; [| split]]].
  - intros Hs Hlt Hmax.
    destruct (remainingShare_bounds t now Hlt) as (Blow & Bhigh & Bmid).
    destruct (Z_le_gt_dec (deadline t) now) as [Hexp | Hbefore].
    { rewrite computeTimeHealth_expired by assumption.
      assert (E : spec_round (spec_clamp (remainingShare t now) 0 100) = 0).
      { apply spec_round_is. change (inject_Z 0) with 0%Q.
        apply spec_clamp_low. apply Blow. exact Hexp. }
      rewrite E. split; [reflexivity | left; reflexivity]. }
    destruct (Z_le_gt_dec now (createdAt t)) as [Hfresh | Hafter].
    { rewrite computeTimeHealth_fresh by assumption.
      assert (E : spec_round (spec_clamp (remainingShare t now) 0 100) = 100).
      { apply spec_round_is. change (inject_Z 100) with 100%Q.
        apply spec_clamp_high. apply Bhigh. exact Hfresh. }
      rewrite E. split; [reflexivity | left; reflexivity]. }
    destruct (Bmid ltac:(lia)) as [B0 B1].
    rewrite computeTimeHealth_pending by assumption.
    assert (Er : (Number.sub (inject_Z (deadline t)) (inject_Z now) ==
                  inject_Z (deadline t - now))%Q) by (apply sub_Z; lia).
    assert (Et : (Number.sub (inject_Z (deadline t))
                    (inject_Z (createdAt t)) ==
                  inject_Z (deadline t - createdAt t))%Q)
      by (apply sub_Z; lia).
    assert (Hq : (0 < inject_Z (deadline t - createdAt t))%Q)
      by (change 0%Q with (inject_Z 0); rewrite <- Zlt_Qlt; lia).
    assert (Hn0 : (0 <= inject_Z (deadline t - now))%Q)
      by (change 0%Q with (inject_Z 0); rewrite <- Zle_Qle; lia).
    assert (Hn1 : (inject_Z (deadline t - now) <=
                   inject_Z (deadline t - createdAt t))%Q)
      by (rewrite <- Zle_Qle; lia).
    assert (E1 : JS.Math_round
                   (spec_clamp
                      (percent
                         (Number.sub (inject_Z (deadline t)) (inject_Z now))
                         (Number.sub (inject_Z (deadline t))
                            (inject_Z (createdAt t)))) 0 100) =
                 JS.Math_round
                   (percent (inject_Z (deadline t - now))
                      (inject_Z (deadline t - createdAt t)))).
    { apply Math_round_comp.
      rewrite (spec_clamp_comp _ _ (percent_proper _ _ Er _ _ Et)).
      apply spec_clamp_mid.
      - apply percent_nonneg; assumption.
      - apply percent_under; assumption. }
    assert (E2 : spec_round (spec_clamp (remainingShare t now) 0 100) =
                 spec_round (remainingShare t now)).
    { apply spec_round_comp. apply spec_clamp_mid; assumption. }
    rewrite E1, E2. unfold remainingShare.
    apply percent_round; lia.
  - apply computeTimeHealth_range.
  - intros Hs Hc. apply Hdone; [assumption |].
    split; [assumption |]. exists (deadline t). split; [assumption | lia].
  - intros Hs Hc. apply Hlate; [assumption |].
    intros [_ (c & Hc' & Hle)]. rewrite Hc in Hc'. injection Hc' as <-. lia.
  - intros Hs Hlt Hhalf. rewrite computeTimeHealth_pending by assumption.
    apply Math_round_is. change (inject_Z 50) with 50%Q.
    assert (E : (percent (Number.sub (inject_Z (deadline t)) (inject_Z now))
                   (Number.sub (inject_Z (deadline t))
                      (inject_Z (createdAt t))) == 50)%Q).
    { rewrite !msRemaining_value.
      replace (deadline t - createdAt t) with (2 * (deadline t - now)) by lia.
      apply percent_half. lia. }
    rewrite (spec_clamp_comp _ _ E). apply spec_clamp_mid; lra.
Qed.

Lemma computeTimeHealth_witness :
  computeTimeHealth (mkTask "done" LOW 1000 COMPLETED 0 (Some 1000)) 5000 = 100 /\
  computeTimeHealth (mkTask "late" LOW 1000 COMPLETED 0 (Some 1001)) 5000 = 0 /\
  computeTimeHealth (mkTask "half" LOW 1000 PENDING 0 None) 500 = 50.
Proof.
  pose proof (computeTimeHealth_spec
                (mkTask "done" LOW 1000 COMPLETED 0 (Some 1000)) 5000)
    as (_ & _ & _ & _ & _ & _ & _ & Hdone & _).
  pose proof (computeTimeHealth_spec
                (mkTask "late" LOW 1000 COMPLETED 0 (Some 1001)) 5000)
    as (_ & _ & _ & _ & _ & _ & _ & _ & Hlate & _).
  pose proof (computeTimeHealth_spec
                (mkTask "half" LOW 1000 PENDING 0 None) 500)
    as (_ & _ & _ & _ & _ & _ & _ & _ & _ & Hhalf).
  split; [| split].
  - apply Hdone; reflexivity.
  - apply Hlate; reflexivity.
  - apply Hhalf; reflexivity.
Defined.

(** ** The stable sort *)

Section SortFacts.
Context {A : Type} (compareFn : A -> A -> Q).

Lemma sort_insert_perm (x : A) (l : list A) :
  Permutation (JS.sort_insert compareFn x l) (x :: l).
Proof.
  induction l as [| y l IH]; cbn.
  - reflexivity.
  - destruct (Qlt_le_dec 0 (compareFn x y)).
    + rewrite IH. apply perm_swap.
    + reflexivity.
Qed.

Lemma Array_sort_perm (l : list A) :
  Permutation (JS.Array_sort compareFn l) l.
Proof.
  induction l as [| x l IH]; cbn.
  - reflexivity.
  - rewrite sort_insert_perm. apply perm_skip. exact IH.
Qed.

(** Stability: elements that the comparator never orders strictly keep
    their places relative to one another. *)
Variable p : A -> bool.
Hypothesis p_ties :
  forall x y, p x = true -> p y = true -> (compareFn x y <= 0)%Q.

Lemma sort_insert_filter (x : A) (l : list A) :
  List.filter p (JS.sort_insert compareFn x l) = List.filter p (x :: l).
Proof.
  induction l as [| y l IH]; cbn.
  - reflexivity.
  - destruct (Qlt_le_dec 0 (compareFn x y)) as [Hgt | Hle]; [| reflexivity].
    cbn. rewrite IH. cbn.
    destruct (p x) eqn:Hx, (p y) eqn:Hy; try reflexivity.
    pose proof (p_ties x y Hx Hy). lra.
Qed.

Lemma Array_sort_filter (l : list A) :
  List.filter p (JS.Array_sort compareFn l) = List.filter p l.
Proof.
  induction l as [| x l IH]; cbn.
  - reflexivity.
  - rewrite sort_insert_filter. cbn. rewrite IH. reflexivity.
Qed.
End SortFacts.

(** The comparator [b.score - a.score] has the sign of the exact
    difference. *)
Lemma byScoreDesc_pos (x y : ScoredTask) :
  (0 < byScoreDesc x y)%Q <-> (score x < score y)%Q.
Proof.
  unfold byScoreDesc, Number.sub.
  destruct (binary64_sign (score y - score x)) as (Hpos & Hneg & Hzero).
  split.
  - intros H. destruct (Qlt_le_dec (score x) (score y)) as [Hlt | Hle];
      [exact Hlt | exfalso].
    destruct (Qlt_le_dec (score y - score x) 0) as [Hn | Hz].
    + specialize (Hneg Hn). lra.
    + assert (Hq : (score y - score x == 0)%Q) by lra.
      specialize (Hzero Hq). lra.
  - intros H. apply Hpos. lra.
Qed.

Lemma byScoreDesc_nonpos (x y : ScoredTask) :
  (byScoreDesc x y <= 0)%Q <-> (score y <= score x)%Q.
Proof.
  pose proof (byScoreDesc_pos x y) as H. split; intros Hle.
  - apply Qnot_lt_le. intros Hlt. apply H in Hlt. lra.
  - apply Qnot_lt_le. intros Hlt. apply H in Hlt. lra.
Qed.

Lemma sort_insert_after (x y : ScoredTask) (l : list ScoredTask) :
  (score x < score y)%Q ->
  JS.sort_insert byScoreDesc x (y :: l) = y :: JS.sort_insert byScoreDesc x l.
Proof.
  intros H. cbn [JS.sort_insert].
  destruct (Qlt_le_dec 0 (byScoreDesc x y)) as [Hgt | Hle]; [reflexivity |].
  apply byScoreDesc_nonpos in Hle. lra.
Qed.

Lemma sort_insert_before (x y : ScoredTask) (l : list ScoredTask) :
  (score y <= score x)%Q ->
  JS.sort_insert byScoreDesc x (y :: l) = x :: y :: l.
Proof.
  intros H. cbn [JS.sort_insert].
  destruct (Qlt_le_dec 0 (byScoreDesc x y)) as [Hgt | Hle]; [| reflexivity].
  apply byScoreDesc_pos in Hgt. lra.
Qed.

Lemma sort_insert_sorted (x : ScoredTask) (l : list ScoredTask) :
  StronglySorted scoreDesc l ->
  StronglySorted scoreDesc (JS.sort_insert byScoreDesc x l).
Proof.
  induction 1 as [| y l Hs IH Hall]; cbn.
  - constructor; constructor.
  - destruct (Qlt_le_dec 0 (byScoreDesc x y)) as [Hgt | Hle];
      [apply byScoreDesc_pos in Hgt | apply byScoreDesc_nonpos in Hle].
    + constructor; [exact IH |].
      apply (Permutation_Forall (Permutation_sym (sort_insert_perm _ x l))).
      constructor; [unfold scoreDesc; lra | exact Hall].
    + constructor; [constructor; assumption |].
      constructor; [unfold scoreDesc; lra |].
      eapply Forall_impl; [exact Hall |].
      unfold scoreDesc. intros z Hz. lra.
Qed.

Lemma Array_sort_sorted (l : list ScoredTask) :
  StronglySorted scoreDesc (JS.Array_sort byScoreDesc l).
Proof.
  induction l as [| x l IH]; cbn.
  - constructor.
  - apply sort_insert_sorted. exact IH.
Qed.

Lemma Array_sort_stable (s : Q) (l : list ScoredTask) :
  List.filter (fun a => Qeq_bool (score a) s) (JS.Array_sort byScoreDesc l) =
  List.filter (fun a => Qeq_bool (score a) s) l.
Proof.
  apply Array_sort_filter. intros x y Hx Hy.
  apply Qeq_bool_iff in Hx, Hy. apply byScoreDesc_nonpos. lra.
Qed.

(** The three properties fix the outcome: a list in descending order of
    score whose equal-score classes are those of the input, in the
    input's order, is the list [Array_sort] computes.  So any sort that
    meets the standard agrees with the model on this comparator. *)
Lemma sorted_stable_unique (r1 r2 : list ScoredTask) :
  StronglySorted scoreDesc r1 -> StronglySorted scoreDesc r2 ->
  (forall s,
     List.filter (fun a => Qeq_bool (score a) s) r1 =
     List.filter (fun a => Qeq_bool (score a) s) r2) ->
  r1 = r2.
Proof.
  intros Hs1. revert r2.
  induction Hs1 as [| x r1 Hs1 IH Hall1]; intros r2 Hs2 Hcls.
  - destruct r2 as [| y r2]; [reflexivity |].
    specialize (Hcls (score y)). cbn in Hcls.
    rewrite (proj2 (Qeq_bool_iff _ _) (Qeq_refl (score y))) in Hcls.
    discriminate Hcls.
  - pose proof (Hcls (score x)) as Hx. cbn in Hx.
    rewrite (proj2 (Qeq_bool_iff _ _) (Qeq_refl (score x))) in Hx.
    destruct Hs2 as [| y r2 Hs2 Hall2]; [discriminate Hx |].
    assert (Hxy : (score x <= score y)%Q).
    { assert (Hin : In x (y :: r2)).
      { eapply (proj1 (filter_In _ _ _)). rewrite <- Hx. left. reflexivity. }
      destruct Hin as [<- | Hin]; [apply Qle_refl |].
      rewrite Forall_forall in Hall2.
      exact (Hall2 x (proj2 (list_elem_of_In _ _) Hin)). }
    assert (Hyx : (score y <= score x)%Q).
    { assert (Hin : In y (x :: r1)).
      { eapply (proj1 (filter_In (fun a => Qeq_bool (score a) (score y)) _ _)).
        rewrite (Hcls (score y)). apply filter_In.
        split; [left; reflexivity | apply Qeq_bool_iff; reflexivity]. }
      destruct Hin as [<- | Hin]; [apply Qle_refl |].
      rewrite Forall_forall in Hall1.
      exact (Hall1 y (proj2 (list_elem_of_In _ _) Hin)). }
    assert (Eyx : Qeq_bool (score y) (score x) = true)
      by (apply Qeq_bool_iff; lra).
    cbn in Hx. rewrite Eyx in Hx. injection Hx as <- _.
    f_equal. apply IH; [exact Hs2 |].
    intros s. specialize (Hcls s). cbn in Hcls.
    destruct (Qeq_bool (score x) s); [injection Hcls as Hcls |]; exact Hcls.
Qed.

Lemma Array_sort_unique (l r : list ScoredTask) :
  StronglySorted scoreDesc r ->
  (forall s,
     List.filter (fun a => Qeq_bool (score a) s) r =
     List.filter (fun a => Qeq_bool (score a) s) l) ->
  r = JS.Array_sort byScoreDesc l.
Proof.
  intros Hs Hcls. apply sorted_stable_unique.
  - exact Hs.
  - apply Array_sort_sorted.
  - intros s. rewrite Hcls, Array_sort_stable. reflexivity.
Qed.

(** ** The memoised selectors *)

Lemma lruMemoize_laws : Reselect.MemoizeLaws Reselect.Lru.
Proof.
  split; cbn.
  - reflexivity.
  - intros Out k v m. rewrite Pos.eqb_refl. reflexivity.
  - intros Out k k' v o m. destruct (Pos.eqb k' k) eqn:E; [| discriminate].
    apply Pos.eqb_eq in E. intros Hk. injection Hk as <-. left. auto.
Qed.

Lemma weakMapMemoize_laws : Reselect.MemoizeLaws Reselect.WeakMap.
Proof.
  split; cbn.
  - intros Out k. apply lookup_empty.
  - intros Out k v m. apply lookup_insert_eq.
  - intros Out k k' v o m. rewrite lookup_insert.
    destruct (decide (k = k')) as [<- | Hne].
    + intros Hk. injection Hk as <-. left. auto.
    + intros Hk. right. exact Hk.
Qed.

(** With the single entry, a result is kept for an input exactly when the
    input is the object seen last. *)
Lemma lru_cached {In Out : Type} (identity : In -> positive) (input : In)
    (c : Reselect.Cache Reselect.Lru Out) (out : Out) :
  Reselect.cached identity input c = Some out <->
  Reselect.memo c = Some (identity input, out).
Proof.
  unfold Reselect.cached. cbn.
  destruct (Reselect.memo c) as [[last kept] |]; [| split; discriminate].
  destruct (Pos.eqb (identity input) last) eqn:E.
  - apply Pos.eqb_eq in E. split; intros Hk.
    + injection Hk as ->. rewrite E. reflexivity.
    + injection Hk as _ ->. reflexivity.
  - apply Pos.eqb_neq in E. split; [discriminate |].
    intros Hk. injection Hk as -> _. contradiction.
Qed.

Lemma ranked_example (a b c : Task) (now : Z) :
  (computeScore a now == 50)%Q -> (computeScore b now == 50)%Q ->
  (computeScore c now == 90)%Q ->
  ranked now [a; b; c] = map (withScore now) [c; a; b].
Proof.
  intros Ha Hb Hc.
  change (ranked now [a; b; c]) with
    (JS.sort_insert byScoreDesc (withScore now a)
       (JS.sort_insert byScoreDesc (withScore now b) [withScore now c])).
  rewrite (sort_insert_after (withScore now b) (withScore now c))
    by (cbn [score withScore]; lra).
  change (JS.sort_insert byScoreDesc (withScore now b) [])
    with [withScore now b].
  rewrite (sort_insert_after (withScore now a) (withScore now c))
    by (cbn [score withScore]; lra).
  rewrite (sort_insert_before (withScore now a) (withScore now b))
    by (cbn [score withScore]; lra).
  reflexivity.
Qed.

(** The ranking follows the scores as the code computes them.  A HIGH
    task due in 90 minutes and a MEDIUM task due in 36 minutes have the
    same exact score 400/3; the code computes 133.33333333333331 and
    133.33333333333334 and ranks the MEDIUM task first.  Two HIGH tasks
    due 118767479591 and 118767479592 ms ahead have different exact
    scores and the same computed score, and keep their input order. *)
Lemma ranked_follows_rounding :
  (exact_computeScore (mkTask "H" HIGH 5400000 PENDING 0 None) 0 ==
   exact_computeScore (mkTask "M" MEDIUM 2160000 PENDING 0 None) 0)%Q /\
  sameNumber (100 + 1 / (5400000 / 3600000) * 50)%float
    (computeScore (mkTask "H" HIGH 5400000 PENDING 0 None) 0) = true /\
  sameNumber (50 + 1 / (2160000 / 3600000) * 50)%float
    (computeScore (mkTask "M" MEDIUM 2160000 PENDING 0 None) 0) = true /\
  map (fun a => id (task a))
    (ranked 0 [mkTask "H" HIGH 5400000 PENDING 0 None;
               mkTask "M" MEDIUM 2160000 PENDING 0 None]) = ["M"; "H"] /\
  map (fun a => id (task a))
    (ranked 0 [mkTask "d" HIGH 118767479592 PENDING 0 None;
               mkTask "c" HIGH 118767479591 PENDING 0 None]) = ["d"; "c"] /\
  map (fun a => id (task a))
    (ranked 0 [mkTask "c" HIGH 118767479591 PENDING 0 None;
               mkTask "d" HIGH 118767479592 PENDING 0 None]) = ["c"; "d"].
Proof. vm_compute. repeat split. Qed.

Section SelectorFacts.
Context {M : Type -> Type} {memoize : Reselect.Memoize M}
  {laws : Reselect.MemoizeLaws M}.

Lemma cached_empty {In Out : Type} (identity : In -> positive) (input : In) :
  Reselect.cached identity input (Reselect.empty : Reselect.Cache M Out) = None.
Proof. apply Reselect.memo_lookup_empty. Qed.

Lemma createSelector_miss {In Out : Type} (identity : In -> positive)
    (resultFunc : In -> Run Out) (input : In) (rt : Runtime)
    (c : Reselect.Cache M Out) :
  Reselect.cached identity input c = None ->
  Reselect.createSelector identity resultFunc input rt c =
  (fst (resultFunc input rt), snd (resultFunc input rt),
   {| Reselect.memo :=
        Reselect.memo_store (identity input) (fst (resultFunc input rt))
          (Reselect.memo c);
      Reselect.recomputations := S (Reselect.recomputations c) |}).
Proof.
  intros Hc. unfold Reselect.createSelector, Reselect.recompute. rewrite Hc.
  destruct (resultFunc input rt); reflexivity.
Qed.

Lemma createSelector_hit {In Out : Type} (identity : In -> positive)
    (resultFunc : In -> Run Out) (input : In) (rt : Runtime)
    (c : Reselect.Cache M Out) (out : Out) :
  Reselect.cached identity input c = Some out ->
  Reselect.createSelector identity resultFunc input rt c = (out, rt, c).
Proof.
  intros Hc. unfold Reselect.createSelector. rewrite Hc. reflexivity.
Qed.

(** After a call, the cache keeps the returned result for the input. *)
Lemma createSelector_keeps {In Out : Type} (identity : In -> positive)
    (resultFunc : In -> Run Out) (input : In) (rt rt1 : Runtime)
    (c c1 : Reselect.Cache M Out) (out : Out) :
  Reselect.createSelector identity resultFunc input rt c = (out, rt1, c1) ->
  Reselect.cached identity input c1 = Some out.
Proof.
  unfold Reselect.createSelector.
  destruct (Reselect.cached identity input c) as [kept |] eqn:Hc.
  - intros E. injection E as <- _ <-. exact Hc.
  - unfold Reselect.recompute. destruct (resultFunc input rt).
    intros E. injection E as <- _ <-.
    unfold Reselect.cached. cbn. apply Reselect.memo_lookup_store.
Qed.

Lemma selectSmartSortedTasks_computes (state : RootState.t)
    (rt rt1 : Runtime) (c c1 : Reselect.Cache M (Array ScoredTask))
    (sorted : Array ScoredTask) :
  selectSmartSortedTasks state rt c = (sorted, rt1, c1) ->
  Reselect.cached ref (selectTasks state) c = None ->
  elements sorted = ranked (clock rt) (elements (selectTasks state)) /\
  Reselect.memo c1 =
  Reselect.memo_store (ref (selectTasks state)) sorted (Reselect.memo c).
Proof.
  intros Hsel Hmiss. unfold selectSmartSortedTasks in Hsel.
  rewrite createSelector_miss in Hsel by exact Hmiss.
  injection Hsel as <- _ <-. split; reflexivity.
Qed.

(** The invariant of the cache: empty caches have it, calls keep it, and
    under it every call returns a ranked list of its collection. *)
Lemma soundCache_empty (U : Array Task -> Prop) :
  soundCache U (Reselect.empty : Reselect.Cache M (Array ScoredTask)).
Proof.
  intros a out _ Hk. rewrite cached_empty in Hk. discriminate Hk.
Qed.

Lemma selectSmartSortedTasks_sound (U : Array Task -> Prop)
    (state : RootState.t) (rt rt1 : Runtime)
    (c c1 : Reselect.Cache M (Array ScoredTask)) (sorted : Array ScoredTask) :
  identityDetermines U -> U (selectTasks state) -> soundCache U c ->
  selectSmartSortedTasks state rt c = (sorted, rt1, c1) ->
  (exists now, elements sorted = ranked now (elements (selectTasks state))) /\
  soundCache U c1.
Proof.
  intros Hid HU Hsound Hsel.
  destruct (Reselect.cached ref (selectTasks state) c) as [kept |] eqn:Hc.
  - unfold selectSmartSortedTasks in Hsel.
    rewrite (createSelector_hit _ _ _ _ _ _ Hc) in Hsel.
    injection Hsel as <- _ <-.
    split; [exact (Hsound _ _ HU Hc) | exact Hsound].
  - destruct (selectSmartSortedTasks_computes _ _ _ _ _ _ Hsel Hc)
      as [Hel Hmemo].
    split; [exists (clock rt); exact Hel |].
    intros a out Ha Hk. unfold Reselect.cached in Hk. rewrite Hmemo in Hk.
    apply Reselect.memo_lookup_kept in Hk.
    destruct Hk as [[Href ->] | Hk].
    + exists (clock rt). rewrite Hel.
      rewrite (Hid a (selectTasks state) Ha HU Href). reflexivity.
    + exact (Hsound a out Ha Hk).
Qed.

(** The invariant of the status selectors: empty caches have it, the
    clock and later allocations keep it, and so does every call of the
    ranked selector. *)
Lemma viewsAgree_empty (s : TaskStatus) (rt : Runtime) :
  viewsAgree (M := M) s rt (Reselect.empty, Reselect.empty).
Proof.
  unfold viewsAgree. cbn [fst snd Reselect.empty Reselect.memo].
  split; [| split].
  - intros k a Hk. rewrite Reselect.memo_lookup_empty in Hk. discriminate Hk.
  - intros k k' a a' Hk. rewrite Reselect.memo_lookup_empty in Hk.
    discriminate Hk.
  - intros k out Hk. rewrite Reselect.memo_lookup_empty in Hk.
    discriminate Hk.
Qed.

Lemma viewsAgree_later (s : TaskStatus) (rt rt' : Runtime)
    (c : Reselect.Cache M (Array ScoredTask) *
         Reselect.Cache M (Array ScoredTask)) :
  (fresh rt <= fresh rt')%positive ->
  viewsAgree s rt c -> viewsAgree s rt' c.
Proof.
  intros Hle (H1 & H2 & H3). split; [| split].
  - intros k a Hk. specialize (H1 k a Hk). lia.
  - exact H2.
  - intros k out Hk. destruct (H3 k out Hk) as [Hlt Hout].
    split; [lia | exact Hout].
Qed.

Lemma viewsAgree_tick (s : TaskStatus) (rt : Runtime) (now : Z)
    (c : Reselect.Cache M (Array ScoredTask) *
         Reselect.Cache M (Array ScoredTask)) :
  viewsAgree s rt c -> viewsAgree s (tick now rt) c.
Proof. apply viewsAgree_later. cbn. lia. Qed.

Lemma selectSmartSortedTasks_agrees (s : TaskStatus) (state : RootState.t)
    (rt rt1 : Runtime) (c c1 cs : Reselect.Cache M (Array ScoredTask))
    (sorted : Array ScoredTask) :
  viewsAgree s rt (c, cs) ->
  selectSmartSortedTasks state rt c = (sorted, rt1, c1) ->
  viewsAgree s rt1 (c1, cs) /\ (fresh rt <= fresh rt1)%positive.
Proof.
  intros Hagree Hsel.
  destruct (Reselect.cached ref (selectTasks state) c) as [kept |] eqn:Hc.
  - unfold selectSmartSortedTasks in Hsel.
    rewrite (createSelector_hit _ _ _ _ _ _ Hc) in Hsel.
    injection Hsel as <- <- <-. split; [exact Hagree | lia].
  - unfold selectSmartSortedTasks in Hsel.
    rewrite createSelector_miss in Hsel by exact Hc.
    injection Hsel as <- <- <-.
    destruct Hagree as (H1 & H2 & H3). cbn [fst snd] in H1, H2, H3.
    split; [| cbn; lia].
    unfold viewsAgree.
    cbn [fst snd Reselect.memo smartSorted Date_now new_Array fresh].
    split; [| split].
    + intros k a Hk. apply Reselect.memo_lookup_kept in Hk.
      destruct Hk as [[_ ->] | Hk]; [cbn; lia |].
      specialize (H1 k a Hk). lia.
    + intros k k' a a' Hk Hk' Href.
      apply Reselect.memo_lookup_kept in Hk, Hk'.
      destruct Hk as [[_ ->] | Hk], Hk' as [[_ ->] | Hk'].
      * reflexivity.
      * specialize (H1 k' a' Hk'). cbn in Href. lia.
      * specialize (H1 k a Hk). cbn in Href. lia.
      * exact (H2 k k' a a' Hk Hk' Href).
    + intros k out Hk. destruct (H3 k out Hk) as [Hlt Hout].
      split; [lia |].
      intros k' a Hk' Href. apply Reselect.memo_lookup_kept in Hk'.
      destruct Hk' as [[_ ->] | Hk'].
      * cbn in Href. lia.
      * exact (Hout k' a Hk' Href).
Qed.

(** Under the invariant a status selector returns the tasks of its status
    of the ranked array, in its order, whether it finds them cached or
    computes them, and keeps the invariant. *)
Lemma selectByStatus_agrees (s : TaskStatus) (state : RootState.t)
    (rt rt' : Runtime)
    (c c' : Reselect.Cache M (Array ScoredTask) *
            Reselect.Cache M (Array ScoredTask))
    (out : Array ScoredTask) :
  viewsAgree s rt c ->
  selectByStatus s state rt c = (out, rt', c') ->
  elements out =
  List.filter (hasStatus s)
    (elements (fst (fst (selectSmartSortedTasks state rt (fst c))))) /\
  viewsAgree s rt' c' /\ (fresh rt <= fresh rt')%positive.
Proof.
  intros Hagree Hsel. destruct c as [c1 c2]. cbn [fst snd] in *.
  unfold selectByStatus in Hsel. cbn [fst snd] in Hsel.
  destruct (selectSmartSortedTasks state rt c1) as [[sorted rt1] c1']
    eqn:Hsorted.
  cbn [fst].
  destruct (selectSmartSortedTasks_agrees s _ _ _ _ _ c2 _ Hagree Hsorted)
    as [Hagree1 Hle1].
  pose proof (createSelector_keeps _ _ _ _ _ _ _ _ Hsorted) as Hkept.
  unfold Reselect.cached in Hkept.
  destruct Hagree1 as (H1 & H2 & H3). cbn [fst snd] in H1, H2, H3.
  destruct (Reselect.cached ref sorted c2) as [kept |] eqn:Hc.
  - rewrite (createSelector_hit _ _ _ _ _ _ Hc) in Hsel.
    injection Hsel as <- <- <-.
    unfold Reselect.cached in Hc.
    destruct (H3 _ _ Hc) as [_ Hout].
    split; [exact (Hout _ _ Hkept eq_refl) |].
    split; [| exact Hle1].
    split; [exact H1 | split; [exact H2 | exact H3]].
  - rewrite createSelector_miss in Hsel by exact Hc.
    injection Hsel as <- <- <-.
    split; [reflexivity |].
    split; [| cbn; lia].
    unfold viewsAgree.
    cbn [fst snd Reselect.memo onlyStatus new_Array fresh].
    split; [| split].
    + intros k a Hk. specialize (H1 k a Hk). lia.
    + exact H2.
    + intros k o Hk. apply Reselect.memo_lookup_kept in Hk.
      destruct Hk as [[-> ->] | Hk].
      * split; [specialize (H1 _ _ Hkept); lia |].
        intros k' a Hk' Href. cbn [elements].
        rewrite (H2 _ _ _ _ Hk' Hkept Href). reflexivity.
      * destruct (H3 k o Hk) as [Hlt Hout]. split; [lia | exact Hout].
Qed.

(** A call of one status selector keeps the invariant of the other, with
    which it shares the cache of the ranked selector. *)
Lemma selectByStatus_keeps_other (s s' : TaskStatus) (state : RootState.t)
    (rt rt' : Runtime) (c1 c1' cs cs' cs'' : Reselect.Cache M (Array ScoredTask))
    (out : Array ScoredTask) :
  viewsAgree s rt (c1, cs) ->
  selectByStatus s' state rt (c1, cs') = (out, rt', (c1', cs'')) ->
  viewsAgree s rt' (c1', cs).
Proof.
  intros Hagree Hsel. unfold selectByStatus in Hsel. cbn [fst snd] in Hsel.
  destruct (selectSmartSortedTasks state rt c1) as [[sorted rt1] c1x]
    eqn:Hsorted.
  destruct (selectSmartSortedTasks_agrees s _ _ _ _ _ cs _ Hagree Hsorted)
    as [Hagree1 Hle1].
  destruct (Reselect.cached ref sorted cs') as [kept |] eqn:Hc.
  - rewrite (createSelector_hit _ _ _ _ _ _ Hc) in Hsel.
    injection Hsel as _ <- <- _. exact Hagree1.
  - rewrite createSelector_miss in Hsel by exact Hc.
    injection Hsel as _ <- <- _.
    apply (viewsAgree_later s rt1); [cbn; lia | exact Hagree1].
Qed.

(** C2.  [selectSmartSortedTasks] returns the ranked list of the
    collection: the input tasks, each with its [computeScore] at one
    shared [now] (the clock reading of the call that computed the list),
    in descending order of score, tasks of equal score keeping their input
    order, which fixes the list (input [A(50), B(50), C(90)] gives
    [C, A, B]).  [selectPendingTasks] and [selectCompletedTasks] return
    the PENDING and the COMPLETED tasks of that same list, in its
    order, whether they find them cached or compute them: their caches
    agree with the runtime from the empty caches on, and every call keeps
    that. *)
Theorem selectSmartSortedTasks_stable_sort (state : RootState.t)
    (rt rt1 : Runtime) (c c1 : Reselect.Cache M (Array ScoredTask))
    (sorted : Array ScoredTask)
    (Hsel : selectSmartSortedTasks state rt c = (sorted, rt1, c1)) :
  (Reselect.cached ref (selectTasks state) c = None ->
   elements sorted = ranked (clock rt) (elements (selectTasks state))) /\
  (forall U : Array Task -> Prop,
     identityDetermines U -> U (selectTasks state) -> soundCache U c ->
     (exists now,
        elements sorted = ranked now (elements (selectTasks state))) /\
     soundCache U c1) /\
  (forall now tasks,
     Permutation (ranked now tasks) (map (withScore now) tasks) /\
     StronglySorted scoreDesc (ranked now tasks) /\
     (forall s,
        List.filter (fun a => Qeq_bool (score a) s) (ranked now tasks) =
        List.filter (fun a => Qeq_bool (score a) s)
          (map (withScore now) tasks)) /\
     (forall r,
        StronglySorted scoreDesc r ->
        (forall s,
           List.filter (fun a => Qeq_bool (score a) s) r =
           List.filter (fun a => Qeq_bool (score a) s)
             (map (withScore now) tasks)) ->
        r = ranked now tasks)) /\
  (forall s rt0,
     viewsAgree (M := M) s rt0 (Reselect.empty, Reselect.empty)) /\
  (forall s cs, viewsAgree s rt (c, cs) -> viewsAgree s rt1 (c1, cs)) /\
  (forall s now rt0 cs,
     viewsAgree s rt0 cs -> viewsAgree s (tick now rt0) cs) /\
  (forall rtP cP,
     viewsAgree PENDING rtP (c1, cP) ->
     elements (fst (fst (selectPendingTasks state rtP (c1, cP)))) =
     List.filter (hasStatus PENDING) (elements sorted) /\
     viewsAgree PENDING (snd (fst (selectPendingTasks state rtP (c1, cP))))
       (snd (selectPendingTasks state rtP (c1, cP))) /\
     forall cC,
       viewsAgree COMPLETED rtP (c1, cC) ->
       viewsAgree COMPLETED
         (snd (fst (selectPendingTasks state rtP (c1, cP))))
         (fst (snd (selectPendingTasks state rtP (c1, cP))), cC)) /\
  (forall rtC cC,
     viewsAgree COMPLETED rtC (c1, cC) ->
     elements (fst (fst (selectCompletedTasks state rtC (c1, cC)))) =
     List.filter (hasStatus COMPLETED) (elements sorted) /\
     viewsAgree COMPLETED
       (snd (fst (selectCompletedTasks state rtC (c1, cC))))
       (snd (selectCompletedTasks state rtC (c1, cC))) /\
     forall cP,
       viewsAgree PENDING rtC (c1, cP) ->
       viewsAgree PENDING
         (snd (fst (selectCompletedTasks state rtC (c1, cC))))
         (fst (snd (selectCompletedTasks state rtC (c1, cC))), cP)) /\
  (forall a b c0 now,
     (computeScore a now == 50)%Q -> (computeScore b now == 50)%Q ->
     (computeScore c0 now == 90)%Q ->
     ranked now [a; b; c0] = map (withScore now) [c0; a; b]).
Proof.
  assert (Hstatus : forall s s' rtS cS,
            viewsAgree s rtS (c1, cS) ->
            elements (fst (fst (selectByStatus s state rtS (c1, cS)))) =
            List.filter (hasStatus s) (elements sorted) /\
            viewsAgree s (snd (fst (selectByStatus s state rtS (c1, cS))))
              (snd (selectByStatus s state rtS (c1, cS))) /\
            forall cO,
              viewsAgree s' rtS (c1, cO) ->
              viewsAgree s'
                (snd (fst (selectByStatus s state rtS (c1, cS))))
                (fst (snd (selectByStatus s state rtS (c1, cS))), cO)).
  { intros s s' rtS cS Hagree.
    destruct (selectByStatus s state rtS (c1, cS)) as [[out rt'] [c1' cS']]
      eqn:Hcall.
    cbn [fst snd].
    destruct (selectByStatus_agrees s _ _ _ _ _ _ Hagree Hcall)
      as (Hout & Hkeep & _).
    cbn [fst] in Hout.
    pose proof Hsel as Hkept. unfold selectSmartSortedTasks in Hkept.
    apply createSelector_keeps in Hkept.
    unfold selectSmartSortedTasks in Hout.
    rewrite (createSelector_hit _ _ _ _ _ _ Hkept) in Hout.
    cbn [fst] in Hout.
    split; [exact Hout |]. split; [exact Hkeep |].
    intros cO HagreeO.
    exact (selectByStatus_keeps_other s' s _ _ _ _ _ _ _ _ _ HagreeO Hcall). }
  split; [| split; [| split; [| split; [| split; [| split;
    [| split; [| split]]]]]]].
  - intros Hmiss.
    apply (selectSmartSortedTasks_computes _ _ _ _ _ _ Hsel Hmiss).
  - intros U Hid HU Hsound.
    exact (selectSmartSortedTasks_sound U _ _ _ _ _ _ Hid HU Hsound Hsel).
  - intros now tasks. unfold ranked.
    split; [apply Array_sort_perm |].
    split; [apply Array_sort_sorted |].
    split; [intros s; apply Array_sort_stable | apply Array_sort_unique].
  - intros s rt0. apply viewsAgree_empty.
  - intros s cs Hagree.
    exact (proj1 (selectSmartSortedTasks_agrees s _ _ _ _ _ _ _ Hagree Hsel)).
  - intros s now rt0 cs. apply viewsAgree_tick.
  - intros rtP cP. apply (Hstatus PENDING COMPLETED).
  - intros rtC cC. apply (Hstatus COMPLETED PENDING).
  - apply ranked_example.
Qed.

(** C6, amended.  The ranked projection is memoised on the identity of
    the task collection.  After any call, a call with a state whose
    collection is the same object returns the cached array without
    recomputing, whatever the clock shows by then.  A call recomputes
    exactly when the cache keeps no result for the collection object it
    is given, whether or not the scores differ, and the recomputed list
    is scored at the instant the clock shows at that call: [now] is read
    inside the projection, the caller does not supply it. *)
Theorem selectSmartSortedTasks_memoised (state : RootState.t)
    (rt rt1 : Runtime) (c c1 : Reselect.Cache M (Array ScoredTask))
    (out : Array ScoredTask)
    (Hsel : selectSmartSortedTasks state rt c = (out, rt1, c1)) :
  (forall state' rt',
     ref (selectTasks state') = ref (selectTasks state) ->
     selectSmartSortedTasks state' rt' c1 = (out, rt', c1)) /\
  (forall state' rt' kept,
     Reselect.cached ref (selectTasks state') c1 = Some kept ->
     selectSmartSortedTasks state' rt' c1 = (kept, rt', c1)) /\
  (forall state' rt',
     Reselect.cached ref (selectTasks state') c1 = None ->
     Reselect.recomputations (snd (selectSmartSortedTasks state' rt' c1)) =
     S (Reselect.recomputations c1) /\
     elements (fst (fst (selectSmartSortedTasks state' rt' c1))) =
     ranked (clock rt') (elements (selectTasks state'))).
Proof.
  unfold selectSmartSortedTasks in Hsel.
  apply createSelector_keeps in Hsel.
  split; [| split].
  - intros state' rt' Href. unfold selectSmartSortedTasks.
    apply createSelector_hit. unfold Reselect.cached in *.
    rewrite Href. exact Hsel.
  - intros state' rt' kept Hk. unfold selectSmartSortedTasks.
    apply createSelector_hit. exact Hk.
  - intros state' rt' Hnone. unfold selectSmartSortedTasks.
    rewrite createSelector_miss by exact Hnone.
    split; reflexivity.
Qed.

End SelectorFacts.

Lemma selectSmartSortedTasks_witness :
  map (fun a => id (task a)) (elements (fst (fst (firstCall 0)))) =
  ["C"; "A"; "B"; "D"] /\
  map (fun a => id (task a))
    (elements (fst (fst (selectPendingTasks sampleState
                           (tick 1000 (snd (fst (firstCall 0))))
                           (snd (firstCall 0), Reselect.empty))))) =
  ["C"; "A"; "B"].
Proof.
  pose proof (selectSmartSortedTasks_stable_sort (laws := lruMemoize_laws)
                sampleState (tick 0 startRuntime)
                (snd (fst (firstCall 0)))
                Reselect.empty (snd (firstCall 0))
                (fst (fst (firstCall 0))) eq_refl)
    as (Hel & _ & _ & Hempty & Hstep & Htick & Hp & _).
  split.
  - rewrite Hel by reflexivity. vm_compute. reflexivity.
  - destruct (Hp (tick 1000 (snd (fst (firstCall 0)))) Reselect.empty)
      as [Hout _].
    + apply Htick, Hstep, Hempty.
    + rewrite Hout. vm_compute. reflexivity.
Defined.

(** C6, as stated, fails: the caller passes the store state only, and the
    projection reads the clock itself.  The same state, from the same
    empty cache, gives the scores 90, 50, 50, 0 when the clock shows 0 and
    100, 60, 60, 0 when it shows 900000. *)
Lemma selectSmartSortedTasks_reads_clock :
  Forall2 Qeq (map score (elements (fst (fst (firstCall 0)))))
    [90; 50; 50; 0]%Q /\
  Forall2 Qeq (map score (elements (fst (fst (firstCall 900000)))))
    [100; 60; 60; 0]%Q /\
  fst (fst (firstCall 0)) <> fst (fst (firstCall 900000)).
Proof.
  split; [| split].
  - vm_compute. repeat constructor.
  - vm_compute. repeat constructor.
  - intros Heq.
    apply (f_equal (fun a => map (fun s => Qnum (Qred (score s))) (elements a)))
      in Heq.
    vm_compute in Heq. discriminate Heq.
Qed.

Lemma selectSmartSortedTasks_memoised_witness :
  selectSmartSortedTasks sampleState (tick 900000 startRuntime)
    (snd (firstCall 0)) =
  (fst (fst (firstCall 0)), tick 900000 startRuntime, snd (firstCall 0)).
Proof.
  refine (proj1 (selectSmartSortedTasks_memoised (laws := lruMemoize_laws)
                   sampleState (tick 0 startRuntime)
                   (snd (fst (firstCall 0)))
                   Reselect.empty _ _ _) sampleState _ _);
    reflexivity.
Defined.

(** ** What the score reads *)

Lemma computeScore_inputs (a b : Task) (now : Z) :
  sameScoreInputs a b -> computeScore a now = computeScore b now.
Proof.
  intros (Hp & Hd & Hs). unfold computeScore. rewrite Hp, Hd, Hs. reflexivity.
Qed.

Lemma sort_insert_sameRank (x x' : ScoredTask) (l l' : list ScoredTask) :
  sameRank x x' -> Forall2 sameRank l l' ->
  Forall2 sameRank (JS.sort_insert byScoreDesc x l)
    (JS.sort_insert byScoreDesc x' l').
Proof.
  intros Hx Hl. induction Hl as [| y y' l l' Hy Hl IH]; cbn.
  - constructor; [exact Hx | constructor].
  - assert (E : byScoreDesc x y = byScoreDesc x' y').
    { unfold byScoreDesc. destruct Hx as [_ ->], Hy as [_ ->]. reflexivity. }
    destruct (Qlt_le_dec 0 (byScoreDesc x y)) as [H1 | H1],
             (Qlt_le_dec 0 (byScoreDesc x' y')) as [H2 | H2];
      rewrite E in H1; try lra.
    + constructor; [exact Hy | exact IH].
    + constructor; [exact Hx |]. constructor; [exact Hy | exact Hl].
Qed.

Lemma Array_sort_sameRank (l l' : list ScoredTask) :
  Forall2 sameRank l l' ->
  Forall2 sameRank (JS.Array_sort byScoreDesc l) (JS.Array_sort byScoreDesc l').
Proof.
  induction 1 as [| x x' l l' Hx Hl IH]; cbn.
  - constructor.
  - apply sort_insert_sameRank; assumption.
Qed.

Lemma withScore_sameRank (now : Z) (l l' : list Task) :
  Forall2 editOf l l' ->
  Forall2 sameRank (map (withScore now) l) (map (withScore now) l').
Proof.
  induction 1 as [| a b l l' [Hid Hin] Hl IH]; cbn.
  - constructor.
  - constructor; [| exact IH].
    split; [exact Hid | cbn; apply computeScore_inputs; exact Hin].
Qed.

Lemma sameRank_columns (l l' : list ScoredTask) :
  Forall2 sameRank l l' ->
  map (fun s => id (task s)) l = map (fun s => id (task s)) l' /\
  map score l = map score l'.
Proof.
  induction 1 as [| x y l l' [Hid Hsc] Hl [IH1 IH2]]; cbn.
  - split; reflexivity.
  - rewrite Hid, Hsc, IH1, IH2. split; reflexivity.
Qed.

(** C10.  Two non-COMPLETED tasks that agree on priority, deadline and
    status have the same score at every [now]: the score does not read
    the title, the description, the tags, the subtasks, [createdAt] or
    [completedAt].  Hence editing those fields of tasks of a collection
    changes neither the scores nor the order of the ranked view. *)
Theorem computeScore_independent (a b : Task) (now : Z) (l l' : list Task)
    (Ha : status a <> COMPLETED) (Hb : status b <> COMPLETED)
    (Hab : sameScoreInputs a b) (Hl : Forall2 editOf l l') :
  computeScore a now = computeScore b now /\
  map (fun s => id (task s))
    (JS.Array_sort byScoreDesc (map (withScore now) l)) =
  map (fun s => id (task s))
    (JS.Array_sort byScoreDesc (map (withScore now) l')) /\
  map score (JS.Array_sort byScoreDesc (map (withScore now) l)) =
  map score (JS.Array_sort byScoreDesc (map (withScore now) l')).
Proof.
  split; [apply computeScore_inputs; exact Hab |].
  apply sameRank_columns, Array_sort_sameRank, withScore_sameRank. exact Hl.
Qed.

(** ** Notification scheduling *)

Lemma suffixes_differ (i : string) :
  (i ++ REMINDER_SUFFIX)%string <> (i ++ DEADLINE_SUFFIX)%string.
Proof.
  induction i as [| ch i IH]; cbn.
  - discriminate.
  - intros E. injection E as E. exact (IH E).
Qed.

Lemma grantedb_spec (d : Notifee.Device) :
  grantedb d = true <-> permissionGranted d.
Proof.
  unfold grantedb, permissionGranted, denied. split.
  - destruct (Notifee.permission d) as [[s |] | reason]; try discriminate.
    intros Hg. exists s. split; [reflexivity |].
    destruct (Notifee.authorizationStatus s <? 1) eqn:E; [discriminate |].
    apply Z.ltb_ge in E. exact E.
  - intros (s & -> & Hs). apply negb_true_iff, Z.ltb_ge. exact Hs.
Qed.

(** The requests of one [scheduleTaskNotifications] call, in order. *)
Lemma schedule_requests (t : Task) (d : Notifee.Device) :
  Notifee.requests (snd (scheduleTaskNotifications t d)) =
  Notifee.requests d ++
  Notifee.RequestPermission ::
  (if grantedb d && (Notifee.clock d <? deadline t - 3600000)
   then [reminderRequest t] else []) ++
  (if grantedb d && (Notifee.clock d <? deadline t)
   then [deadlineRequest t] else []).
Proof.
  unfold scheduleTaskNotifications, grantedb, reminderRequest, deadlineRequest,
    Notifee.bind, Notifee.start, Notifee.await, Notifee.ret, Notifee.Date_now,
    Notifee.requestPermission, Notifee.createTriggerNotification.
  cbn.
  destruct (Notifee.permission d) as [o | reason]; cbn; [| reflexivity].
  destruct (denied o); cbn; [reflexivity |].
  change (deadline t - ONE_HOUR_MS) with (deadline t - 3600000).
  destruct (Notifee.clock d <? deadline t - 3600000); cbn;
    destruct (Notifee.clock d <? deadline t); cbn;
    repeat match goal with
      | |- context [Notifee.failing d ?r] => destruct (Notifee.failing d r); cbn
      end;
    rewrite <- ?app_assoc; reflexivity.
Qed.

Lemma requestsSince_app (d d' : Notifee.Device) (rs : list Notifee.Request) :
  Notifee.requests d' = Notifee.requests d ++ rs -> requestsSince d d' = rs.
Proof.
  intros E. unfold requestsSince. rewrite E. apply drop_app_length.
Qed.

Ltac run_schedule :=
  unfold scheduleTaskNotifications, Notifee.bind, Notifee.start,
    Notifee.await, Notifee.ret, Notifee.Date_now, Notifee.requestPermission,
    Notifee.createTriggerNotification;
  cbn.

Lemma schedule_denied (t : Task) (d : Notifee.Device)
    (o : option Notifee.NotificationSettings) :
  Notifee.permission d = Notifee.Resolved o -> denied o = true ->
  scheduleTaskNotifications t d =
  (Notifee.Resolved tt, Notifee.logged Notifee.RequestPermission d).
Proof.
  intros Hp Hg. run_schedule. rewrite Hp. cbn. rewrite Hg. reflexivity.
Qed.

Lemma schedule_resolves (t : Task) (d : Notifee.Device)
    (o : option Notifee.NotificationSettings) :
  Notifee.permission d = Notifee.Resolved o ->
  (forall r, Notifee.failing d r = None) \/ deadline t <= Notifee.clock d ->
  fst (scheduleTaskNotifications t d) = Notifee.Resolved tt.
Proof.
  intros Hp Hok. run_schedule. rewrite Hp. cbn.
  destruct (denied o); cbn; [reflexivity |].
  change (deadline t - ONE_HOUR_MS) with (deadline t - 3600000).
  destruct Hok as [Hok | Hpast].
  - destruct (Notifee.clock d <? deadline t - 3600000); cbn;
      destruct (Notifee.clock d <? deadline t); cbn;
      repeat match goal with
        | |- context [Notifee.failing d ?r] =>
            rewrite (Hok r); cbn
        end;
      reflexivity.
  - assert (E1 : (Notifee.clock d <? deadline t - 3600000) = false)
      by (apply Z.ltb_ge; lia).
    assert (E2 : (Notifee.clock d <? deadline t) = false)
      by (apply Z.ltb_ge; lia).
    rewrite E1. cbn. rewrite E2. reflexivity.
Qed.

Lemma permissionDenied_spec (d : Notifee.Device) :
  permissionDenied d ->
  exists o, Notifee.permission d = Notifee.Resolved o /\ denied o = true.
Proof.
  intros (o & Hp & Hs). exists o. split; [exact Hp |].
  destruct o as [s |]; [| reflexivity].
  cbn. apply Z.ltb_lt, Hs. reflexivity.
Qed.

Lemma submits_reminder (t : Task) (rs : list Notifee.Request) :
  In (reminderRequest t) rs -> submits rs (id t ++ REMINDER_SUFFIX)%string.
Proof. intros Hin. eexists _, _. split; [exact Hin | reflexivity]. Qed.

Lemma submits_deadline (t : Task) (rs : list Notifee.Request) :
  In (deadlineRequest t) rs -> submits rs (id t ++ DEADLINE_SUFFIX)%string.
Proof. intros Hin. eexists _, _. split; [exact Hin | reflexivity]. Qed.

(** The delivery requests of a call are the reminder request, when its
    guard holds, followed by the deadline request, when its guard holds. *)
Lemma schedule_requestsSince (t : Task) (d : Notifee.Device) :
  requestsSince d (snd (scheduleTaskNotifications t d)) =
  Notifee.RequestPermission ::
  (if grantedb d && (Notifee.clock d <? deadline t - 3600000)
   then [reminderRequest t] else []) ++
  (if grantedb d && (Notifee.clock d <? deadline t)
   then [deadlineRequest t] else []).
Proof. apply requestsSince_app, schedule_requests. Qed.

Lemma schedule_submits (t : Task) (d : Notifee.Device) (i : string) :
  submits (requestsSince d (snd (scheduleTaskNotifications t d))) i <->
  (i = (id t ++ REMINDER_SUFFIX)%string /\
   grantedb d && (Notifee.clock d <? deadline t - 3600000) = true) \/
  (i = (id t ++ DEADLINE_SUFFIX)%string /\
   grantedb d && (Notifee.clock d <? deadline t) = true).
Proof.
  rewrite schedule_requestsSince. split.
  - intros (n & tr & Hin & Hid).
    destruct Hin as [Hin | Hin]; [discriminate Hin |].
    apply in_app_or in Hin. destruct Hin as [Hin | Hin].
    + destruct (grantedb d && (Notifee.clock d <? deadline t - 3600000));
        [| destruct Hin].
      destruct Hin as [Hin | []]. injection Hin as <- _.
      left. split; [symmetry; exact Hid | reflexivity].
    + destruct (grantedb d && (Notifee.clock d <? deadline t));
        [| destruct Hin].
      destruct Hin as [Hin | []]. injection Hin as <- _.
      right. split; [symmetry; exact Hid | reflexivity].
  - intros [[-> Hg] | [-> Hg]]; rewrite Hg.
    + apply submits_reminder. right. apply in_or_app. left. left. reflexivity.
    + apply submits_deadline. right. apply in_or_app. right. left. reflexivity.
Qed.

Lemma schedule_create_cases (t : Task) (d : Notifee.Device)
    (n : Notifee.Notification) (tr : Notifee.TimestampTrigger) :
  In (Notifee.CreateTriggerNotification n tr)
    (requestsSince d (snd (scheduleTaskNotifications t d))) ->
  Notifee.CreateTriggerNotification n tr = reminderRequest t \/
  Notifee.CreateTriggerNotification n tr = deadlineRequest t.
Proof.
  rewrite schedule_requestsSince. intros Hin.
  destruct Hin as [Hin | Hin]; [discriminate Hin |].
  apply in_app_or in Hin. destruct Hin as [Hin | Hin].
  - destruct (grantedb d && (Notifee.clock d <? deadline t - 3600000));
      [| destruct Hin].
    destruct Hin as [Hin | []]. left. symmetry. exact Hin.
  - destruct (grantedb d && (Notifee.clock d <? deadline t));
      [| destruct Hin].
    destruct Hin as [Hin | []]. right. symmetry. exact Hin.
Qed.

(** C7.  [scheduleTaskNotifications] submits a delivery request for a
    timer exactly when permission was granted and the timer's time
    ([deadline − 1 hour] for the reminder, [deadline] for the deadline
    alert) is strictly after [now]; it submits no other delivery request.
    When permission is not granted the call does nothing and resolves; a
    timer whose time has passed is skipped and the call still resolves;
    for a task whose deadline has passed no delivery request is
    submitted. *)
Theorem scheduleTaskNotifications_guards (t : Task) (d : Notifee.Device) :
  (submits (requestsSince d (snd (scheduleTaskNotifications t d)))
     (id t ++ "-reminder")%string <->
   permissionGranted d /\ Notifee.clock d < deadline t - 3600000) /\
  (submits (requestsSince d (snd (scheduleTaskNotifications t d)))
     (id t ++ "-deadline")%string <->
   permissionGranted d /\ Notifee.clock d < deadline t) /\
  (forall i,
     submits (requestsSince d (snd (scheduleTaskNotifications t d))) i ->
     i = (id t ++ "-reminder")%string \/ i = (id t ++ "-deadline")%string) /\
  (permissionDenied d ->
   scheduleTaskNotifications t d =
   (Notifee.Resolved tt, Notifee.logged Notifee.RequestPermission d)) /\
  (forall o,
     Notifee.permission d = Notifee.Resolved o ->
     (forall r, Notifee.failing d r = None) ->
     fst (scheduleTaskNotifications t d) = Notifee.Resolved tt) /\
  (deadline t <= Notifee.clock d ->
   (forall i,
      ~ submits (requestsSince d (snd (scheduleTaskNotifications t d))) i) /\
   (forall o,
      Notifee.permission d = Notifee.Resolved o ->
      fst (scheduleTaskNotifications t d) = Notifee.Resolved tt)).
Proof.
  pose proof (suffixes_differ (id t)) as Hne.
  split; [| split; [| split; [| split; [| split]]]].
  - rewrite schedule_submits, !andb_true_iff, !Z.ltb_lt, grantedb_spec.
    split.
    + intros [[_ Hg] | [E _]]; [exact Hg | contradiction].
    + intros Hg. left. split; [reflexivity | exact Hg].
  - rewrite schedule_submits, !andb_true_iff, !Z.ltb_lt, grantedb_spec.
    split.
    + intros [[E _] | [_ Hg]]; [symmetry in E; contradiction | exact Hg].
    + intros Hg. right. split; [reflexivity | exact Hg].
  - intros i Hi. apply schedule_submits in Hi.
    destruct Hi as [[-> _] | [-> _]]; [left | right]; reflexivity.
  - intros Hden. apply permissionDenied_spec in Hden.
    destruct Hden as (o & Hp & Hg). eapply schedule_denied; eassumption.
  - intros o Hp Hok. eapply schedule_resolves; [exact Hp | left; exact Hok].
  - intros Hpast. split.
    + intros i Hi. apply schedule_submits in Hi.
      rewrite !andb_true_iff, !Z.ltb_lt in Hi.
      destruct Hi as [[_ [_ Hlt]] | [_ [_ Hlt]]]; lia.
    + intros o Hp. eapply schedule_resolves; [exact Hp | right; exact Hpast].
Qed.

(** C8.  Every delivery request [scheduleTaskNotifications] submits for a
    task is keyed either by [id + "-reminder"] or by [id + "-deadline"].
    The reminder request fires at [deadline − 1 hour] and carries no
    alarm-manager flag; the deadline request fires at [deadline] and
    carries [allowWhileIdle: true]. *)
Theorem scheduleTaskNotifications_triggers (t : Task) (d : Notifee.Device)
    (n : Notifee.Notification) (tr : Notifee.TimestampTrigger)
    (Hin : In (Notifee.CreateTriggerNotification n tr)
             (requestsSince d (snd (scheduleTaskNotifications t d)))) :
  (Notifee.id n = (id t ++ "-reminder")%string \/
   Notifee.id n = (id t ++ "-deadline")%string) /\
  (Notifee.id n = (id t ++ "-reminder")%string ->
   Notifee.type tr = Notifee.TIMESTAMP /\
   Notifee.timestamp tr = deadline t - 3600000 /\
   Notifee.alarmManager tr = None) /\
  (Notifee.id n = (id t ++ "-deadline")%string ->
   Notifee.type tr = Notifee.TIMESTAMP /\
   Notifee.timestamp tr = deadline t /\
   Notifee.alarmManager tr = Some {| Notifee.allowWhileIdle := true |}).
Proof.
  pose proof (suffixes_differ (id t)) as Hne.
  destruct (schedule_create_cases t d n tr Hin) as [E | E];
    injection E as -> ->; cbn.
  - split; [left; reflexivity |]. split; [intros _; repeat split |].
    intros E. contradiction.
  - split; [right; reflexivity |]. split; [| intros _; repeat split].
    intros E. symmetry in E. contradiction.
Qed.

Ltac run_cancel :=
  unfold cancelTaskNotifications, Notifee.bind, Notifee.start, Notifee.await,
    Notifee.ret, Notifee.cancelTriggerNotification;
  cbn.

Lemma cancel_requests (taskId : string) (d : Notifee.Device) :
  Notifee.requests (snd (cancelTaskNotifications taskId d)) =
  Notifee.requests d ++
  [Notifee.CancelTriggerNotification (taskId ++ REMINDER_SUFFIX);
   Notifee.CancelTriggerNotification (taskId ++ DEADLINE_SUFFIX)].
Proof.
  run_cancel.
  repeat match goal with
    | |- context [Notifee.failing d ?r] => destruct (Notifee.failing d r); cbn
    end;
    rewrite <- ?app_assoc; reflexivity.
Qed.

Lemma cancel_resolves (taskId : string) (d : Notifee.Device) :
  Notifee.failing d
    (Notifee.CancelTriggerNotification (taskId ++ REMINDER_SUFFIX)) = None ->
  Notifee.failing d
    (Notifee.CancelTriggerNotification (taskId ++ DEADLINE_SUFFIX)) = None ->
  fst (cancelTaskNotifications taskId d) = Notifee.Resolved tt /\
  Notifee.triggers (snd (cancelTaskNotifications taskId d)) =
  delete (taskId ++ DEADLINE_SUFFIX)%string
    (delete (taskId ++ REMINDER_SUFFIX)%string (Notifee.triggers d)).
Proof.
  intros H1 H2. run_cancel. rewrite H1. cbn. rewrite H2. cbn.
  split; reflexivity.
Qed.

(** C9.  [cancelTaskNotifications(taskId)] requests, whatever the state of
    the service, the cancellation of exactly the two ids
    [taskId + "-reminder"] and [taskId + "-deadline"], which are the ids
    under which [scheduleTaskNotifications] submits the requests of a task
    with that id.  Unless the service fails a call, it resolves, and it
    leaves the triggers as they are when none exists under those ids. *)
Theorem cancelTaskNotifications_unconditional (taskId : string)
    (d : Notifee.Device) :
  requestsSince d (snd (cancelTaskNotifications taskId d)) =
  [Notifee.CancelTriggerNotification (taskId ++ "-reminder");
   Notifee.CancelTriggerNotification (taskId ++ "-deadline")] /\
  (forall (t : Task) (d0 : Notifee.Device) n tr,
     id t = taskId ->
     In (Notifee.CreateTriggerNotification n tr)
       (requestsSince d0 (snd (scheduleTaskNotifications t d0))) ->
     In (Notifee.CancelTriggerNotification (Notifee.id n))
       (requestsSince d (snd (cancelTaskNotifications taskId d)))) /\
  ((forall r, Notifee.failing d r = None) ->
   fst (cancelTaskNotifications taskId d) = Notifee.Resolved tt /\
   Notifee.triggers (snd (cancelTaskNotifications taskId d)) =
   delete (taskId ++ "-deadline")%string
     (delete (taskId ++ "-reminder")%string (Notifee.triggers d))) /\
  ((forall r, Notifee.failing d r = None) ->
   Notifee.triggers d !! (taskId ++ "-reminder")%string = None ->
   Notifee.triggers d !! (taskId ++ "-deadline")%string = None ->
   fst (cancelTaskNotifications taskId d) = Notifee.Resolved tt /\
   Notifee.triggers (snd (cancelTaskNotifications taskId d)) =
   Notifee.triggers d).
Proof.
  assert (Hreq : requestsSince d (snd (cancelTaskNotifications taskId d)) =
                 [Notifee.CancelTriggerNotification (taskId ++ "-reminder");
                  Notifee.CancelTriggerNotification (taskId ++ "-deadline")])
    by apply requestsSince_app, cancel_requests.
  split; [exact Hreq |]. split; [| split].
  - intros t d0 n tr Hid Hin. rewrite Hreq.
    destruct (schedule_create_cases t d0 n tr Hin) as [E | E];
      injection E as -> _; cbn; rewrite Hid; [left | right; left];
      reflexivity.
  - intros Hok. apply cancel_resolves; apply Hok.
  - intros Hok Hr Hd.
    destruct (cancel_resolves taskId d (Hok _) (Hok _)) as [Hres Htr].
    split; [exact Hres |]. rewrite Htr.
    rewrite (delete_id (Notifee.triggers d) _ Hr).
    apply delete_id. exact Hd.
Qed.

Lemma scheduleTaskNotifications_guards_witness :
  submits
    (requestsSince (sampleDevice 0 1)
       (snd (scheduleTaskNotifications sampleTask (sampleDevice 0 1))))
    "t1-reminder" /\
  scheduleTaskNotifications sampleTask (sampleDevice 0 0) =
  (Notifee.Resolved tt,
   Notifee.logged Notifee.RequestPermission (sampleDevice 0 0)).
Proof.
  pose proof (scheduleTaskNotifications_guards sampleTask (sampleDevice 0 1))
    as (Hrem & _).
  pose proof (scheduleTaskNotifications_guards sampleTask (sampleDevice 0 0))
    as (_ & _ & _ & Hden & _).
  split.
  - apply Hrem. split; [| cbn; lia].
    eexists. split; [reflexivity | cbn; lia].
  - apply Hden. eexists. split; [reflexivity |].
    intros s E. injection E as <-. cbn. lia.
Defined.

Lemma scheduleTaskNotifications_triggers_witness :
  Notifee.timestamp
    {| Notifee.type := Notifee.TIMESTAMP;
       Notifee.timestamp := 5000000;
       Notifee.alarmManager := Some {| Notifee.allowWhileIdle := true |} |} =
  deadline sampleTask /\
  Notifee.alarmManager
    {| Notifee.type := Notifee.TIMESTAMP;
       Notifee.timestamp := 5000000;
       Notifee.alarmManager := Some {| Notifee.allowWhileIdle := true |} |} =
  Some {| Notifee.allowWhileIdle := true |}.
Proof.
  pose proof (scheduleTaskNotifications_triggers sampleTask (sampleDevice 0 1)
                (deadlineNotification sampleTask)
                {| Notifee.type := Notifee.TIMESTAMP;
                   Notifee.timestamp := 5000000;
                   Notifee.alarmManager :=
                     Some {| Notifee.allowWhileIdle := true |} |})
    as Hthm.
  destruct Hthm as (_ & _ & Hdl).
  - vm_compute. right. right. left. reflexivity.
  - destruct Hdl as (_ & Hts & Ham); [reflexivity |].
    split; [exact Hts | exact Ham].
Defined.

Lemma cancelTaskNotifications_witness :
  fst (cancelTaskNotifications "unknown" (sampleDevice 0 1)) =
  Notifee.Resolved tt /\
  Notifee.triggers
    (snd (cancelTaskNotifications "unknown" (sampleDevice 0 1))) =
  Notifee.triggers (sampleDevice 0 1).
Proof.
  pose proof (cancelTaskNotifications_unconditional "unknown"
                (sampleDevice 0 1))
    as (_ & _ & _ & Hnoop).
  apply Hnoop.
  - intros r. reflexivity.
  - reflexivity.
  - reflexivity.
Defined.

Lemma computeScore_independent_witness :
  computeScore sampleTask 1400000 = computeScore editedTask 1400000.
Proof.
  refine (proj1 (computeScore_independent sampleTask editedTask 1400000
                   [sampleTask] [editedTask] _ _ _ _)).
  - discriminate.
  - discriminate.
  - repeat split.
  - constructor; [repeat split | constructor].
Defined.

(** * Further properties of the code *)

(** ** Scores of pending and completed tasks *)

Lemma spec_priorityWeight_range (p : Priority) :
  (10 <= spec_priorityWeight p)%Q /\ (spec_priorityWeight p <= 100)%Q.
Proof. destruct p; cbn; split; lra. Qed.

Lemma computeScore_pending_bounds (t : Task) (now : Z) :
  status t = PENDING ->
  (spec_priorityWeight (priority t) <= computeScore t now)%Q /\
  (computeScore t now <= spec_priorityWeight (priority t) + 180000001)%Q /\
  (deadline t - now <= 2 ^ 53 ->
   (spec_priorityWeight (priority t) < computeScore t now)%Q).
Proof.
  intros Hs. rewrite (computeScore_pending t now Hs).
  destruct (spec_urgency_range t now) as [Hu0 Hu1].
  split; [| split].
  - eapply Qle_trans; [| apply score_mono; exact Hu0].
    destruct (priority t); vm_compute; discriminate.
  - eapply Qle_trans; [apply score_mono; exact Hu1 |].
    destruct (priority t); vm_compute; discriminate.
  - intros Hmax.
    destruct (Z_lt_le_dec 0 (deadline t - now)) as [Hd | Hd].
    + rewrite spec_hoursRemaining_due by exact Hd.
      fold (urgencyDue (deadline t - now)).
      eapply Qlt_le_trans;
        [| apply score_mono, (urgencyDue_antitone _ (2 ^ 53)); lia].
      destruct (priority t); vm_compute; reflexivity.
    + rewrite spec_hoursRemaining_overdue by exact Hd.
      destruct (priority t); vm_compute; reflexivity.
Qed.

Lemma computeScore_pending_pos (t : Task) (now : Z) :
  status t = PENDING -> (0 < computeScore t now)%Q.
Proof.
  intros Hs. destruct (computeScore_pending_bounds t now Hs) as (Hlo & _).
  pose proof (spec_priorityWeight_range (priority t)) as [Hw _]. lra.
Qed.

(** X1.  A PENDING task scores at least its priority weight, hence
    strictly above every COMPLETED task, whose score is 0; it scores
    strictly above the weight when its deadline is at most [2^53] ms
    ahead, and at most the weight plus 180000001 (with one millisecond
    left the urgency weight is 180000000.00000003). *)
Theorem pending_outranks_completed (p c : Task) (now : Z)
    (Hp : status p = PENDING) (Hc : status c = COMPLETED) :
  (computeScore c now < computeScore p now)%Q /\
  (spec_priorityWeight (priority p) <= computeScore p now)%Q /\
  (deadline p - now <= 2 ^ 53 ->
   (spec_priorityWeight (priority p) < computeScore p now)%Q) /\
  (computeScore p now <= spec_priorityWeight (priority p) + 180000001)%Q.
Proof.
  destruct (computeScore_pending_bounds p now Hp) as (Hlo & Hhi & Hstrict).
  pose proof (computeScore_pending_pos p now Hp) as Hpos.
  rewrite (computeScore_completed c now Hc).
  repeat split; assumption.
Qed.

Lemma pending_outranks_completed_witness :
  (computeScore (mkTask "c" HIGH 1000 COMPLETED 0 None) 20 <
   computeScore (mkTask "p" LOW 900000000 PENDING 0 None) 20)%Q.
Proof.
  refine (proj1 (pending_outranks_completed
                   (mkTask "p" LOW 900000000 PENDING 0 None)
                   (mkTask "c" HIGH 1000 COMPLETED 0 None) 20 _ _));
    reflexivity.
Defined.

(** X3.  A PENDING task at or past its deadline against a PENDING task
    whose deadline is ahead: with equal priorities the overdue task
    scores strictly higher exactly when the other has more than 36000 ms
    left (with less, the task about to fall due is ranked first); with
    any priorities the overdue task scores strictly higher once the other
    has 36660 ms or more left. *)
Theorem overdue_against_due (a b : Task) (now : Z)
    (Ha : status a = PENDING) (Hb : status b = PENDING)
    (Hover : deadline a <= now) (Hdue : now < deadline b) :
  (priority a = priority b ->
   ((computeScore b now < computeScore a now)%Q <->
    36000 < deadline b - now)) /\
  (36660 <= deadline b - now ->
   (computeScore b now < computeScore a now)%Q).
Proof.
  assert (Hda : deadline a - now <= 0) by lia.
  assert (Hdb : 0 < deadline b - now) by lia.
  pose proof (computeScore_overdue a now Ha Hda) as Ea.
  pose proof (computeScore_due b now Hb Hdb) as Eb.
  split.
  - intros Hp. rewrite Ea, Eb, Hp. split.
    + intros Hlt.
      destruct (Z_lt_le_dec 36000 (deadline b - now)) as [Hfar | Hnear];
        [exact Hfar | exfalso].
      pose proof (urgencyDue_antitone _ 36000 Hdb Hnear) as Hu.
      apply (score_mono (spec_priorityWeight (priority b))) in Hu.
      assert (Hk : (spec_priorityWeight (priority b) + 5000 <=
                    Number.add (spec_priorityWeight (priority b))
                      (urgencyDue 36000))%Q)
        by (destruct (priority b); vm_compute; discriminate).
      lra.
    + intros Hfar.
      eapply Qle_lt_trans;
        [apply score_mono, (urgencyDue_antitone 36001); lia |].
      destruct (priority b); vm_compute; reflexivity.
  - intros Hfar. rewrite Ea, Eb.
    pose proof (spec_priorityWeight_range (priority a)) as [Hwa _].
    pose proof (spec_priorityWeight_range (priority b)) as [_ Hwb].
    assert (Hu : (Number.add (spec_priorityWeight (priority b))
                    (urgencyDue (deadline b - now)) <=
                  Number.add 100 (urgencyDue 36660))%Q).
    { apply add_mono; [exact Hwb |].
      apply urgencyDue_antitone; lia. }
    assert (Hk : (Number.add 100 (urgencyDue 36660) < 5010)%Q)
      by (vm_compute; reflexivity).
    lra.
Qed.

Lemma overdue_against_due_witness :
  (computeScore (mkTask "far" HIGH 1040000 PENDING 0 None) 1000000 <
   computeScore (mkTask "late" LOW 500000 PENDING 0 None) 1000000)%Q.
Proof.
  refine (proj2 (overdue_against_due
                   (mkTask "late" LOW 500000 PENDING 0 None)
                   (mkTask "far" HIGH 1040000 PENDING 0 None)
                   1000000 _ _ _ _) _);
    try reflexivity; cbn; lia.
Defined.

(** ** Shape of the ranked list *)

Lemma filter_map_comm {A B : Type} (f : A -> B) (p : B -> bool)
    (l : list A) :
  List.filter p (map f l) = map f (List.filter (fun a => p (f a)) l).
Proof.
  induction l as [| a l IH]; cbn; [reflexivity |].
  destruct (p (f a)); cbn; rewrite IH; reflexivity.
Qed.

Lemma sort_insert_front (x : ScoredTask) (l : list ScoredTask) :
  Forall (scoreDesc x) l -> JS.sort_insert byScoreDesc x l = x :: l.
Proof.
  intros Hall. destruct l as [| y l]; [reflexivity |]. cbn.
  destruct (Qlt_le_dec 0 (byScoreDesc x y)) as [Hgt | Hle]; [| reflexivity].
  apply Forall_cons in Hall. destruct Hall as [Hy _].
  apply byScoreDesc_pos in Hgt. unfold scoreDesc in Hy. lra.
Qed.

(** Sorting commutes with selecting: dropping elements from the input
    does not reorder the others. *)
Lemma sort_insert_select (p : ScoredTask -> bool) (x : ScoredTask)
    (l : list ScoredTask) :
  StronglySorted scoreDesc l ->
  List.filter p (JS.sort_insert byScoreDesc x l) =
  if p x then JS.sort_insert byScoreDesc x (List.filter p l)
  else List.filter p l.
Proof.
  induction 1 as [| y l Hs IH Hall]; cbn.
  - destruct (p x); reflexivity.
  - destruct (Qlt_le_dec 0 (byScoreDesc x y)) as [Hgt | Hle]; cbn.
    + rewrite IH. destruct (p x), (p y); cbn; try reflexivity.
      destruct (Qlt_le_dec 0 (byScoreDesc x y)); [reflexivity | lra].
    + destruct (p x); [| reflexivity].
      symmetry. apply sort_insert_front.
      apply byScoreDesc_nonpos in Hle.
      assert (Hyl : Forall (scoreDesc x) (y :: l)).
      { constructor; [unfold scoreDesc; lra |].
        eapply Forall_impl; [exact Hall |].
        unfold scoreDesc. intros z Hz. lra. }
      rewrite Forall_forall in Hyl. apply Forall_forall.
      intros z Hz. apply Hyl.
      apply list_elem_of_In. apply list_elem_of_In in Hz.
      exact (proj1 (proj1 (filter_In p z (y :: l)) Hz)).
Qed.

Lemma Array_sort_select (p : ScoredTask -> bool) (l : list ScoredTask) :
  JS.Array_sort byScoreDesc (List.filter p l) =
  List.filter p (JS.Array_sort byScoreDesc l).
Proof.
  induction l as [| x l IH]; cbn; [reflexivity |].
  rewrite sort_insert_select by apply Array_sort_sorted.
  destruct (p x); cbn; rewrite IH; reflexivity.
Qed.

Lemma ranked_select (q : Task -> bool) (now : Z) (tasks : list Task) :
  ranked now (List.filter q tasks) =
  List.filter (fun a => q (task a)) (ranked now tasks).
Proof.
  unfold ranked. rewrite <- Array_sort_select, filter_map_comm. reflexivity.
Qed.

Lemma scoredAt_ranked (now : Z) (tasks : list Task) :
  scoredAt now (ranked now tasks).
Proof.
  unfold scoredAt, ranked.
  apply (Permutation_Forall (Permutation_sym (Array_sort_perm _ _))).
  apply Forall_forall. intros a Ha. apply list_elem_of_In in Ha.
  apply in_map_iff in Ha. destruct Ha as (t & <- & _). reflexivity.
Qed.

Lemma all_completed_split (l : list ScoredTask) :
  Forall (fun a => status (task a) = COMPLETED) l ->
  List.filter (hasStatus PENDING) l = [] /\
  List.filter (hasStatus COMPLETED) l = l.
Proof.
  induction 1 as [| y l Hy Hdone [IHP IHC]]; [split; reflexivity |].
  assert (EP : hasStatus PENDING y = false)
    by (unfold hasStatus; rewrite Hy; reflexivity).
  assert (EC : hasStatus COMPLETED y = true)
    by (unfold hasStatus; rewrite Hy; reflexivity).
  cbn [List.filter]. rewrite EP, EC, IHP, IHC. split; reflexivity.
Qed.

Lemma sorted_pending_first (now : Z) (l : list ScoredTask) :
  scoredAt now l -> StronglySorted scoreDesc l ->
  l = List.filter (hasStatus PENDING) l ++ List.filter (hasStatus COMPLETED) l.
Proof.
  intros Hsc Hs. induction Hs as [| x l Hs IH Hall]; [reflexivity |].
  apply Forall_cons in Hsc. destruct Hsc as [Hx Hsc]. specialize (IH Hsc).
  assert (EP : hasStatus PENDING x = TaskStatus_eqb (status (task x)) PENDING)
    by reflexivity.
  assert (EC : hasStatus COMPLETED x =
               TaskStatus_eqb (status (task x)) COMPLETED) by reflexivity.
  cbn [List.filter]. rewrite EP, EC.
  destruct (status (task x)) eqn:Hst; cbn.
  - f_equal. exact IH.
  - assert (Hdone : Forall (fun a => status (task a) = COMPLETED) l).
    { rewrite Forall_forall in Hall, Hsc. apply Forall_forall.
      intros y Hy. destruct (status (task y)) eqn:Hsy; [| reflexivity].
      pose proof (Hall y Hy) as Hle. unfold scoreDesc in Hle.
      rewrite (Hsc y Hy), Hx in Hle.
      rewrite (computeScore_completed (task x) now Hst) in Hle.
      destruct (computeScore_pending_bounds (task y) now Hsy) as [Hlo _].
      pose proof (spec_priorityWeight_range (priority (task y))) as [Hw _].
      lra. }
    destruct (all_completed_split l Hdone) as [-> ->]. reflexivity.
Qed.

Lemma ranked_completed (now : Z) (tasks : list Task) :
  Forall (fun t => status t = COMPLETED) tasks ->
  ranked now tasks = map (withScore now) tasks.
Proof.
  induction 1 as [| x l Hx Hl IH]; [reflexivity |].
  unfold ranked in *. cbn. rewrite IH. apply sort_insert_front.
  apply Forall_forall. intros y Hy. apply list_elem_of_In in Hy.
  apply in_map_iff in Hy. destruct Hy as (t & <- & Ht).
  rewrite Forall_forall in Hl.
  unfold scoreDesc. cbn.
  rewrite (computeScore_completed x now Hx).
  rewrite (computeScore_completed t now
             (Hl t (proj2 (list_elem_of_In _ _) Ht))).
  apply Qle_refl.
Qed.

Lemma filter_statusIs (s : TaskStatus) (tasks : list Task) :
  Forall (fun t => status t = s) (List.filter (statusIs s) tasks).
Proof.
  apply Forall_forall. intros t Ht. apply list_elem_of_In in Ht.
  apply filter_In in Ht. destruct Ht as [_ Ht].
  unfold statusIs in Ht. destruct (status t), s; (reflexivity || discriminate).
Qed.

(** X2.  The ranked list is its PENDING tasks followed by its COMPLETED
    tasks.  The PENDING part is the ranked list of the PENDING tasks
    alone, the COMPLETED part is the COMPLETED tasks in the order of the
    collection, and the two parts together have as many tasks as the
    collection. *)
Theorem ranked_pending_then_completed (now : Z) (tasks : list Task) :
  ranked now tasks =
  List.filter (hasStatus PENDING) (ranked now tasks) ++
  List.filter (hasStatus COMPLETED) (ranked now tasks) /\
  List.filter (hasStatus PENDING) (ranked now tasks) =
  ranked now (List.filter (statusIs PENDING) tasks) /\
  List.filter (hasStatus COMPLETED) (ranked now tasks) =
  map (withScore now) (List.filter (statusIs COMPLETED) tasks) /\
  (length (List.filter (hasStatus PENDING) (ranked now tasks)) +
   length (List.filter (hasStatus COMPLETED) (ranked now tasks)) =
   length tasks)%nat.
Proof.
  assert (Hsplit := sorted_pending_first now (ranked now tasks)
                      (scoredAt_ranked now tasks)
                      (Array_sort_sorted _)).
  split; [exact Hsplit |].
  split; [symmetry; apply (ranked_select (statusIs PENDING)) |].
  split.
  - change (hasStatus COMPLETED) with (fun a => statusIs COMPLETED (task a)).
    rewrite <- ranked_select. apply ranked_completed, filter_statusIs.
  - rewrite <- length_app, <- Hsplit. unfold ranked.
    rewrite (Permutation_length (Array_sort_perm _ _)). apply length_map.
Qed.

(** ** The consistency score over time and over the collection *)

Lemma count_perm (p : Task -> bool) (l l' : list Task) :
  Permutation l l' -> count p l = count p l'.
Proof.
  unfold count. induction 1 as [| x l l' _ IH | x y l | l l' l'' _ IH1 _ IH2];
    cbn.
  - reflexivity.
  - destruct (p x); cbn; rewrite IH; reflexivity.
  - destruct (p x), (p y); reflexivity.
  - rewrite IH1. exact IH2.
Qed.

Lemma count_mono (p q : Task -> bool) (l : list Task) :
  (forall x, p x = true -> q x = true) -> (count p l <= count q l)%nat.
Proof.
  intros Hpq. unfold count. induction l as [| x l IH]; cbn; [lia |].
  destruct (p x) eqn:Hp.
  - rewrite (Hpq x Hp). cbn. lia.
  - destruct (q x); cbn; lia.
Qed.

Lemma count_select (p q : Task -> bool) (l : list Task) :
  (forall x, p x = true -> q x = true) ->
  count p (List.filter q l) = count p l.
Proof.
  intros Hpq. unfold count. induction l as [| x l IH]; cbn; [reflexivity |].
  destruct (q x) eqn:Hq; cbn.
  - destruct (p x); cbn; rewrite IH; reflexivity.
  - destruct (p x) eqn:Hp; [| exact IH].
    rewrite (Hpq x Hp) in Hq. discriminate Hq.
Qed.

(** X4.  The consistency score does not depend on the order of the
    collection. *)
Theorem computeConsistencyScore_order (tasks tasks' : list Task) (now : Z)
    (Hperm : Permutation tasks tasks') :
  computeConsistencyScore tasks now = computeConsistencyScore tasks' now.
Proof.
  rewrite !computeConsistencyScore_unfold. unfold tracked.
  rewrite (count_perm isOnTime _ _ Hperm), (count_perm isLate _ _ Hperm),
    (count_perm (isOverdue now) _ _ Hperm).
  reflexivity.
Qed.

Lemma computeConsistencyScore_order_witness :
  computeConsistencyScore
    [mkTask "a" LOW 100 COMPLETED 0 (Some 90);
     mkTask "b" LOW 100 COMPLETED 0 (Some 190)] 50 =
  computeConsistencyScore
    [mkTask "b" LOW 100 COMPLETED 0 (Some 190);
     mkTask "a" LOW 100 COMPLETED 0 (Some 90)] 50.
Proof.
  apply computeConsistencyScore_order. apply perm_swap.
Defined.

Lemma consistency_antitone (tasks : list Task) (now now' : Z) :
  now <= now' ->
  computeConsistencyScore tasks now' <= computeConsistencyScore tasks now.
Proof.
  intros Hlater.
  rewrite !computeConsistencyScore_unfold.
  assert (Hov : (tracked tasks now <= tracked tasks now')%nat).
  { unfold tracked. apply Nat.add_le_mono_l.
    apply count_mono. intros x. unfold isOverdue.
    rewrite !andb_true_iff, !Z.ltb_lt. intros [Hs Hd]. split; [exact Hs | lia]. }
  destruct (tracked tasks now' =? 0)%nat eqn:E'.
  - apply Nat.eqb_eq in E'.
    assert (E : tracked tasks now = 0%nat) by lia.
    rewrite E. reflexivity.
  - apply Nat.eqb_neq in E'.
    destruct (tracked tasks now =? 0)%nat eqn:E.
    + apply Nat.eqb_eq in E.
      assert (E0 : count isOnTime tasks = 0%nat) by (unfold tracked in E; lia).
      rewrite E0. rewrite (Math_round_is _ 0); [lia |].
      apply percent_zero. reflexivity.
    + apply Nat.eqb_neq in E.
      apply Math_round_mono. apply percent_antitone.
      * apply (inject_nat_le 0). lia.
      * apply inject_nat_pos. lia.
      * apply inject_nat_le. exact Hov.
Qed.

(** X5.  Time alone never raises the consistency score: for the same
    collection the score at a later instant is at most the score at an
    earlier one. *)
Theorem computeConsistencyScore_over_time (tasks : list Task) (now now' : Z)
    (Hlater : now <= now') :
  computeConsistencyScore tasks now' <= computeConsistencyScore tasks now.
Proof. apply consistency_antitone. exact Hlater. Qed.

Lemma computeConsistencyScore_over_time_witness :
  computeConsistencyScore
    [mkTask "a" LOW 100 COMPLETED 0 (Some 90);
     mkTask "b" LOW 100 PENDING 0 None] 200 <=
  computeConsistencyScore
    [mkTask "a" LOW 100 COMPLETED 0 (Some 90);
     mkTask "b" LOW 100 PENDING 0 None] 50.
Proof.
  apply computeConsistencyScore_over_time. lia.
Defined.

Lemma consistency_all_onTime (tasks : list Task) (now : Z) :
  count isLate tasks = 0%nat -> count (isOverdue now) tasks = 0%nat ->
  (0 < count isOnTime tasks)%nat ->
  computeConsistencyScore tasks now = 100.
Proof.
  intros Hl Ho Hon. rewrite computeConsistencyScore_unfold. unfold tracked.
  rewrite Hl, Ho, !Nat.add_0_r.
  destruct (_ =? 0)%nat eqn:E; [apply Nat.eqb_eq in E; lia |].
  apply Math_round_is. change (inject_Z 100) with 100%Q.
  apply percent_full; [apply inject_nat_pos; exact Hon | reflexivity].
Qed.

Lemma consistency_none_onTime (tasks : list Task) (now : Z) :
  count isOnTime tasks = 0%nat -> computeConsistencyScore tasks now = 0.
Proof.
  intros Hon. rewrite computeConsistencyScore_unfold, Hon.
  destruct (_ =? 0)%nat; [reflexivity |].
  apply Math_round_is. apply percent_zero. reflexivity.
Qed.

(** X6.  Only completed tasks and pending tasks past their deadline count:
    leaving the other tasks out of the collection does not change the
    consistency score.  A history with no late and no overdue task but at
    least one on-time task scores 100, and one with no on-time task
    scores 0. *)
Theorem computeConsistencyScore_history (tasks : list Task) (now : Z) :
  computeConsistencyScore (List.filter (classified now) tasks) now =
  computeConsistencyScore tasks now /\
  (count isLate tasks = 0%nat -> count (isOverdue now) tasks = 0%nat ->
   (0 < count isOnTime tasks)%nat ->
   computeConsistencyScore tasks now = 100) /\
  (count isOnTime tasks = 0%nat -> computeConsistencyScore tasks now = 0).
Proof.
  split; [| split].
  - rewrite !computeConsistencyScore_unfold. unfold tracked.
    rewrite !count_select; [reflexivity | | |];
      intros x Hx; unfold classified; rewrite Hx;
      rewrite ?orb_true_r; reflexivity.
  - apply consistency_all_onTime.
  - apply consistency_none_onTime.
Qed.

Lemma computeConsistencyScore_history_witness :
  computeConsistencyScore
    [mkTask "a" LOW 100 COMPLETED 0 (Some 90);
     mkTask "b" LOW 100 PENDING 0 None] 50 = 100.
Proof.
  pose proof (computeConsistencyScore_history
                [mkTask "a" LOW 100 COMPLETED 0 (Some 90);
                 mkTask "b" LOW 100 PENDING 0 None] 50)
    as (_ & Hall & _).
  apply Hall; vm_compute; (reflexivity || lia).
Defined.

(** ** Time health over time *)

(** X7.  The time health of a task never rises as time passes.  For a
    PENDING task with [createdAt < deadline] it is 100 up to the creation
    instant and 0 from the deadline on. *)
Theorem computeTimeHealth_over_time (t : Task) (now now' : Z)
    (Hlater : now <= now') :
  computeTimeHealth t now' <= computeTimeHealth t now /\
  (status t = PENDING -> createdAt t < deadline t -> now <= createdAt t ->
   computeTimeHealth t now = 100) /\
  (status t = PENDING -> createdAt t < deadline t -> deadline t <= now ->
   computeTimeHealth t now = 0).
Proof.
  split; [| split].
  - destruct (status t) eqn:Hs.
    + destruct (Z_lt_le_dec (createdAt t) (deadline t)) as [Hlt | Hle].
      * rewrite !computeTimeHealth_pending by assumption.
        apply Math_round_mono, spec_clamp_mono, percent_mono;
          [apply span_pos; exact Hlt | apply sub_antitone_r; exact Hlater].
      * rewrite !computeTimeHealth_degenerate by assumption. reflexivity.
    + rewrite !computeTimeHealth_completed by assumption. reflexivity.
  - apply computeTimeHealth_fresh.
  - apply computeTimeHealth_expired.
Qed.

Lemma computeTimeHealth_over_time_witness :
  computeTimeHealth (mkTask "t" LOW 1000 PENDING 0 None) 900 <=
  computeTimeHealth (mkTask "t" LOW 1000 PENDING 0 None) 300.
Proof.
  apply computeTimeHealth_over_time. lia.
Defined.

(** ** The memoised figures of the home screen *)

Section CachedFigures.
Context {M : Type -> Type} {memoize : Reselect.Memoize M}
  {laws : Reselect.MemoizeLaws M}.

(** X8.  [selectConsistencyScore] computes the score at the instant of
    the call that finds nothing cached for the collection, and keeps it:
    a later call with the same state returns that number without reading
    the clock again.  The number it returns is then at least the score
    the collection has at the later instant. *)
Theorem selectConsistencyScore_stale (state : RootState.t)
    (rt rt1 rt' : Runtime) (c c1 : Reselect.Cache M Z) (out : Z)
    (Hsel : selectConsistencyScore state rt c = (out, rt1, c1))
    (Hmiss : Reselect.cached ref (selectTasks state) c = None)
    (Hlater : clock rt <= clock rt') :
  out = computeConsistencyScore (elements (selectTasks state)) (clock rt) /\
  rt1 = rt /\
  selectConsistencyScore state rt' c1 = (out, rt', c1) /\
  computeConsistencyScore (elements (selectTasks state)) (clock rt') <= out.
Proof.
  unfold selectConsistencyScore in *.
  pose proof (createSelector_keeps _ _ _ _ _ _ _ _ Hsel) as Hkept.
  rewrite createSelector_miss in Hsel by exact Hmiss.
  injection Hsel as <- <- _.
  split; [reflexivity |]. split; [reflexivity |].
  split; [apply createSelector_hit; exact Hkept |].
  apply consistency_antitone. exact Hlater.
Qed.

(** X9.  [selectPendingTasks] and [selectCompletedTasks] hand back the
    very array of their previous call as long as the collection of the
    store is the same object: nothing is recomputed and no array is
    allocated, whatever the clock shows. *)
Theorem selectByStatus_same_array (s : TaskStatus)
    (state state' : RootState.t) (rt rt1 rt' : Runtime)
    (c c1 : Reselect.Cache M (Array ScoredTask) *
            Reselect.Cache M (Array ScoredTask))
    (out : Array ScoredTask)
    (Hsel : selectByStatus s state rt c = (out, rt1, c1))
    (Href : ref (selectTasks state') = ref (selectTasks state)) :
  selectByStatus s state' rt' c1 = (out, rt', c1) /\
  Reselect.recomputations (fst (snd (selectByStatus s state' rt' c1))) =
  Reselect.recomputations (fst c1) /\
  Reselect.recomputations (snd (snd (selectByStatus s state' rt' c1))) =
  Reselect.recomputations (snd c1).
Proof.
  assert (Hagain : selectByStatus s state' rt' c1 = (out, rt', c1)).
  { unfold selectByStatus, selectSmartSortedTasks in *.
    destruct (Reselect.createSelector ref smartSorted (selectTasks state) rt
                (fst c)) as [[sorted rt2] c2] eqn:Hsorted.
    destruct (Reselect.createSelector ref (onlyStatus s) sorted rt2 (snd c))
      as [[out' rt3] c3] eqn:Hout.
    injection Hsel as <- _ <-. cbn [fst snd].
    apply createSelector_keeps in Hsorted, Hout.
    unfold Reselect.cached in Hsorted. rewrite <- Href in Hsorted.
    rewrite (createSelector_hit ref smartSorted (selectTasks state') rt' c2
               sorted Hsorted).
    rewrite (createSelector_hit ref (onlyStatus s) sorted rt' c3 out' Hout).
    reflexivity. }
  rewrite Hagain. repeat split.
Qed.

End CachedFigures.

Lemma selectConsistencyScore_stale_witness :
  selectConsistencyScore (M := Reselect.Lru) sampleState
    (tick 5000000 startRuntime)
    (snd (selectConsistencyScore (M := Reselect.Lru) sampleState
            (tick 0 startRuntime) Reselect.empty)) =
  (100, tick 5000000 startRuntime,
   snd (selectConsistencyScore (M := Reselect.Lru) sampleState
          (tick 0 startRuntime) Reselect.empty)) /\
  computeConsistencyScore (elements (selectTasks sampleState)) 5000000 <= 100.
Proof.
  pose proof (selectConsistencyScore_stale (laws := lruMemoize_laws)
                sampleState (tick 0 startRuntime) (tick 0 startRuntime)
                (tick 5000000 startRuntime) Reselect.empty
                (snd (selectConsistencyScore (M := Reselect.Lru) sampleState
                        (tick 0 startRuntime) Reselect.empty))
                100 eq_refl eq_refl)
    as (_ & _ & Hhit & Hle).
  - cbn. lia.
  - split; [exact Hhit | exact Hle].
Defined.

Lemma selectByStatus_same_array_witness :
  selectPendingTasks (M := Reselect.Lru) sampleState
    (tick 900000 startRuntime)
    (snd (selectPendingTasks (M := Reselect.Lru) sampleState
            (tick 0 startRuntime) (Reselect.empty, Reselect.empty))) =
  (fst (fst (selectPendingTasks (M := Reselect.Lru) sampleState
               (tick 0 startRuntime) (Reselect.empty, Reselect.empty))),
   tick 900000 startRuntime,
   snd (selectPendingTasks (M := Reselect.Lru) sampleState
          (tick 0 startRuntime) (Reselect.empty, Reselect.empty))).
Proof.
  refine (proj1 (selectByStatus_same_array (laws := lruMemoize_laws) PENDING
                   sampleState sampleState (tick 0 startRuntime)
                   (snd (fst (selectPendingTasks (M := Reselect.Lru)
                                sampleState (tick 0 startRuntime)
                                (Reselect.empty, Reselect.empty))))
                   (tick 900000 startRuntime)
                   (Reselect.empty, Reselect.empty) _ _ _ _));
    reflexivity.
Defined.

(** ** The trigger store under scheduling and cancelling *)

Lemma string_length_app (a b : string) :
  String.length (a ++ b) = (String.length a + String.length b)%nat.
Proof.
  induction a as [| ch a IH]; [reflexivity |].
  simpl. f_equal. exact IH.
Qed.

Lemma suffix_cancel (a b s : string) :
  (a ++ s)%string = (b ++ s)%string -> a = b.
Proof.
  revert b. induction a as [| ch a IH]; intros [| ch' b] E.
  - reflexivity.
  - apply (f_equal String.length) in E.
    rewrite !string_length_app in E. simpl in E. lia.
  - apply (f_equal String.length) in E.
    rewrite !string_length_app in E. simpl in E. lia.
  - simpl in E. injection E as -> E. f_equal. apply IH. exact E.
Qed.

Lemma suffixes_apart (a b : string) :
  (a ++ REMINDER_SUFFIX)%string <> (b ++ DEADLINE_SUFFIX)%string.
Proof.
  revert b. induction a as [| ch a IH]; intros [| ch' b] E.
  - discriminate E.
  - apply (f_equal String.length) in E.
    rewrite !string_length_app in E. simpl in E. lia.
  - apply (f_equal String.length) in E.
    rewrite !string_length_app in E. simpl in E. lia.
  - simpl in E. injection E as _ E. exact (IH b E).
Qed.

(** The notification ids of two tasks coincide only when the tasks have
    the same id. *)
Lemma timerOf_apart (i j k : string) :
  timerOf i k -> timerOf j k -> i = j.
Proof.
  intros [-> | ->] [E | E].
  - exact (suffix_cancel _ _ _ E).
  - destruct (suffixes_apart _ _ E).
  - symmetry in E. destruct (suffixes_apart _ _ E).
  - exact (suffix_cancel _ _ _ E).
Qed.

Lemma schedule_frame (t : Task) (d : Notifee.Device) :
  Notifee.clock (snd (scheduleTaskNotifications t d)) = Notifee.clock d /\
  Notifee.permission (snd (scheduleTaskNotifications t d)) =
  Notifee.permission d /\
  Notifee.failing (snd (scheduleTaskNotifications t d)) = Notifee.failing d.
Proof.
  run_schedule.
  destruct (Notifee.permission d) as [o | reason] eqn:Hp; cbn;
    [| rewrite Hp; repeat split].
  destruct (denied o); cbn; [rewrite Hp; repeat split |].
  destruct (Notifee.clock d <? deadline t - ONE_HOUR_MS); cbn;
    destruct (Notifee.clock d <? deadline t); cbn;
    repeat match goal with
      | |- context [Notifee.failing d ?r] => destruct (Notifee.failing d r); cbn
      end;
    rewrite Hp; repeat split.
Qed.

Lemma cancel_frame (taskId : string) (d : Notifee.Device) :
  Notifee.clock (snd (cancelTaskNotifications taskId d)) = Notifee.clock d /\
  Notifee.permission (snd (cancelTaskNotifications taskId d)) =
  Notifee.permission d /\
  Notifee.failing (snd (cancelTaskNotifications taskId d)) = Notifee.failing d.
Proof.
  run_cancel.
  repeat match goal with
    | |- context [Notifee.failing d ?r] => destruct (Notifee.failing d r); cbn
    end;
    repeat split.
Qed.

Lemma schedule_triggers (t : Task) (d : Notifee.Device) :
  reliable d ->
  Notifee.triggers (snd (scheduleTaskNotifications t d)) =
  scheduled (grantedb d) (Notifee.clock d) t (Notifee.triggers d).
Proof.
  intros Hok. unfold scheduled, grantedb, reminderEntry, deadlineEntry.
  run_schedule.
  destruct (Notifee.permission d) as [o | reason]; cbn; [| reflexivity].
  destruct (denied o); cbn; [reflexivity |].
  change (deadline t - ONE_HOUR_MS) with (deadline t - 3600000).
  destruct (Notifee.clock d <? deadline t - 3600000); cbn;
    destruct (Notifee.clock d <? deadline t); cbn;
    repeat match goal with
      | |- context [Notifee.failing d ?r] => rewrite (Hok r); cbn
      end;
    reflexivity.
Qed.

Lemma cancel_triggers (taskId : string) (d : Notifee.Device) :
  reliable d ->
  Notifee.triggers (snd (cancelTaskNotifications taskId d)) =
  cancelled taskId (Notifee.triggers d).
Proof.
  intros Hok. exact (proj2 (cancel_resolves taskId d (Hok _) (Hok _))).
Qed.

Lemma schedule_reliable (t : Task) (d : Notifee.Device) :
  reliable d -> reliable (snd (scheduleTaskNotifications t d)).
Proof.
  intros Hok r. destruct (schedule_frame t d) as (_ & _ & ->). apply Hok.
Qed.

Lemma cancel_reliable (taskId : string) (d : Notifee.Device) :
  reliable d -> reliable (snd (cancelTaskNotifications taskId d)).
Proof.
  intros Hok r. destruct (cancel_frame taskId d) as (_ & _ & ->). apply Hok.
Qed.

Lemma schedule_grantedb (t : Task) (d : Notifee.Device) :
  grantedb (snd (scheduleTaskNotifications t d)) = grantedb d.
Proof.
  unfold grantedb. destruct (schedule_frame t d) as (_ & -> & _). reflexivity.
Qed.

Lemma cancel_grantedb (taskId : string) (d : Notifee.Device) :
  grantedb (snd (cancelTaskNotifications taskId d)) = grantedb d.
Proof.
  unfold grantedb. destruct (cancel_frame taskId d) as (_ & -> & _).
  reflexivity.
Qed.

(** Whatever the service does, a schedule call touches the trigger store
    only under the two notification ids of its task. *)
Lemma schedule_elsewhere (t : Task) (d : Notifee.Device) (k : string) :
  ~ timerOf (id t) k ->
  Notifee.triggers (snd (scheduleTaskNotifications t d)) !! k =
  Notifee.triggers d !! k.
Proof.
  intros Hk.
  assert (Hr : (id t ++ REMINDER_SUFFIX)%string <> k)
    by (intros E; apply Hk; left; symmetry; exact E).
  assert (Hd : (id t ++ DEADLINE_SUFFIX)%string <> k)
    by (intros E; apply Hk; right; symmetry; exact E).
  run_schedule.
  destruct (Notifee.permission d) as [o | reason]; cbn; [| reflexivity].
  destruct (denied o); cbn; [reflexivity |].
  destruct (Notifee.clock d <? deadline t - ONE_HOUR_MS); cbn;
    destruct (Notifee.clock d <? deadline t); cbn;
    repeat match goal with
      | |- context [Notifee.failing d ?r] => destruct (Notifee.failing d r); cbn
      end;
    rewrite ?lookup_insert_ne by assumption; reflexivity.
Qed.

Lemma cancel_elsewhere (taskId : string) (d : Notifee.Device) (k : string) :
  ~ timerOf taskId k ->
  Notifee.triggers (snd (cancelTaskNotifications taskId d)) !! k =
  Notifee.triggers d !! k.
Proof.
  intros Hk.
  assert (Hr : (taskId ++ REMINDER_SUFFIX)%string <> k)
    by (intros E; apply Hk; left; symmetry; exact E).
  assert (Hd : (taskId ++ DEADLINE_SUFFIX)%string <> k)
    by (intros E; apply Hk; right; symmetry; exact E).
  run_cancel.
  repeat match goal with
    | |- context [Notifee.failing d ?r] => destruct (Notifee.failing d r); cbn
    end;
    rewrite ?lookup_delete_ne by assumption; reflexivity.
Qed.

Lemma granted_not_denied (d : Notifee.Device) :
  permissionGranted d ->
  exists o, Notifee.permission d = Notifee.Resolved o /\ denied o = false.
Proof.
  intros (s & Hp & Hs). exists (Some s). split; [exact Hp |].
  cbn. apply Z.ltb_ge. exact Hs.
Qed.

(** X10.  Failures of the service in [scheduleTaskNotifications].  When
    the permission request is rejected the call rejects with its reason
    and asks for nothing else.  With permission and both timers ahead,
    both delivery requests are submitted before either is awaited: when
    the service rejects only one of them the other timer is stored all
    the same, and the call rejects with the reason of the rejected one;
    when it rejects both, no timer is stored and the call rejects with
    one of the two reasons. *)
Theorem scheduleTaskNotifications_failures (t : Task) (d : Notifee.Device) :
  (forall reason,
     Notifee.permission d = Notifee.Rejected reason ->
     scheduleTaskNotifications t d =
     (Notifee.Rejected reason, Notifee.logged Notifee.RequestPermission d)) /\
  (permissionGranted d -> Notifee.clock d < deadline t - 3600000 ->
   requestsSince d (snd (scheduleTaskNotifications t d)) =
   [Notifee.RequestPermission; reminderRequest t; deadlineRequest t] /\
   (forall reason,
      Notifee.failing d (reminderRequest t) = Some reason ->
      Notifee.failing d (deadlineRequest t) = None ->
      fst (scheduleTaskNotifications t d) = Notifee.Rejected reason /\
      Notifee.triggers (snd (scheduleTaskNotifications t d)) =
      <[(id t ++ DEADLINE_SUFFIX)%string := deadlineEntry t]>
        (Notifee.triggers d)) /\
   (forall reason,
      Notifee.failing d (reminderRequest t) = None ->
      Notifee.failing d (deadlineRequest t) = Some reason ->
      fst (scheduleTaskNotifications t d) = Notifee.Rejected reason /\
      Notifee.triggers (snd (scheduleTaskNotifications t d)) =
      <[(id t ++ REMINDER_SUFFIX)%string := reminderEntry t]>
        (Notifee.triggers d)) /\
   (forall reason reason',
      Notifee.failing d (reminderRequest t) = Some reason ->
      Notifee.failing d (deadlineRequest t) = Some reason' ->
      (fst (scheduleTaskNotifications t d) = Notifee.Rejected reason \/
       fst (scheduleTaskNotifications t d) = Notifee.Rejected reason') /\
      Notifee.triggers (snd (scheduleTaskNotifications t d)) =
      Notifee.triggers d)).
Proof.
  split.
  - intros reason Hp. run_schedule. rewrite Hp. reflexivity.
  - intros Hg Hsoon.
    assert (E1 : (Notifee.clock d <? deadline t - 3600000) = true)
      by (apply Z.ltb_lt; lia).
    assert (E2 : (Notifee.clock d <? deadline t) = true)
      by (apply Z.ltb_lt; lia).
    split.
    + rewrite schedule_requestsSince.
      rewrite (proj2 (grantedb_spec d) Hg), E1, E2. reflexivity.
    + destruct (granted_not_denied d Hg) as (o & Hp & Hden).
      unfold reminderRequest, deadlineRequest, reminderEntry, deadlineEntry.
      repeat split; intros;
        run_schedule; rewrite Hp; cbn; rewrite Hden; cbn;
        change (deadline t - ONE_HOUR_MS) with (deadline t - 3600000);
        rewrite E1; cbn; rewrite E2; cbn;
        repeat match goal with
          | H : Notifee.failing d ?r = _ |- context [Notifee.failing d ?r] =>
              rewrite H; cbn
          end;
        try reflexivity.
      left. reflexivity.
Qed.

Lemma scheduleTaskNotifications_failures_witness :
  scheduleTaskNotifications sampleTask
    {| Notifee.clock := 0;
       Notifee.permission := Notifee.Rejected "no service";
       Notifee.failing := fun _ => None;
       Notifee.triggers := ∅;
       Notifee.requests := [] |} =
  (Notifee.Rejected "no service",
   Notifee.logged Notifee.RequestPermission
     {| Notifee.clock := 0;
        Notifee.permission := Notifee.Rejected "no service";
        Notifee.failing := fun _ => None;
        Notifee.triggers := ∅;
        Notifee.requests := [] |}).
Proof.
  apply (proj1 (scheduleTaskNotifications_failures sampleTask _)).
  reflexivity.
Defined.

Lemma scheduled_over (now : Z) (t t' : Task)
    (m : gmap string (Notifee.Notification * Notifee.TimestampTrigger)) :
  id t' = id t -> now < deadline t' - 3600000 ->
  scheduled true now t' (scheduled true now t m) = scheduled true now t' m.
Proof.
  intros Hid Hsoon. unfold scheduled. cbn [andb].
  assert (E1 : (now <? deadline t' - 3600000) = true) by (apply Z.ltb_lt; lia).
  assert (E2 : (now <? deadline t') = true) by (apply Z.ltb_lt; lia).
  rewrite E1, E2, Hid.
  pose proof (suffixes_differ (id t)) as Hne.
  apply map_eq. intros k.
  destruct (now <? deadline t - 3600000), (now <? deadline t);
    repeat rewrite lookup_insert; repeat case_decide; congruence.
Qed.

(** X11.  Scheduling the timers of an edited task without cancelling the
    old ones.  When the new deadline is more than an hour ahead, both old
    timers are overwritten: the store is the one scheduling the new
    version alone gives.  When the new deadline is within the hour (or
    past) and the old reminder was still ahead, the reminder of the old
    version stays in the store, set for the old deadline. *)
Theorem scheduleTaskNotifications_upsert (t t' : Task) (d : Notifee.Device)
    (Hok : reliable d) (Hg : permissionGranted d) (Hid : id t' = id t) :
  (Notifee.clock d < deadline t' - 3600000 ->
   Notifee.triggers
     (snd (scheduleTaskNotifications t'
             (snd (scheduleTaskNotifications t d)))) =
   Notifee.triggers (snd (scheduleTaskNotifications t' d))) /\
  (Notifee.clock d < deadline t - 3600000 ->
   deadline t' - 3600000 <= Notifee.clock d ->
   Notifee.triggers
     (snd (scheduleTaskNotifications t'
             (snd (scheduleTaskNotifications t d))))
     !! (id t' ++ "-reminder")%string = Some (reminderEntry t)).
Proof.
  pose proof (schedule_reliable t d Hok) as Hok1.
  pose proof (proj2 (grantedb_spec d) Hg) as Hgb.
  destruct (schedule_frame t d) as (Hclock & _ & _).
  rewrite (schedule_triggers t' _ Hok1), schedule_grantedb, Hclock, Hgb.
  rewrite (schedule_triggers t d Hok), (schedule_triggers t' d Hok), Hgb.
  split.
  - intros Hsoon. apply scheduled_over; assumption.
  - intros Hold Hnew. unfold scheduled. cbn [andb].
    assert (E1 : (Notifee.clock d <? deadline t - 3600000) = true)
      by (apply Z.ltb_lt; lia).
    assert (E2 : (Notifee.clock d <? deadline t) = true)
      by (apply Z.ltb_lt; lia).
    assert (E3 : (Notifee.clock d <? deadline t' - 3600000) = false)
      by (apply Z.ltb_ge; lia).
    rewrite E1, E2, E3, Hid.
    pose proof (suffixes_differ (id t)) as Hne.
    change "-reminder" with REMINDER_SUFFIX.
    destruct (Notifee.clock d <? deadline t');
      repeat rewrite lookup_insert; repeat case_decide; congruence.
Qed.

Lemma scheduleTaskNotifications_upsert_witness :
  Notifee.triggers
    (snd (scheduleTaskNotifications
            (mkTask "t1" HIGH 3000000 PENDING 0 None)
            (snd (scheduleTaskNotifications sampleTask (sampleDevice 0 1)))))
    !! "t1-reminder" = Some (reminderEntry sampleTask).
Proof.
  refine (proj2 (scheduleTaskNotifications_upsert sampleTask
                   (mkTask "t1" HIGH 3000000 PENDING 0 None)
                   (sampleDevice 0 1) _ _ _) _ _).
  - intros r. reflexivity.
  - eexists. split; [reflexivity | cbn; lia].
  - reflexivity.
  - cbn. lia.
  - cbn. lia.
Defined.

(** X12.  The timers of one task are out of reach of the calls made for
    another: the notification ids of tasks with different ids never
    coincide, and neither scheduling nor cancelling for a task changes
    what the store holds under the notification ids of a task with a
    different id, whatever the service answers. *)
Theorem timers_of_other_tasks (t : Task) (other k : string)
    (d : Notifee.Device) (Hne : id t <> other) (Hk : timerOf other k) :
  ~ timerOf (id t) k /\
  Notifee.triggers (snd (scheduleTaskNotifications t d)) !! k =
  Notifee.triggers d !! k /\
  Notifee.triggers (snd (cancelTaskNotifications (id t) d)) !! k =
  Notifee.triggers d !! k.
Proof.
  assert (Hout : ~ timerOf (id t) k).
  { intros Hin. apply Hne. exact (timerOf_apart _ _ _ Hin Hk). }
  split; [exact Hout |].
  split; [apply schedule_elsewhere | apply cancel_elsewhere]; exact Hout.
Qed.

Lemma timers_of_other_tasks_witness :
  Notifee.triggers
    (snd (cancelTaskNotifications "t2"
            (snd (scheduleTaskNotifications sampleTask (sampleDevice 0 1)))))
    !! "t1-deadline" =
  Notifee.triggers
    (snd (scheduleTaskNotifications sampleTask (sampleDevice 0 1)))
    !! "t1-deadline".
Proof.
  refine (proj2 (proj2 (timers_of_other_tasks
                          (mkTask "t2" LOW 0 PENDING 0 None) "t1"
                          "t1-deadline" _ _ _))).
  - discriminate.
  - right. reflexivity.
Defined.

Lemma cancelled_absent (taskId k : string)
    (m : gmap string (Notifee.Notification * Notifee.TimestampTrigger)) :
  timerOf taskId k -> cancelled taskId m !! k = None.
Proof.
  intros [-> | ->]; unfold cancelled.
  - rewrite lookup_delete_ne by (intros E; symmetry in E;
                                 exact (suffixes_differ _ E)).
    apply lookup_delete_eq.
  - apply lookup_delete_eq.
Qed.

Lemma cancelled_scheduled (granted : bool) (now : Z) (t : Task)
    (m : gmap string (Notifee.Notification * Notifee.TimestampTrigger)) :
  cancelled (id t) (scheduled granted now t m) = cancelled (id t) m.
Proof.
  apply map_eq. intros k. unfold cancelled, scheduled.
  destruct (granted && (now <? deadline t - 3600000)),
           (granted && (now <? deadline t));
    repeat rewrite lookup_delete; repeat rewrite lookup_insert;
    repeat case_decide; congruence.
Qed.

Lemma cancelled_idem (taskId : string)
    (m : gmap string (Notifee.Notification * Notifee.TimestampTrigger)) :
  cancelled taskId (cancelled taskId m) = cancelled taskId m.
Proof.
  apply map_eq. intros k. unfold cancelled.
  repeat rewrite lookup_delete; repeat case_decide; congruence.
Qed.

Lemma cancelled_none (taskId : string)
    (m : gmap string (Notifee.Notification * Notifee.TimestampTrigger)) :
  (forall k, timerOf taskId k -> m !! k = None) -> cancelled taskId m = m.
Proof.
  intros Hnone. unfold cancelled.
  rewrite (delete_id m (taskId ++ REMINDER_SUFFIX)%string)
    by (apply Hnone; left; reflexivity).
  apply delete_id. apply Hnone. right. reflexivity.
Qed.

(** X13.  With a service that accepts every call, cancelling leaves no
    timer of the task in the store, and doing it again changes nothing.
    Cancelling after scheduling gives the store that cancelling alone
    gives: for a task that had no timer before, scheduling and then
    cancelling restores the store. *)
Theorem cancelTaskNotifications_clears (t : Task) (d : Notifee.Device)
    (Hok : reliable d) :
  (forall k, timerOf (id t) k ->
     Notifee.triggers (snd (cancelTaskNotifications (id t) d)) !! k = None) /\
  Notifee.triggers
    (snd (cancelTaskNotifications (id t)
            (snd (cancelTaskNotifications (id t) d)))) =
  Notifee.triggers (snd (cancelTaskNotifications (id t) d)) /\
  Notifee.triggers
    (snd (cancelTaskNotifications (id t)
            (snd (scheduleTaskNotifications t d)))) =
  Notifee.triggers (snd (cancelTaskNotifications (id t) d)) /\
  ((forall k, timerOf (id t) k -> Notifee.triggers d !! k = None) ->
   Notifee.triggers
     (snd (cancelTaskNotifications (id t)
             (snd (scheduleTaskNotifications t d)))) =
   Notifee.triggers d).
Proof.
  pose proof (schedule_reliable t d Hok) as Hok1.
  pose proof (cancel_reliable (id t) d Hok) as Hok2.
  rewrite (cancel_triggers _ _ Hok2), (cancel_triggers _ _ Hok1),
    (cancel_triggers _ _ Hok), (schedule_triggers _ _ Hok).
  split; [intros k Hk; apply cancelled_absent; exact Hk |].
  split; [apply cancelled_idem |].
  split; [apply cancelled_scheduled |].
  intros Hnone. rewrite cancelled_scheduled. apply cancelled_none.
  exact Hnone.
Qed.

Lemma cancelTaskNotifications_clears_witness :
  Notifee.triggers
    (snd (cancelTaskNotifications "t1"
            (snd (scheduleTaskNotifications sampleTask
                    (sampleDevice 0 1))))) =
  Notifee.triggers (sampleDevice 0 1).
Proof.
  refine (proj2 (proj2 (proj2 (cancelTaskNotifications_clears sampleTask
                                 (sampleDevice 0 1) _))) _).
  - intros r. reflexivity.
  - intros k _. reflexivity.
Defined.

(** X14.  Failures of the service in [cancelTaskNotifications].  Both
    cancellations are requested before either is awaited: when the
    service rejects one of them the call rejects with that reason and the
    other timer is removed all the same; when it rejects both, the call
    rejects with one of the two reasons and the store stays as it is. *)
Theorem cancelTaskNotifications_failures (taskId : string)
    (d : Notifee.Device) :
  (forall reason,
     Notifee.failing d
       (Notifee.CancelTriggerNotification (taskId ++ "-reminder")) =
     Some reason ->
     Notifee.failing d
       (Notifee.CancelTriggerNotification (taskId ++ "-deadline")) = None ->
     fst (cancelTaskNotifications taskId d) = Notifee.Rejected reason /\
     Notifee.triggers (snd (cancelTaskNotifications taskId d)) =
     delete (taskId ++ "-deadline")%string (Notifee.triggers d)) /\
  (forall reason,
     Notifee.failing d
       (Notifee.CancelTriggerNotification (taskId ++ "-reminder")) = None ->
     Notifee.failing d
       (Notifee.CancelTriggerNotification (taskId ++ "-deadline")) =
     Some reason ->
     fst (cancelTaskNotifications taskId d) = Notifee.Rejected reason /\
     Notifee.triggers (snd (cancelTaskNotifications taskId d)) =
     delete (taskId ++ "-reminder")%string (Notifee.triggers d)) /\
  (forall reason reason',
     Notifee.failing d
       (Notifee.CancelTriggerNotification (taskId ++ "-reminder")) =
     Some reason ->
     Notifee.failing d
       (Notifee.CancelTriggerNotification (taskId ++ "-deadline")) =
     Some reason' ->
     (fst (cancelTaskNotifications taskId d) = Notifee.Rejected reason \/
      fst (cancelTaskNotifications taskId d) = Notifee.Rejected reason') /\
     Notifee.triggers (snd (cancelTaskNotifications taskId d)) =
     Notifee.triggers d).
Proof.
  change "-reminder" with REMINDER_SUFFIX.
  change "-deadline" with DEADLINE_SUFFIX.
  repeat split; intros; run_cancel;
    repeat match goal with
      | H : Notifee.failing d ?r = _ |- context [Notifee.failing d ?r] =>
          rewrite H; cbn
      end;
    try reflexivity.
  left. reflexivity.
Qed.

Lemma cancelTaskNotifications_failures_witness :
  fst (cancelTaskNotifications "t1"
         {| Notifee.clock := 0;
            Notifee.permission := Notifee.Resolved None;
            Notifee.failing := fun r =>
              match r with
              | Notifee.CancelTriggerNotification i =>
                  if String.eqb i "t1-reminder" then Some "busy" else None
              | _ => None
              end;
            Notifee.triggers := ∅;
            Notifee.requests := [] |}) = Notifee.Rejected "busy".
Proof.
  refine (proj1 (proj1 (cancelTaskNotifications_failures "t1" _) "busy" _ _));
    reflexivity.
Defined.

(** ** The task thunks *)

Lemma updateTask_accepted (uid : string) (task : Task) (w : World) :
  rejecting w
    (Firestore.UpdateDoc uid (id task) (Firestore.TaskFields (dataOf task))) =
  None ->
  updateTask uid task w =
  (Fulfilled task,
   {| device :=
        snd (scheduleTaskNotifications task
               (snd (cancelTaskNotifications (id task) (device w))));
      writes :=
        writes w ++
        [Firestore.UpdateDoc uid (id task)
           (Firestore.TaskFields (dataOf task))];
      rejecting := rejecting w;
      nextId := nextId w |}).
Proof.
  intros Hstore. unfold updateTask, write. rewrite Hstore. reflexivity.
Qed.

Lemma withId_dataOf (t : Task) : withId (id t) (dataOf t) = t.
Proof. destruct t; reflexivity. Qed.

Lemma dataOf_withId (i : string) (d : Firestore.TaskData) :
  dataOf (withId i d) = d.
Proof. destruct d; reflexivity. Qed.

Lemma scheduled_past (granted : bool) (now : Z) (t : Task)
    (m : gmap string (Notifee.Notification * Notifee.TimestampTrigger)) :
  deadline t <= now -> scheduled granted now t m = m.
Proof.
  intros Hpast. unfold scheduled.
  assert (E1 : (now <? deadline t - 3600000) = false) by (apply Z.ltb_ge; lia).
  assert (E2 : (now <? deadline t) = false) by (apply Z.ltb_ge; lia).
  rewrite E1, E2, !andb_false_r. reflexivity.
Qed.

Lemma scheduled_ahead (now : Z) (t : Task)
    (m : gmap string (Notifee.Notification * Notifee.TimestampTrigger)) :
  now < deadline t - 3600000 ->
  scheduled true now t m !! (id t ++ REMINDER_SUFFIX)%string =
  Some (reminderEntry t) /\
  scheduled true now t m !! (id t ++ DEADLINE_SUFFIX)%string =
  Some (deadlineEntry t).
Proof.
  intros Hsoon. unfold scheduled. cbn [andb].
  assert (E1 : (now <? deadline t - 3600000) = true) by (apply Z.ltb_lt; lia).
  assert (E2 : (now <? deadline t) = true) by (apply Z.ltb_lt; lia).
  rewrite E1, E2.
  pose proof (suffixes_differ (id t)) as Hne.
  split; repeat rewrite lookup_insert; repeat case_decide; congruence.
Qed.

(** X15.  [updateTask], once the document store took the write: the
    thunk is fulfilled with the task it was given, whatever becomes of
    the notification calls; the document written under the task's id
    holds the task's other fields; the service is asked to cancel both
    timers first and then receives the requests of a schedule call.  With
    a service that accepts every call, the store of timers is the one
    scheduling gives on a store without the task's timers: for a
    deadline that has passed no timer of the task is left, and with
    permission and a deadline more than an hour ahead both timers are
    those of the task as updated. *)
Theorem updateTask_reschedules (uid : string) (task : Task) (w : World)
    (Hstore : rejecting w
                (Firestore.UpdateDoc uid (id task)
                   (Firestore.TaskFields (dataOf task))) = None) :
  fst (updateTask uid task w) = Fulfilled task /\
  writes (snd (updateTask uid task w)) =
  writes w ++
  [Firestore.UpdateDoc uid (id task) (Firestore.TaskFields (dataOf task))] /\
  withId (id task) (dataOf task) = task /\
  requestsSince (device w) (device (snd (updateTask uid task w))) =
  [Notifee.CancelTriggerNotification (id task ++ "-reminder");
   Notifee.CancelTriggerNotification (id task ++ "-deadline");
   Notifee.RequestPermission] ++
  (if grantedb (device w) &&
      (Notifee.clock (device w) <? deadline task - 3600000)
   then [reminderRequest task] else []) ++
  (if grantedb (device w) && (Notifee.clock (device w) <? deadline task)
   then [deadlineRequest task] else []) /\
  (reliable (device w) ->
   Notifee.triggers (device (snd (updateTask uid task w))) =
   scheduled (grantedb (device w)) (Notifee.clock (device w)) task
     (cancelled (id task) (Notifee.triggers (device w))) /\
   (deadline task <= Notifee.clock (device w) ->
    forall k, timerOf (id task) k ->
      Notifee.triggers (device (snd (updateTask uid task w))) !! k = None) /\
   (permissionGranted (device w) ->
    Notifee.clock (device w) < deadline task - 3600000 ->
    Notifee.triggers (device (snd (updateTask uid task w)))
      !! (id task ++ "-reminder")%string = Some (reminderEntry task) /\
    Notifee.triggers (device (snd (updateTask uid task w)))
      !! (id task ++ "-deadline")%string = Some (deadlineEntry task))).
Proof.
  rewrite (updateTask_accepted uid task w Hstore). cbn [fst snd device writes].
  destruct (cancel_frame (id task) (device w)) as (Hclock & _ & _).
  split; [reflexivity |]. split; [reflexivity |].
  split; [apply withId_dataOf |]. split.
  - apply requestsSince_app.
    rewrite schedule_requests, cancel_requests, cancel_grantedb, Hclock.
    rewrite <- app_assoc. reflexivity.
  - intros Hok.
    pose proof (cancel_reliable (id task) _ Hok) as Hok1.
    rewrite (schedule_triggers _ _ Hok1), cancel_grantedb, Hclock,
      (cancel_triggers _ _ Hok).
    split; [reflexivity |]. split.
    + intros Hpast k Hk. rewrite scheduled_past by exact Hpast.
      apply cancelled_absent. exact Hk.
    + intros Hg Hsoon. rewrite (proj2 (grantedb_spec _) Hg).
      apply scheduled_ahead. exact Hsoon.
Qed.

Lemma updateTask_reschedules_witness :
  fst (updateTask "u"
         (mkTask "t1" HIGH 3000000 PENDING 0 None)
         {| device :=
              snd (scheduleTaskNotifications sampleTask (sampleDevice 0 1));
            writes := [];
            rejecting := fun _ => None;
            nextId := "n1" |}) =
  Fulfilled (mkTask "t1" HIGH 3000000 PENDING 0 None).
Proof.
  refine (proj1 (updateTask_reschedules "u"
                   (mkTask "t1" HIGH 3000000 PENDING 0 None) _ _)).
  reflexivity.
Defined.

(** X16.  When the document store rejects the write, a thunk is rejected
    with the message of the error it caught, or with its own fallback
    when what it caught is no [Error]; the notification service receives
    no call, so its timers stay as they were. *)
Theorem thunks_store_failure (uid : string) (w : World)
    (err : Firestore.Thrown) :
  (forall data,
     rejecting w (Firestore.AddDoc uid data) = Some err ->
     fst (addTask uid data w) =
     RejectedWithValue (messageOf err "Failed to add task.") /\
     device (snd (addTask uid data w)) = device w) /\
  (forall task,
     rejecting w
       (Firestore.UpdateDoc uid (id task)
          (Firestore.TaskFields (dataOf task))) = Some err ->
     fst (updateTask uid task w) =
     RejectedWithValue (messageOf err "Failed to update task.") /\
     device (snd (updateTask uid task w)) = device w) /\
  (forall taskId,
     rejecting w (Firestore.DeleteDoc uid taskId) = Some err ->
     fst (deleteTask uid taskId w) =
     RejectedWithValue (messageOf err "Failed to delete task.") /\
     device (snd (deleteTask uid taskId w)) = device w) /\
  (forall taskId subtaskId subtasks,
     rejecting w
       (Firestore.UpdateDoc uid taskId
          (Firestore.SubtasksField (map (toggled subtaskId) subtasks))) =
     Some err ->
     fst (toggleSubtask uid taskId subtaskId subtasks w) =
     RejectedWithValue (messageOf err "Failed to toggle subtask.") /\
     device (snd (toggleSubtask uid taskId subtaskId subtasks w)) =
     device w) /\
  (forall task,
     (forall s c,
        rejecting w
          (Firestore.UpdateDoc uid (id task) (Firestore.StatusFields s c)) =
        Some err) ->
     fst (toggleTaskStatus uid task w) =
     RejectedWithValue (messageOf err "Failed to toggle status.") /\
     device (snd (toggleTaskStatus uid task w)) = device w) /\
  (forall message fallback,
     messageOf (Firestore.ErrorObject message) fallback = message) /\
  (forall fallback, messageOf Firestore.OtherValue fallback = fallback).
Proof.
  repeat split; intros;
    unfold addTask, updateTask, deleteTask, toggleSubtask, toggleTaskStatus,
      write;
    match goal with
    | H : rejecting _ _ = Some _ |- _ => rewrite H
    | H : forall s c, rejecting _ _ = Some _ |- _ => rewrite H
    | _ => idtac
    end;
    reflexivity.
Qed.

Lemma thunks_store_failure_witness :
  fst (updateTask "u" sampleTask
         {| device := sampleDevice 0 1; writes := [];
            rejecting := fun _ => Some (Firestore.ErrorObject "offline");
            nextId := "n1" |}) = RejectedWithValue "offline".
Proof.
  refine (proj1 (proj1 (proj2 (thunks_store_failure "u" _
                                 (Firestore.ErrorObject "offline")))
                   sampleTask _)).
  reflexivity.
Defined.

Lemma toggleTaskStatus_pending (uid : string) (task : Task) (w : World) :
  status task = PENDING ->
  rejecting w
    (Firestore.UpdateDoc uid (id task)
       (Firestore.StatusFields COMPLETED
          (Some (Notifee.clock (device w))))) = None ->
  toggleTaskStatus uid task w =
  (Fulfilled (withStatus COMPLETED (Some (Notifee.clock (device w))) task),
   {| device := snd (cancelTaskNotifications (id task) (device w));
      writes :=
        writes w ++
        [Firestore.UpdateDoc uid (id task)
           (Firestore.StatusFields COMPLETED
              (Some (Notifee.clock (device w))))];
      rejecting := rejecting w;
      nextId := nextId w |}).
Proof.
  intros Hp Hstore. unfold toggleTaskStatus, write. rewrite Hp. cbn.
  rewrite Hstore. reflexivity.
Qed.

Lemma toggleTaskStatus_completed (uid : string) (task : Task) (w : World) :
  status task = COMPLETED ->
  rejecting w
    (Firestore.UpdateDoc uid (id task)
       (Firestore.StatusFields PENDING None)) = None ->
  toggleTaskStatus uid task w =
  (Fulfilled (withStatus PENDING None task),
   {| device :=
        snd (scheduleTaskNotifications (withStatus PENDING None task)
               (device w));
      writes :=
        writes w ++
        [Firestore.UpdateDoc uid (id task)
           (Firestore.StatusFields PENDING None)];
      rejecting := rejecting w;
      nextId := nextId w |}).
Proof.
  intros Hc Hstore. unfold toggleTaskStatus, write. rewrite Hc. cbn.
  rewrite Hstore. reflexivity.
Qed.

(** X17.  [toggleTaskStatus] on a PENDING task, once the document store
    took the write: the task is fulfilled as COMPLETED at the instant of
    the call, with its other fields unchanged.  From then on its score
    is 0 at every instant, it counts as completed on time exactly when
    the call came no later than the deadline and as late otherwise, and
    its time health is 100 or 0 accordingly.  The service is asked to
    cancel both timers and nothing else; when it accepts every call no
    timer of the task is left. *)
Theorem toggleTaskStatus_completes (uid : string) (task : Task) (w : World)
    (Hp : status task = PENDING)
    (Hstore : rejecting w
                (Firestore.UpdateDoc uid (id task)
                   (Firestore.StatusFields COMPLETED
                      (Some (Notifee.clock (device w))))) = None) :
  fst (toggleTaskStatus uid task w) =
  Fulfilled (withStatus COMPLETED (Some (Notifee.clock (device w))) task) /\
  (forall now,
     computeScore
       (withStatus COMPLETED (Some (Notifee.clock (device w))) task) now =
     0%Q) /\
  (isOnTime (withStatus COMPLETED (Some (Notifee.clock (device w))) task) =
   true <-> Notifee.clock (device w) <= deadline task) /\
  (isLate (withStatus COMPLETED (Some (Notifee.clock (device w))) task) =
   true <-> deadline task < Notifee.clock (device w)) /\
  (forall now,
     computeTimeHealth
       (withStatus COMPLETED (Some (Notifee.clock (device w))) task) now =
     if Notifee.clock (device w) <=? deadline task then 100 else 0) /\
  requestsSince (device w) (device (snd (toggleTaskStatus uid task w))) =
  [Notifee.CancelTriggerNotification (id task ++ "-reminder");
   Notifee.CancelTriggerNotification (id task ++ "-deadline")] /\
  (reliable (device w) ->
   forall k, timerOf (id task) k ->
     Notifee.triggers (device (snd (toggleTaskStatus uid task w))) !! k =
     None).
Proof.
  rewrite (toggleTaskStatus_pending uid task w Hp Hstore).
  cbn [fst snd device].
  split; [reflexivity |]. split; [reflexivity |].
  split; [unfold isOnTime; cbn; apply Z.leb_le |].
  split; [unfold isLate; cbn; apply Z.ltb_lt |].
  split; [reflexivity |].
  split.
  - apply requestsSince_app, cancel_requests.
  - intros Hok k Hk. rewrite (cancel_triggers _ _ Hok).
    apply cancelled_absent. exact Hk.
Qed.

Lemma toggleTaskStatus_completes_witness :
  fst (toggleTaskStatus "u" sampleTask (sampleWorld (sampleDevice 70 1))) =
  Fulfilled (withStatus COMPLETED (Some 70) sampleTask).
Proof.
  refine (proj1 (toggleTaskStatus_completes "u" sampleTask
                   (sampleWorld (sampleDevice 70 1)) _ _));
    reflexivity.
Defined.

(** X18.  [toggleTaskStatus] on a COMPLETED task, once the document store
    took the write: the task is fulfilled as PENDING with no completion
    instant, and the service receives the requests of a schedule call for
    it, so that no timer is requested when the deadline has passed.
    Completing a PENDING task that has no completion instant and then
    toggling the result gives the task back. *)
Theorem toggleTaskStatus_reopens (uid : string) (task : Task) (w : World)
    (Hc : status task = COMPLETED)
    (Hstore : rejecting w
                (Firestore.UpdateDoc uid (id task)
                   (Firestore.StatusFields PENDING None)) = None) :
  fst (toggleTaskStatus uid task w) =
  Fulfilled (withStatus PENDING None task) /\
  requestsSince (device w) (device (snd (toggleTaskStatus uid task w))) =
  Notifee.RequestPermission ::
  (if grantedb (device w) &&
      (Notifee.clock (device w) <? deadline task - 3600000)
   then [reminderRequest (withStatus PENDING None task)] else []) ++
  (if grantedb (device w) && (Notifee.clock (device w) <? deadline task)
   then [deadlineRequest (withStatus PENDING None task)] else []) /\
  (deadline task <= Notifee.clock (device w) ->
   requestsSince (device w) (device (snd (toggleTaskStatus uid task w))) =
   [Notifee.RequestPermission]) /\
  (forall (before : Task) (w0 : World),
     status before = PENDING -> completedAt before = None ->
     task = withStatus COMPLETED (Some (Notifee.clock (device w0))) before ->
     fst (toggleTaskStatus uid task w) = Fulfilled before).
Proof.
  rewrite (toggleTaskStatus_completed uid task w Hc Hstore).
  cbn [fst snd device].
  split; [reflexivity |].
  assert (Hreq := schedule_requestsSince (withStatus PENDING None task)
                    (device w)).
  cbn [deadline withStatus] in Hreq.
  split; [exact Hreq |]. split.
  - intros Hpast. rewrite Hreq.
    assert (E1 : (Notifee.clock (device w) <? deadline task - 3600000) = false)
      by (apply Z.ltb_ge; lia).
    assert (E2 : (Notifee.clock (device w) <? deadline task) = false)
      by (apply Z.ltb_ge; lia).
    rewrite E1, E2, !andb_false_r. reflexivity.
  - intros before w0 Hbp Hbc ->. f_equal.
    destruct before; cbn in *. subst. reflexivity.
Qed.

Lemma toggleTaskStatus_reopens_witness :
  fst (toggleTaskStatus "u" (withStatus COMPLETED (Some 70) sampleTask)
         (sampleWorld (sampleDevice 90 1))) = Fulfilled sampleTask.
Proof.
  refine (proj2 (proj2 (proj2 (toggleTaskStatus_reopens "u"
                                 (withStatus COMPLETED (Some 70) sampleTask)
                                 (sampleWorld (sampleDevice 90 1)) _ _)))
            sampleTask (sampleWorld (sampleDevice 70 1)) _ _ _);
    reflexivity.
Defined.

Lemma addTask_accepted (uid : string) (data : Firestore.TaskData)
    (w : World) :
  rejecting w (Firestore.AddDoc uid data) = None ->
  addTask uid data w =
  (Fulfilled (withId (nextId w) data),
   {| device :=
        snd (scheduleTaskNotifications (withId (nextId w) data) (device w));
      writes := writes w ++ [Firestore.AddDoc uid data];
      rejecting := rejecting w;
      nextId := nextId w |}).
Proof.
  intros Hstore. unfold addTask, write. rewrite Hstore. reflexivity.
Qed.

(** X19.  [addTask], once the document store took the write: the thunk
    is fulfilled with the task made of the id the store gave the
    document and the fields that were written, whatever becomes of the
    notification call; the service receives the requests of one schedule
    call for that task, and with permission, a deadline more than an
    hour ahead and a service that accepts every call, both timers are
    stored under that id.  The [addTask.fulfilled] reducer does not put
    the task into the collection: it leaves the collection object as it
    is. *)
Theorem addTask_schedules (uid : string) (data : Firestore.TaskData)
    (w : World)
    (Hstore : rejecting w (Firestore.AddDoc uid data) = None) :
  fst (addTask uid data w) = Fulfilled (withId (nextId w) data) /\
  dataOf (withId (nextId w) data) = data /\
  writes (snd (addTask uid data w)) =
  writes w ++ [Firestore.AddDoc uid data] /\
  requestsSince (device w) (device (snd (addTask uid data w))) =
  Notifee.RequestPermission ::
  (if grantedb (device w) &&
      (Notifee.clock (device w) <? Firestore.deadline data - 3600000)
   then [reminderRequest (withId (nextId w) data)] else []) ++
  (if grantedb (device w) &&
      (Notifee.clock (device w) <? Firestore.deadline data)
   then [deadlineRequest (withId (nextId w) data)] else []) /\
  (reliable (device w) -> permissionGranted (device w) ->
   Notifee.clock (device w) < Firestore.deadline data - 3600000 ->
   Notifee.triggers (device (snd (addTask uid data w)))
     !! (nextId w ++ "-reminder")%string =
   Some (reminderEntry (withId (nextId w) data)) /\
   Notifee.triggers (device (snd (addTask uid data w)))
     !! (nextId w ++ "-deadline")%string =
   Some (deadlineEntry (withId (nextId w) data))) /\
  (forall fresh state,
     TasksState.tasks (tasksReducer fresh state addTask_fulfilled) =
     TasksState.tasks state).
Proof.
  rewrite (addTask_accepted uid data w Hstore). cbn [fst snd device writes].
  split; [reflexivity |]. split; [apply dataOf_withId |].
  split; [reflexivity |]. split; [| split].
  - exact (schedule_requestsSince (withId (nextId w) data) (device w)).
  - intros Hok Hg Hsoon.
    rewrite (schedule_triggers _ _ Hok), (proj2 (grantedb_spec _) Hg).
    exact (scheduled_ahead _ (withId (nextId w) data) _ Hsoon).
  - reflexivity.
Qed.

Lemma addTask_schedules_witness :
  fst (addTask "u" (dataOf sampleTask) (sampleWorld (sampleDevice 0 1))) =
  Fulfilled (withId "n1" (dataOf sampleTask)).
Proof.
  refine (proj1 (addTask_schedules "u" (dataOf sampleTask)
                   (sampleWorld (sampleDevice 0 1)) _)).
  reflexivity.
Defined.

(** ** The reducers of the tasks slice *)

Lemma hasId_false (i : string) (t : Task) : hasId i t = false <-> id t <> i.
Proof. unfold hasId. apply String.eqb_neq. Qed.

Lemma hasId_true (i : string) (t : Task) : hasId i t = true <-> id t = i.
Proof. unfold hasId. apply String.eqb_eq. Qed.

Lemma findIndex_absent (i : string) (l : list Task) :
  absent i l -> Arr.findIndex (hasId i) l = -1.
Proof.
  induction 1 as [| x l Hx Hl IH]; cbn; [reflexivity |].
  rewrite (proj2 (hasId_false i x) Hx), IH. reflexivity.
Qed.

Lemma findIndex_first (i : string) (l1 l2 : list Task) (x : Task) :
  absent i l1 -> id x = i ->
  Arr.findIndex (hasId i) (l1 ++ x :: l2) = Z.of_nat (length l1).
Proof.
  intros Hl1 Hx. induction Hl1 as [| y l1 Hy Hl1 IH]; cbn [app Arr.findIndex].
  - rewrite (proj2 (hasId_true i x) Hx). reflexivity.
  - rewrite (proj2 (hasId_false i y) Hy), IH. cbv zeta.
    destruct (Z.of_nat (length l1) =? -1) eqn:E; [apply Z.eqb_eq in E; lia |].
    cbn [length]. lia.
Qed.

Lemma insert_middle {A : Type} (l1 l2 : list A) (x y : A) :
  <[length l1 := y]> (l1 ++ x :: l2) = l1 ++ y :: l2.
Proof.
  induction l1 as [| a l1 IH]; [reflexivity |].
  cbn. f_equal. exact IH.
Qed.

(** A list has no task of the id, or splits at the first one. *)
Lemma first_of_id (i : string) (l : list Task) :
  absent i l \/
  exists l1 x l2, l = l1 ++ x :: l2 /\ absent i l1 /\ id x = i.
Proof.
  induction l as [| y l IH]; [left; constructor |].
  destruct (String.eqb (id y) i) eqn:E.
  - right. exists [], y, l. apply String.eqb_eq in E.
    split; [reflexivity |]. split; [constructor | exact E].
  - apply String.eqb_neq in E. destruct IH as [Hl | (l1 & x & l2 & -> & H1 & Hx)].
    + left. constructor; assumption.
    + right. exists (y :: l1), x, l2.
      split; [reflexivity |]. split; [constructor; assumption | exact Hx].
Qed.

Lemma replaceTask_absent (fresh : positive) (payload : Task)
    (tasks : Array Task) :
  absent (id payload) (elements tasks) ->
  replaceTask fresh payload tasks = tasks.
Proof.
  intros Hl. unfold replaceTask. rewrite (findIndex_absent _ _ Hl).
  reflexivity.
Qed.

Lemma replaceTask_first (fresh : positive) (payload old : Task)
    (tasks : Array Task) (l1 l2 : list Task) :
  elements tasks = l1 ++ old :: l2 -> absent (id payload) l1 ->
  id old = id payload ->
  replaceTask fresh payload tasks =
  {| ref := fresh; elements := l1 ++ payload :: l2 |}.
Proof.
  intros El Hl1 Hold. unfold replaceTask.
  rewrite El, (findIndex_first _ _ _ _ Hl1 Hold).
  destruct (Z.of_nat (length l1) =? -1) eqn:E; [apply Z.eqb_eq in E; lia |].
  rewrite Nat2Z.id, insert_middle. reflexivity.
Qed.

(** X20.  The [updateTask.fulfilled] and [toggleTaskStatus.fulfilled]
    reducers are the same function.  When no task of the collection has
    the id of the payload the state is returned as it is, so the payload
    is never added; otherwise the first task with that id is replaced by
    the payload, in its place, and every other task stays where it was.
    In both cases the ids of the collection are, position by position,
    what they were. *)
Theorem replaceTask_first_match (fresh : positive) (payload : Task)
    (state : TasksState.t) :
  tasksReducer fresh state (toggleTaskStatus_fulfilled payload) =
  tasksReducer fresh state (updateTask_fulfilled payload) /\
  (absent (id payload) (elements (TasksState.tasks state)) ->
   tasksReducer fresh state (updateTask_fulfilled payload) = state) /\
  (forall l1 old l2,
     elements (TasksState.tasks state) = l1 ++ old :: l2 ->
     absent (id payload) l1 -> id old = id payload ->
     TasksState.tasks (tasksReducer fresh state (updateTask_fulfilled payload))
     = {| ref := fresh; elements := l1 ++ payload :: l2 |}) /\
  map id
    (elements
       (TasksState.tasks
          (tasksReducer fresh state (updateTask_fulfilled payload)))) =
  map id (elements (TasksState.tasks state)) /\
  TasksState.loading (tasksReducer fresh state (updateTask_fulfilled payload))
  = TasksState.loading state /\
  TasksState.error (tasksReducer fresh state (updateTask_fulfilled payload))
  = TasksState.error state.
Proof.
  split; [reflexivity |]. split; [| split; [| split; [| split]]].
  - intros Hl. destruct state as [tasks loading error]. cbn in *.
    rewrite (replaceTask_absent _ _ _ Hl). reflexivity.
  - intros l1 old l2 El Hl1 Hold. cbn.
    exact (replaceTask_first _ _ _ _ _ _ El Hl1 Hold).
  - cbn.
    destruct (first_of_id (id payload) (elements (TasksState.tasks state)))
      as [Hl | (l1 & old & l2 & El & Hl1 & Hold)].
    + rewrite (replaceTask_absent _ _ _ Hl). reflexivity.
    + rewrite (replaceTask_first _ _ _ _ _ _ El Hl1 Hold), El. cbn.
      rewrite !map_app. cbn. rewrite Hold. reflexivity.
  - reflexivity.
  - reflexivity.
Qed.

Lemma replaceTask_first_match_witness :
  TasksState.tasks
    (tasksReducer 9%positive (RootState.tasks sampleState)
       (updateTask_fulfilled (mkTask "B" HIGH 7000000 PENDING 0 None))) =
  {| ref := 9%positive;
     elements := [mkTask "A" LOW 4500000 PENDING 0 None;
                  mkTask "D" HIGH 4500000 COMPLETED 0 (Some 10)] ++
                 mkTask "B" HIGH 7000000 PENDING 0 None ::
                 [mkTask "C" MEDIUM 4500000 PENDING 0 None] |}.
Proof.
  refine (proj1 (proj2 (proj2 (replaceTask_first_match 9%positive
                                 (mkTask "B" HIGH 7000000 PENDING 0 None)
                                 (RootState.tasks sampleState))))
            _ (mkTask "B" LOW 4500000 PENDING 0 None) _ _ _ _).
  - reflexivity.
  - repeat constructor; discriminate.
  - reflexivity.
Defined.

Lemma deleteTask_accepted (uid taskId : string) (w : World) :
  rejecting w (Firestore.DeleteDoc uid taskId) = None ->
  deleteTask uid taskId w =
  (Fulfilled taskId,
   {| device := snd (cancelTaskNotifications taskId (device w));
      writes := writes w ++ [Firestore.DeleteDoc uid taskId];
      rejecting := rejecting w;
      nextId := nextId w |}).
Proof.
  intros Hstore. unfold deleteTask, write. rewrite Hstore. reflexivity.
Qed.

Lemma filter_absent (i : string) (l : list Task) :
  absent i (List.filter (fun t => negb (hasId i t)) l).
Proof.
  apply Forall_forall. intros t Ht. apply list_elem_of_In in Ht.
  apply filter_In in Ht. destruct Ht as [_ Ht].
  apply negb_true_iff in Ht. apply hasId_false. exact Ht.
Qed.

Lemma filter_of_absent (i : string) (l : list Task) :
  absent i l -> List.filter (fun t => negb (hasId i t)) l = l.
Proof.
  induction 1 as [| x l Hx Hl IH]; cbn; [reflexivity |].
  rewrite (proj2 (hasId_false i x) Hx). cbn. rewrite IH. reflexivity.
Qed.

(** X21.  Deleting a task.  Once the document store took the write,
    [deleteTask] is fulfilled with the id and asks the service to cancel
    the task's two timers and nothing else; with a service that accepts
    every call none of its timers is left.  The [deleteTask.fulfilled]
    reducer leaves no task of that id in the collection, keeps the other
    tasks in their order, and the ranked list of the new collection is
    the old ranked list without the entries of that id: the other tasks
    keep their scores and their relative order.  The collection is a new
    array even when no task had the id. *)
Theorem deleteTask_removes (uid taskId : string) (w : World)
    (fresh : positive) (state : TasksState.t) (now : Z)
    (Hstore : rejecting w (Firestore.DeleteDoc uid taskId) = None) :
  fst (deleteTask uid taskId w) = Fulfilled taskId /\
  requestsSince (device w) (device (snd (deleteTask uid taskId w))) =
  [Notifee.CancelTriggerNotification (taskId ++ "-reminder");
   Notifee.CancelTriggerNotification (taskId ++ "-deadline")] /\
  (reliable (device w) ->
   forall k, timerOf taskId k ->
     Notifee.triggers (device (snd (deleteTask uid taskId w))) !! k = None) /\
  absent taskId
    (elements
       (TasksState.tasks
          (tasksReducer fresh state (deleteTask_fulfilled taskId)))) /\
  elements
    (TasksState.tasks (tasksReducer fresh state (deleteTask_fulfilled taskId)))
  = List.filter (fun t => negb (hasId taskId t))
      (elements (TasksState.tasks state)) /\
  ranked now
    (elements
       (TasksState.tasks
          (tasksReducer fresh state (deleteTask_fulfilled taskId)))) =
  List.filter (fun a => negb (hasId taskId (task a)))
    (ranked now (elements (TasksState.tasks state))) /\
  (absent taskId (elements (TasksState.tasks state)) ->
   TasksState.tasks (tasksReducer fresh state (deleteTask_fulfilled taskId)) =
   {| ref := fresh; elements := elements (TasksState.tasks state) |}).
Proof.
  rewrite (deleteTask_accepted uid taskId w Hstore). cbn [fst snd device].
  split; [reflexivity |]. split; [| split; [| split; [| split; [| split]]]].
  - apply requestsSince_app, cancel_requests.
  - intros Hok k Hk. rewrite (cancel_triggers _ _ Hok).
    apply cancelled_absent. exact Hk.
  - cbn. apply filter_absent.
  - reflexivity.
  - cbn. apply (ranked_select (fun t => negb (hasId taskId t))).
  - intros Hl. cbn. rewrite (filter_of_absent _ _ Hl). reflexivity.
Qed.

Lemma deleteTask_removes_witness :
  map id
    (elements
       (TasksState.tasks
          (tasksReducer 9%positive (RootState.tasks sampleState)
             (deleteTask_fulfilled "D")))) = ["A"; "B"; "C"].
Proof.
  pose proof (deleteTask_removes "u" "D" (sampleWorld (sampleDevice 0 1))
                9%positive (RootState.tasks sampleState) 0 eq_refl)
    as (_ & _ & _ & _ & Hel & _).
  rewrite Hel. reflexivity.
Defined.

Lemma toggled_involutive (i : string) (s : Subtask) :
  toggled i (toggled i s) = s.
Proof.
  unfold toggled. destruct (String.eqb (subtask_id s) i) eqn:E; cbn.
  - rewrite E, negb_involutive. destruct s; reflexivity.
  - rewrite E. reflexivity.
Qed.

Lemma toggled_id (i : string) (s : Subtask) :
  subtask_id (toggled i s) = subtask_id s.
Proof. unfold toggled. destruct (String.eqb (subtask_id s) i); reflexivity. Qed.

Lemma editOf_refl (t : Task) : editOf t t.
Proof. repeat split. Qed.

Lemma editOf_withSubtasks (l : list Subtask) (t : Task) :
  editOf t (withSubtasks l t).
Proof. repeat split. Qed.

Lemma Forall2_editOf_refl (l : list Task) : Forall2 editOf l l.
Proof. induction l; constructor; [apply editOf_refl | assumption]. Qed.

Lemma assignFound_editOf (p : Task -> bool) (u : list Subtask)
    (l : list Task) :
  Forall2 editOf l (Arr.assignFound p (withSubtasks u) l).
Proof.
  induction l as [| x l IH]; cbn; [constructor |].
  destruct (p x).
  - constructor; [apply editOf_withSubtasks | apply Forall2_editOf_refl].
  - constructor; [apply editOf_refl | exact IH].
Qed.

Lemma setSubtasks_editOf (fresh : positive) (taskId : string)
    (u : list Subtask) (tasks : Array Task) :
  Forall2 editOf (elements tasks)
    (elements (setSubtasks fresh taskId u tasks)).
Proof.
  unfold setSubtasks.
  destruct (Arr.find (hasId taskId) (elements tasks)); cbn.
  - apply assignFound_editOf.
  - apply Forall2_editOf_refl.
Qed.

Lemma find_absent (i : string) (l : list Task) :
  absent i l -> Arr.find (hasId i) l = None.
Proof.
  induction 1 as [| x l Hx Hl IH]; cbn; [reflexivity |].
  rewrite (proj2 (hasId_false i x) Hx). exact IH.
Qed.

Lemma find_first (i : string) (l1 l2 : list Task) (x : Task) :
  absent i l1 -> id x = i -> Arr.find (hasId i) (l1 ++ x :: l2) = Some x.
Proof.
  intros Hl1 Hx. induction Hl1 as [| y l1 Hy Hl1 IH]; cbn.
  - rewrite (proj2 (hasId_true i x) Hx). reflexivity.
  - rewrite (proj2 (hasId_false i y) Hy). exact IH.
Qed.

Lemma assignFound_first (i : string) (f : Task -> Task) (l1 l2 : list Task)
    (x : Task) :
  absent i l1 -> id x = i ->
  Arr.assignFound (hasId i) f (l1 ++ x :: l2) = l1 ++ f x :: l2.
Proof.
  intros Hl1 Hx. induction Hl1 as [| y l1 Hy Hl1 IH]; cbn.
  - rewrite (proj2 (hasId_true i x) Hx). reflexivity.
  - rewrite (proj2 (hasId_false i y) Hy). f_equal. exact IH.
Qed.

Lemma setSubtasks_first (fresh : positive) (taskId : string)
    (u : list Subtask) (tasks : Array Task) (l1 l2 : list Task)
    (old : Task) :
  elements tasks = l1 ++ old :: l2 -> absent taskId l1 -> id old = taskId ->
  setSubtasks fresh taskId u tasks =
  {| ref := fresh; elements := l1 ++ withSubtasks u old :: l2 |}.
Proof.
  intros El Hl1 Hold. unfold setSubtasks. rewrite El.
  rewrite (find_first _ _ _ _ Hl1 Hold),
    (assignFound_first _ _ _ _ _ Hl1 Hold).
  reflexivity.
Qed.

(** X22.  Toggling a subtask.  Once the document store took the write,
    [toggleSubtask] is fulfilled with the list in which the subtasks of
    the given id have their flag flipped; it makes no call to the
    notification service; toggling the same id again gives the list
    back.  The [toggleSubtask.fulfilled] reducer gives the new list to
    the first task of the id and changes nothing else, so the ranked
    list of the collection keeps its ids and its scores, position by
    position; when no task has the id the state is returned as it is. *)
Theorem toggleSubtask_keeps_ranking (uid taskId subtaskId : string)
    (subtasks : list Subtask) (w : World) (fresh : positive)
    (state : TasksState.t) (now : Z)
    (Hstore : rejecting w
                (Firestore.UpdateDoc uid taskId
                   (Firestore.SubtasksField
                      (map (toggled subtaskId) subtasks))) = None) :
  fst (toggleSubtask uid taskId subtaskId subtasks w) =
  Fulfilled (taskId, map (toggled subtaskId) subtasks) /\
  device (snd (toggleSubtask uid taskId subtaskId subtasks w)) = device w /\
  map (toggled subtaskId) (map (toggled subtaskId) subtasks) = subtasks /\
  map subtask_id (map (toggled subtaskId) subtasks) =
  map subtask_id subtasks /\
  (forall l1 old l2,
     elements (TasksState.tasks state) = l1 ++ old :: l2 ->
     absent taskId l1 -> id old = taskId ->
     TasksState.tasks
       (tasksReducer fresh state
          (toggleSubtask_fulfilled taskId (map (toggled subtaskId) subtasks)))
     = {| ref := fresh;
          elements :=
            l1 ++ withSubtasks (map (toggled subtaskId) subtasks) old :: l2
       |}) /\
  (absent taskId (elements (TasksState.tasks state)) ->
   tasksReducer fresh state
     (toggleSubtask_fulfilled taskId (map (toggled subtaskId) subtasks)) =
   state) /\
  map (fun a => id (task a))
    (ranked now
       (elements
          (TasksState.tasks
             (tasksReducer fresh state
                (toggleSubtask_fulfilled taskId
                   (map (toggled subtaskId) subtasks)))))) =
  map (fun a => id (task a)) (ranked now (elements (TasksState.tasks state)))
  /\
  map score
    (ranked now
       (elements
          (TasksState.tasks
             (tasksReducer fresh state
                (toggleSubtask_fulfilled taskId
                   (map (toggled subtaskId) subtasks)))))) =
  map score (ranked now (elements (TasksState.tasks state))).
Proof.
  assert (Hranked :
    Forall2 sameRank
      (ranked now (elements (TasksState.tasks state)))
      (ranked now
         (elements
            (TasksState.tasks
               (tasksReducer fresh state
                  (toggleSubtask_fulfilled taskId
                     (map (toggled subtaskId) subtasks))))))).
  { unfold ranked. apply Array_sort_sameRank, withScore_sameRank. cbn.
    apply setSubtasks_editOf. }
  apply sameRank_columns in Hranked. destruct Hranked as [Hids Hscores].
  split; [| split; [| split; [| split; [| split; [| split; [| split]]]]]].
  - unfold toggleSubtask, write. rewrite Hstore. reflexivity.
  - unfold toggleSubtask, write. rewrite Hstore. reflexivity.
  - rewrite map_map. rewrite <- (map_id subtasks) at 2.
    apply map_ext. intros s. apply toggled_involutive.
  - rewrite map_map. apply map_ext. intros s. apply toggled_id.
  - intros l1 old l2 El Hl1 Hold. cbn.
    exact (setSubtasks_first _ _ _ _ _ _ _ El Hl1 Hold).
  - intros Hl. destruct state as [tasks loading error]. cbn in *.
    unfold setSubtasks. rewrite (find_absent _ _ Hl). reflexivity.
  - symmetry. exact Hids.
  - symmetry. exact Hscores.
Qed.

Lemma toggleSubtask_keeps_ranking_witness :
  fst (toggleSubtask "u" "t1" "s1" (subtasks editedTask)
         (sampleWorld (sampleDevice 0 1))) =
  Fulfilled
    ("t1", [{| subtask_id := "s1"; subtask_title := "go out";
               isCompleted := false |}]).
Proof.
  refine (proj1 (toggleSubtask_keeps_ranking "u" "t1" "s1"
                   (subtasks editedTask) (sampleWorld (sampleDevice 0 1))
                   9%positive (RootState.tasks sampleState) 0 _)).
  reflexivity.
Defined.

Section ReducersAndSelectors.
Context {M : Type -> Type} {memoize : Reselect.Memoize M}
  {laws : Reselect.MemoizeLaws M}.

(** X23.  The reducers that assign to [loading] or [error] only hand on
    the collection object they were given, and so do the update
    reducers for a payload whose id no task has.  After such an action
    [selectSmartSortedTasks] returns the array it returned before,
    without recomputing. *)
Theorem reducers_keep_ranked_view (fresh : positive) (state : RootState.t)
    (rt rt1 rt' : Runtime) (c c1 : Reselect.Cache M (Array ScoredTask))
    (out : Array ScoredTask)
    (Hsel : selectSmartSortedTasks state rt c = (out, rt1, c1)) :
  (forall a,
     keepsCollection a = true ->
     selectTasks (dispatchTasks fresh state a) = selectTasks state /\
     selectSmartSortedTasks (dispatchTasks fresh state a) rt' c1 =
     (out, rt', c1)) /\
  (forall payload,
     absent (id payload) (elements (selectTasks state)) ->
     selectSmartSortedTasks
       (dispatchTasks fresh state (updateTask_fulfilled payload)) rt' c1 =
     (out, rt', c1) /\
     selectSmartSortedTasks
       (dispatchTasks fresh state (toggleTaskStatus_fulfilled payload)) rt' c1
     = (out, rt', c1)) /\
  (forall taskId updatedSubtasks,
     absent taskId (elements (selectTasks state)) ->
     selectSmartSortedTasks
       (dispatchTasks fresh state
          (toggleSubtask_fulfilled taskId updatedSubtasks)) rt' c1 =
     (out, rt', c1)).
Proof.
  unfold selectSmartSortedTasks in Hsel.
  apply createSelector_keeps in Hsel.
  assert (Hsame : forall state',
            selectTasks state' = selectTasks state ->
            selectSmartSortedTasks state' rt' c1 = (out, rt', c1)).
  { intros state' E. unfold selectSmartSortedTasks.
    apply createSelector_hit. rewrite E. exact Hsel. }
  split; [| split].
  - intros a Hkeep.
    assert (E : selectTasks (dispatchTasks fresh state a) = selectTasks state)
      by (destruct a; try discriminate Hkeep; reflexivity).
    split; [exact E | apply Hsame; exact E].
  - intros payload Hl.
    split; apply Hsame; unfold selectTasks; cbn;
      apply replaceTask_absent; exact Hl.
  - intros taskId updatedSubtasks Hl. apply Hsame. unfold selectTasks. cbn.
    unfold setSubtasks. unfold selectTasks in Hl.
    rewrite (find_absent _ _ Hl). reflexivity.
Qed.

End ReducersAndSelectors.

Lemma reducers_keep_ranked_view_witness :
  selectSmartSortedTasks
    (dispatchTasks 9%positive sampleState (fetchTasks_rejected None))
    (tick 900000 startRuntime) (snd (firstCall 0)) =
  (fst (fst (firstCall 0)), tick 900000 startRuntime, snd (firstCall 0)).
Proof.
  refine (proj2 (proj1 (reducers_keep_ranked_view (laws := lruMemoize_laws)
                          9%positive sampleState (tick 0 startRuntime)
                          (snd (fst (firstCall 0)))
                          (tick 900000 startRuntime)
                          Reselect.empty _ _ _)
                   (fetchTasks_rejected None) _));
    reflexivity.
Defined.

(** ** The figures of the screens *)

Lemma ranked_length (now : Z) (tasks : list Task) :
  length (ranked now tasks) = length tasks.
Proof.
  unfold ranked. rewrite (Permutation_length (Array_sort_perm _ _)).
  apply length_map.
Qed.

Lemma filter_filter_and {A : Type} (p q : A -> bool) (l : list A) :
  List.filter p (List.filter q l) = List.filter (fun x => q x && p x) l.
Proof.
  induction l as [| x l IH]; cbn; [reflexivity |].
  destruct (q x); cbn; [destruct (p x) |]; rewrite IH; reflexivity.
Qed.

Lemma length_filter_le {A : Type} (p : A -> bool) (l : list A) :
  (length (List.filter p l) <= length l)%nat.
Proof.
  induction l as [| x l IH]; cbn; [lia |]. destruct (p x); cbn; lia.
Qed.

(** Counting among the PENDING entries of a ranked list is counting among
    the PENDING tasks of the collection. *)
Lemma pending_count (q : Task -> bool) (t0 : Z) (tasks : list Task) :
  length
    (List.filter (fun a => q (task a))
       (List.filter (hasStatus PENDING) (ranked t0 tasks))) =
  count (fun t => statusIs PENDING t && q t) tasks.
Proof.
  change (hasStatus PENDING) with (fun a => statusIs PENDING (task a)).
  rewrite <- !ranked_select, ranked_length, filter_filter_and.
  reflexivity.
Qed.

(** X24.  The counts of the [TaskStats] tiles, for the PENDING and the
    COMPLETED part of a ranked list of the collection: the pending and
    the done count add up to the size of the collection; the overdue
    count at the tick [now] is the number of PENDING tasks whose deadline
    is before [now], the number the consistency score counts as overdue
    at [now]; the overdue and the high-priority count are at most the
    pending count.  None of them depends on the instant [t0] at which
    the ranked list was computed. *)
Theorem TaskStats_counts (tasks : list Task) (t0 now consistencyScore : Z) :
  (pendingCount
     (TaskStats (List.filter (hasStatus PENDING) (ranked t0 tasks))
        (List.filter (hasStatus COMPLETED) (ranked t0 tasks))
        consistencyScore now) +
   doneCount
     (TaskStats (List.filter (hasStatus PENDING) (ranked t0 tasks))
        (List.filter (hasStatus COMPLETED) (ranked t0 tasks))
        consistencyScore now) = length tasks)%nat /\
  pendingCount
    (TaskStats (List.filter (hasStatus PENDING) (ranked t0 tasks))
       (List.filter (hasStatus COMPLETED) (ranked t0 tasks))
       consistencyScore now) = count (statusIs PENDING) tasks /\
  overdueCount
    (TaskStats (List.filter (hasStatus PENDING) (ranked t0 tasks))
       (List.filter (hasStatus COMPLETED) (ranked t0 tasks))
       consistencyScore now) = count (isOverdue now) tasks /\
  highCount
    (TaskStats (List.filter (hasStatus PENDING) (ranked t0 tasks))
       (List.filter (hasStatus COMPLETED) (ranked t0 tasks))
       consistencyScore now) =
  count (fun t => statusIs PENDING t &&
                  match priority t with HIGH => true | _ => false end) tasks /\
  (overdueCount
     (TaskStats (List.filter (hasStatus PENDING) (ranked t0 tasks))
        (List.filter (hasStatus COMPLETED) (ranked t0 tasks))
        consistencyScore now) <=
   pendingCount
     (TaskStats (List.filter (hasStatus PENDING) (ranked t0 tasks))
        (List.filter (hasStatus COMPLETED) (ranked t0 tasks))
        consistencyScore now))%nat /\
  (highCount
     (TaskStats (List.filter (hasStatus PENDING) (ranked t0 tasks))
        (List.filter (hasStatus COMPLETED) (ranked t0 tasks))
        consistencyScore now) <=
   pendingCount
     (TaskStats (List.filter (hasStatus PENDING) (ranked t0 tasks))
        (List.filter (hasStatus COMPLETED) (ranked t0 tasks))
        consistencyScore now))%nat.
Proof.
  cbn [TaskStats pendingCount doneCount overdueCount highCount].
  split; [| split; [| split; [| split; [| split]]]].
  - rewrite <- length_app.
    rewrite <- (sorted_pending_first t0 (ranked t0 tasks)
                  (scoredAt_ranked t0 tasks) (Array_sort_sorted _)).
    apply ranked_length.
  - change (hasStatus PENDING) with (fun a => statusIs PENDING (task a)).
    rewrite <- ranked_select. apply ranked_length.
  - exact (pending_count (fun t => deadline t <? now) t0 tasks).
  - exact (pending_count
             (fun t => match priority t with HIGH => true | _ => false end)
             t0 tasks).
  - apply length_filter_le.
  - apply length_filter_le.
Qed.

Lemma label_of_score (pending completed : list ScoredTask)
    (consistencyScore now : Z) :
  (80 <= consistencyScore ->
   scoreLabel (TaskStats pending completed consistencyScore now) =
   "On Track") /\
  (consistencyScore < 50 ->
   scoreLabel (TaskStats pending completed consistencyScore now) =
   "At Risk").
Proof.
  cbn [TaskStats scoreLabel]. split; intros H.
  - destruct (80 <=? consistencyScore) eqn:E; [reflexivity |].
    apply Z.leb_gt in E. lia.
  - destruct (80 <=? consistencyScore) eqn:E; [apply Z.leb_le in E; lia |].
    destruct (50 <=? consistencyScore) eqn:E'; [apply Z.leb_le in E'; lia |].
    reflexivity.
Qed.

(** X25.  The label under the on-time score of [TaskStats], for the
    consistency score of a collection.  As long as no task was completed
    on time the label is "At Risk", also for an empty collection and for
    one whose tasks are all pending and not yet due.  With at least one
    task completed on time, none completed late and none overdue it is
    "On Track".  For the same collection, a label that is "On Track" at
    some instant was "On Track" at every earlier one. *)
Theorem TaskStats_label (tasks : list Task) (pending completed : list ScoredTask)
    (t1 now : Z) :
  (count isOnTime tasks = 0%nat ->
   scoreLabel
     (TaskStats pending completed (computeConsistencyScore tasks t1) now) =
   "At Risk") /\
  (count isLate tasks = 0%nat -> count (isOverdue t1) tasks = 0%nat ->
   (0 < count isOnTime tasks)%nat ->
   scoreLabel
     (TaskStats pending completed (computeConsistencyScore tasks t1) now) =
   "On Track") /\
  (forall t2,
     t1 <= t2 ->
     scoreLabel
       (TaskStats pending completed (computeConsistencyScore tasks t2) now) =
     "On Track" ->
     scoreLabel
       (TaskStats pending completed (computeConsistencyScore tasks t1) now) =
     "On Track").
Proof.
  split; [| split].
  - intros Hon. apply label_of_score.
    rewrite (consistency_none_onTime tasks t1 Hon). lia.
  - intros Hl Ho Hon. apply label_of_score.
    rewrite (consistency_all_onTime tasks t1 Hl Ho Hon). lia.
  - intros t2 Hlater Hlabel. apply label_of_score.
    pose proof (consistency_antitone tasks t1 t2 Hlater) as Hle.
    cbn [TaskStats scoreLabel] in Hlabel.
    destruct (80 <=? computeConsistencyScore tasks t2) eqn:E.
    + apply Z.leb_le in E. lia.
    + destruct (50 <=? computeConsistencyScore tasks t2);
        discriminate Hlabel.
Qed.

Lemma TaskStats_label_witness :
  scoreLabel
    (TaskStats [] []
       (computeConsistencyScore
          [mkTask "a" LOW 100 PENDING 0 None] 50) 50) = "At Risk".
Proof.
  refine (proj1 (TaskStats_label [mkTask "a" LOW 100 PENDING 0 None] [] []
                   50 50) _).
  reflexivity.
Defined.

Lemma hours_days (ms : Z) :
  0 <= ms ->
  3600000 * (ms / 3600000) <= ms < 3600000 * (ms / 3600000) + 3600000 /\
  ms / 3600000 / 24 = ms / 86400000 /\
  86400000 * (ms / 86400000) <= ms < 86400000 * (ms / 86400000) + 86400000.
Proof.
  intros Hms.
  pose proof (Z.mul_div_le ms 3600000 ltac:(lia)).
  pose proof (Z.mul_succ_div_gt ms 3600000 ltac:(lia)).
  pose proof (Z.mul_div_le ms 86400000 ltac:(lia)).
  pose proof (Z.mul_succ_div_gt ms 86400000 ltac:(lia)).
  split; [lia |]. split; [| lia].
  rewrite Z.div_div by lia. reflexivity.
Qed.

(** X26.  [formatRelative] by the distance of the timestamp from [now],
    in milliseconds: a timestamp before [now] is "Just overdue" for less
    than an hour, then overdue by whole hours up to a day and by whole
    days from then on; a timestamp at or after [now] is "Due soon" for
    less than an hour, also at [now] itself, then due in whole hours up
    to a day and in whole days from then on.  Hours and days are rounded
    down. *)
Theorem formatRelative_ranges (ts now : Z) :
  (ts - now <= -86400000 ->
   formatRelative ts now =
   (pretty ((now - ts) / 86400000) ++ "d overdue")%string) /\
  (-86400000 < ts - now <= -3600000 ->
   formatRelative ts now =
   (pretty ((now - ts) / 3600000) ++ "h overdue")%string) /\
  (-3600000 < ts - now < 0 -> formatRelative ts now = "Just overdue") /\
  (0 <= ts - now < 3600000 -> formatRelative ts now = "Due soon") /\
  (3600000 <= ts - now < 86400000 ->
   formatRelative ts now =
   ("in " ++ pretty ((ts - now) / 3600000) ++ "h")%string) /\
  (86400000 <= ts - now ->
   formatRelative ts now =
   ("in " ++ pretty ((ts - now) / 86400000) ++ "d")%string).
Proof.
  unfold formatRelative. change (1000 * 60 * 60) with 3600000. cbv zeta.
  destruct (Z_lt_le_dec (ts - now) 0) as [Hneg | Hpos].
  - rewrite (Z.abs_neq (ts - now)) by lia.
    replace (- (ts - now)) with (now - ts) by lia.
    destruct (hours_days (now - ts) ltac:(lia)) as (Hh & -> & Hd).
    rewrite (proj2 (Z.ltb_lt (ts - now) 0) Hneg).
    repeat split; intros Hr; try lia.
    + rewrite (proj2 (Z.ltb_lt 0 _)) by lia. reflexivity.
    + rewrite (proj2 (Z.ltb_ge 0 ((now - ts) / 86400000))) by lia.
      rewrite (proj2 (Z.ltb_lt 0 _)) by lia. reflexivity.
    + rewrite (proj2 (Z.ltb_ge 0 ((now - ts) / 86400000))) by lia.
      rewrite (proj2 (Z.ltb_ge 0 ((now - ts) / 3600000))) by lia.
      reflexivity.
  - rewrite (Z.abs_eq (ts - now)) by lia.
    destruct (hours_days (ts - now) Hpos) as (Hh & -> & Hd).
    rewrite (proj2 (Z.ltb_ge (ts - now) 0) Hpos).
    repeat split; intros Hr; try lia.
    + rewrite (proj2 (Z.ltb_ge 0 ((ts - now) / 86400000))) by lia.
      rewrite (proj2 (Z.ltb_ge 0 ((ts - now) / 3600000))) by lia.
      reflexivity.
    + rewrite (proj2 (Z.ltb_ge 0 ((ts - now) / 86400000))) by lia.
      rewrite (proj2 (Z.ltb_lt 0 _)) by lia. reflexivity.
    + rewrite (proj2 (Z.ltb_lt 0 _)) by lia. reflexivity.
Qed.

Lemma formatRelative_ranges_witness :
  formatRelative 7200000 0 = "in 2h".
Proof.
  pose proof (formatRelative_ranges 7200000 0) as (_ & _ & _ & _ & Hh & _).
  rewrite Hh by lia. reflexivity.
Defined.




